(** * SharedPtr / WeakPtr: a reference-counted handle pair

    Shallow embedding of [shared_pointer.hpp].  The C++ heap of control
    blocks, the handle objects living in client variables and the order of
    [delete] statements are made explicit; every member function becomes a
    computation in a small state-and-fault monad. *)

From stdpp Require Import gmap list strings.
From Stdlib Require Import ZArith Lia.

Local Open Scope Z_scope.

(** ** Machine data *)

(** Heap addresses ([Counter*], [T*]) and the identity of a handle object
    (the address of the client variable holding it). A null pointer is
    [None]. *)
Abbreviation loc := positive.
Abbreviation var := nat.

(** [size_t] is taken to be 64 bits wide; [++] and [--] wrap around. *)
Definition SIZE_MODULUS : Z := 2 ^ 64.
Definition SIZE_MAX : Z := SIZE_MODULUS - 1.
Definition size_incr (n : Z) : Z := (n + 1) mod SIZE_MODULUS.
Definition size_decr (n : Z) : Z := (n - 1) mod SIZE_MODULUS.

(** [struct Counter { size_t shared_count_; size_t weak_count_; }] *)
Record Counter := mkCounter { shared_count_ : Z; weak_count_ : Z }.

(** The two data members shared by [SharedPtr<T>] and [WeakPtr<T>]:
    [T* ptr_] and [Counter* counter]. *)
Record Handle := mkHandle { ptr_ : option loc; counter : option loc }.

Definition null_handle : Handle := mkHandle None None.

Global Instance Counter_eq_dec : EqDecision Counter.
Proof. solve_decision. Defined.
Global Instance Handle_eq_dec : EqDecision Handle.
Proof. solve_decision. Defined.

(** What the two [delete] statements of the source do, in program order.
    [EvDeletePtr c p] is [delete ptr_] run by a handle whose [counter] field
    is [c] and whose [ptr_] is the non-null [p]; [EvDeleteCounter c] is
    [delete counter]. *)
Inductive Event :=
| EvDeleteCounter (c : loc)
| EvDeletePtr (c : loc) (p : loc).

Global Instance Event_eq_dec : EqDecision Event.
Proof. solve_decision. Defined.

(** Program state: the live control blocks, the allocation mark (addresses
    are never handed out twice), the live [SharedPtr] and [WeakPtr] objects
    and the history of deletions. *)
Record State := mkState {
  heap : gmap loc Counter;
  brk : loc;
  sp : gmap var Handle;
  wp : gmap var Handle;
  log : list Event
}.

Definition init : State := mkState ∅ 1%positive ∅ ∅ [].

Definition set_heap (f : gmap loc Counter → gmap loc Counter) (s : State) : State :=
  mkState (f (heap s)) (brk s) (sp s) (wp s) (log s).
Definition set_sp (f : gmap var Handle → gmap var Handle) (s : State) : State :=
  mkState (heap s) (brk s) (f (sp s)) (wp s) (log s).
Definition set_wp (f : gmap var Handle → gmap var Handle) (s : State) : State :=
  mkState (heap s) (brk s) (sp s) (f (wp s)) (log s).
Definition emit (e : Event) (s : State) : State :=
  mkState (heap s) (brk s) (sp s) (wp s) (log s ++ [e]).

(** ** The monad of member functions *)

Inductive fault :=
| NullDeref      (* [counter->...] through a null [counter] *)
| UseAfterFree   (* access to, or second delete of, a freed control block *)
| DeadObject.    (* a variable used outside the lifetime of its object *)

Inductive exn := bad_weak_ptr.

Inductive outcome (A : Type) :=
| Ok (a : A) (s : State)
| Throw (e : exn) (s : State)
| UB (f : fault).
Arguments Ok {A} a s.
Arguments Throw {A} e s.
Arguments UB {A} f.

Definition M (A : Type) : Type := State → outcome A.

Definition ret {A} (a : A) : M A := λ s, Ok a s.
Definition bind {A B} (m : M A) (k : A → M B) : M B :=
  λ s, match m s with
       | Ok a s' => k a s'
       | Throw e s' => Throw e s'
       | UB f => UB f
       end.
Definition throw {A} (e : exn) : M A := λ s, Throw e s.
Definition undefined {A} (f : fault) : M A := λ _, UB f.

Notation "'do' x <- m ; k" := (bind m (λ x, k))
  (at level 10, x name, m at level 100, k at level 200).
Notation "m ;;; k" := (bind m (λ _, k))
  (at level 100, k at level 200, right associativity).

(** A [const] member function only reads the state; [None] is a read of a
    freed control block. *)
Definition read {A} (f : State → option A) : M A :=
  λ s, match f s with Some a => Ok a s | None => UB UseAfterFree end.

(** ** Statements of the source *)

(** [counter->field] needs a non-null [counter]. *)
Definition deref (c : option loc) : M loc :=
  match c with Some a => ret a | None => undefined NullDeref end.

Definition load (c : loc) : M Counter := read (λ s, heap s !! c).

Definition store (c : loc) (b : Counter) : M unit :=
  λ s, match heap s !! c with
       | Some _ => Ok () (set_heap (insert c b) s)
       | None => UB UseAfterFree
       end.

(** [++counter->shared_count_], [--counter->shared_count_] and the same for
    [weak_count_]. *)
Definition incr_shared (c : loc) : M unit :=
  do b <- load c; store c (mkCounter (size_incr (shared_count_ b)) (weak_count_ b)).
Definition decr_shared (c : loc) : M unit :=
  do b <- load c; store c (mkCounter (size_decr (shared_count_ b)) (weak_count_ b)).
Definition incr_weak (c : loc) : M unit :=
  do b <- load c; store c (mkCounter (shared_count_ b) (size_incr (weak_count_ b))).
Definition decr_weak (c : loc) : M unit :=
  do b <- load c; store c (mkCounter (shared_count_ b) (size_decr (weak_count_ b))).

(** [if (counter) ++counter->..._count_;] *)
Definition incr_shared_if (c : option loc) : M unit :=
  match c with Some a => incr_shared a | None => ret () end.
Definition incr_weak_if (c : option loc) : M unit :=
  match c with Some a => incr_weak a | None => ret () end.

(** [new Counter] followed by the assignments to its fields: the block
    appears at a fresh address holding [b]. *)
Definition new_Counter (b : Counter) : M loc :=
  λ s, Ok (brk s)
          (mkState (<[brk s := b]> (heap s)) (Pos.succ (brk s)) (sp s) (wp s) (log s)).

(** [delete counter] *)
Definition delete_counter (c : loc) : M unit :=
  λ s, match heap s !! c with
       | Some _ => Ok () (emit (EvDeleteCounter c) (set_heap (delete c) s))
       | None => UB UseAfterFree
       end.

(** [delete ptr_], issued by a handle of control block [c]; deleting a null
    pointer does nothing.  The statement is recorded, not checked: an object
    deleted a second time, through another control block, shows in the
    history as a second event for the same object ([deleted]), which the
    programs that hand each object to one [SharedPtr] only ([single_owner])
    never produce. *)
Definition delete_ptr (c : loc) (p : option loc) : M unit :=
  match p with
  | Some a => λ s, Ok () (emit (EvDeletePtr c a) s)
  | None => ret ()
  end.

(** Access to the handle objects themselves. *)
Definition get_sp (v : var) : M Handle :=
  λ s, match sp s !! v with Some h => Ok h s | None => UB DeadObject end.
Definition put_sp (v : var) (h : Handle) : M unit :=
  λ s, Ok () (set_sp (insert v h) s).
Definition get_wp (v : var) : M Handle :=
  λ s, match wp s !! v with Some h => Ok h s | None => UB DeadObject end.
Definition put_wp (v : var) (h : Handle) : M unit :=
  λ s, Ok () (set_wp (insert v h) s).

(** [ptr ? 1 : 0] *)
Definition one_if_nonnull (p : option loc) : Z :=
  match p with Some _ => 1 | None => 0 end.

(** ** [class SharedPtr] *)

Module SharedPtr.

(** [size_t UseCount() const] *)
Definition UseCount (this : Handle) (s : State) : option Z :=
  match counter this with
  | None => Some 0
  | Some c => shared_count_ <$> heap s !! c
  end.

(** [operator bool() const] *)
Definition to_bool (this : Handle) (s : State) : option bool :=
  match counter this with
  | None => Some false
  | Some c => (λ b, negb (shared_count_ b =? 0)) <$> heap s !! c
  end.

(** [T* Get() const] *)
Definition Get (this : Handle) : option loc := ptr_ this.

(** [SharedPtr()] *)
Definition ctor_default : M Handle := ret null_handle.

(** [SharedPtr(T* ptr)] *)
Definition ctor_raw (ptr : option loc) : M Handle :=
  do c <- new_Counter (mkCounter (one_if_nonnull ptr) 0);
  ret (mkHandle ptr (Some c)).

(** [SharedPtr(const SharedPtr& other)]: the count is incremented through
    [counter] without a null test. *)
Definition ctor_copy (other : Handle) : M Handle :=
  do c <- deref (counter other);
  incr_shared c;;;
  ret (mkHandle (ptr_ other) (counter other)).

(** [SharedPtr(const SharedPtr&& other)] and
    [template <typename U> SharedPtr(SharedPtr<U>&& other)]: the two bodies
    are the same; [other] is a live object and is emptied. *)
Definition ctor_move (other : var) : M Handle :=
  do o <- get_sp other;
  put_sp other null_handle;;;
  ret (mkHandle (ptr_ o) (counter o)).

(** [void DecreaseAndDelete()] *)
Definition DecreaseAndDelete (this : Handle) : M unit :=
  match counter this with
  | None => ret ()
  | Some c =>
      do b <- load c;
      (if 0 <? shared_count_ b then decr_shared c else ret ());;;
      do b <- load c;
      if (shared_count_ b =? 0) && (weak_count_ b =? 0) then
        delete_counter c;;;
        delete_ptr c (ptr_ this)
      else if shared_count_ b =? 0 then
        delete_ptr c (ptr_ this)
      else ret ()
  end.

(** [~SharedPtr()]: the release, after which the object is gone. *)
Definition dtor (this : var) : M unit :=
  do h <- get_sp this;
  DecreaseAndDelete h;;;
  λ s, Ok () (set_sp (delete this) s).

(** [SharedPtr& operator=(const SharedPtr& other)] *)
Definition assign (this other : var) : M unit :=
  if decide (this = other) then ret ()
  else
    do h <- get_sp this;
    DecreaseAndDelete h;;;
    do o <- get_sp other;
    put_sp this (mkHandle (ptr_ o) (counter o));;;
    incr_shared_if (counter o).

(** [SharedPtr& operator=(SharedPtr&& other)] *)
Definition move_assign (this other : var) : M unit :=
  if decide (this = other) then ret ()
  else
    do h <- get_sp this;
    DecreaseAndDelete h;;;
    do o <- get_sp other;
    put_sp this (mkHandle (ptr_ o) (counter o));;;
    put_sp other null_handle.

(** [void Reset(T* ptr = nullptr)] *)
Definition Reset (this : var) (ptr : option loc) : M unit :=
  do h <- get_sp this;
  DecreaseAndDelete h;;;
  do c <- new_Counter (mkCounter (one_if_nonnull ptr) 0);
  put_sp this (mkHandle ptr (Some c)).

(** [void Swap(SharedPtr<T>& other)] *)
Definition Swap (this other : var) : M unit :=
  do h <- get_sp this;
  do o <- get_sp other;
  put_sp this (mkHandle (ptr_ o) (counter o));;;
  put_sp other (mkHandle (ptr_ h) (counter h)).

End SharedPtr.

(** ** [class WeakPtr] *)

Module WeakPtr.

(** [size_t UseCount() const] *)
Definition UseCount (this : Handle) (s : State) : option Z :=
  match counter this with
  | None => Some 0
  | Some c => shared_count_ <$> heap s !! c
  end.

(** [bool Expired() const] *)
Definition Expired (this : Handle) (s : State) : option bool :=
  match counter this with
  | None => Some true
  | Some c => (λ b, shared_count_ b =? 0) <$> heap s !! c
  end.

(** [WeakPtr()] *)
Definition ctor_default : M Handle := ret null_handle.

(** [WeakPtr(T* ptr)]: the body assigns [shared_count_] and a member
    called [weak_counter_], which [Counter] does not have
    ([WeakPtr_ctor_raw_body]): a program that uses this constructor is not
    accepted by the compiler, so no program runs it.  The step is kept with
    the reading that the misspelt assignment writes nothing and
    [weak_count_] keeps whatever [new Counter] left in it ([junk]); it only
    adds runs, and [determinate] names the steps without it. *)
Definition ctor_raw (junk : Z) (ptr : option loc) : M Handle :=
  do c <- new_Counter (mkCounter 0 junk);
  ret (mkHandle ptr (Some c)).

(** [WeakPtr(const WeakPtr& other)] *)
Definition ctor_copy (other : Handle) : M Handle :=
  incr_weak_if (counter other);;;
  ret (mkHandle (ptr_ other) (counter other)).

(** [WeakPtr(WeakPtr&& other)] *)
Definition ctor_move (other : var) : M Handle :=
  do o <- get_wp other;
  put_wp other null_handle;;;
  ret (mkHandle (ptr_ o) (counter o)).

(** [WeakPtr(const SharedPtr<T>& other)] *)
Definition ctor_from_shared (other : Handle) : M Handle :=
  incr_weak_if (counter other);;;
  ret (mkHandle (ptr_ other) (counter other)).

(** [void DecreaseAndDelete()] *)
Definition DecreaseAndDelete (this : Handle) : M unit :=
  match counter this with
  | None => ret ()
  | Some c =>
      do b <- load c;
      (if 0 <? weak_count_ b then decr_weak c else ret ());;;
      do b <- load c;
      if (weak_count_ b =? 0) && (shared_count_ b =? 0) then delete_counter c
      else ret ()
  end.

(** [~WeakPtr()] *)
Definition dtor (this : var) : M unit :=
  do h <- get_wp this;
  DecreaseAndDelete h;;;
  λ s, Ok () (set_wp (delete this) s).

(** [WeakPtr& operator=(const WeakPtr& other)] *)
Definition assign (this other : var) : M unit :=
  if decide (this = other) then ret ()
  else
    do h <- get_wp this;
    DecreaseAndDelete h;;;
    do o <- get_wp other;
    put_wp this (mkHandle (ptr_ o) (counter o));;;
    incr_weak_if (counter o).

(** [WeakPtr& operator=(WeakPtr&& other)] *)
Definition move_assign (this other : var) : M unit :=
  if decide (this = other) then ret ()
  else
    do h <- get_wp this;
    DecreaseAndDelete h;;;
    do o <- get_wp other;
    put_wp this (mkHandle (ptr_ o) (counter o));;;
    put_wp other null_handle.

(** [template <typename U> WeakPtr(WeakPtr<U>&& other)]: no member
    initialiser, so the new object starts with indeterminate fields
    ([junk]); [other] is a named reference, hence an lvalue, and
    [*this = other] is the copy assignment; then the weak count is
    incremented once more through [counter], untested.  No program runs
    this constructor either: for [U = T] overload resolution prefers the
    non-template [WeakPtr(WeakPtr&&)], and for any other [U] the class has
    no [operator=] that takes a [WeakPtr<U>], so the body is not accepted.
    Like [ctor_raw] the step only adds runs. *)
Definition ctor_conv_move (junk : Handle) (this other : var) : M unit :=
  put_wp this junk;;;
  assign this other;;;
  do h <- get_wp this;
  do c <- deref (counter h);
  incr_weak c.

(** [void Swap(WeakPtr<T>& other)] *)
Definition Swap (this other : var) : M unit :=
  do h <- get_wp this;
  do o <- get_wp other;
  put_wp this (mkHandle (ptr_ o) (counter o));;;
  put_wp other (mkHandle (ptr_ h) (counter h)).

(** [void Reset()] *)
Definition Reset (this : var) : M unit :=
  do h <- get_wp this;
  match counter h with
  | None => ret ()
  | Some c =>
      decr_weak c;;;
      put_wp this null_handle
  end.

End WeakPtr.

(** [SharedPtr(const WeakPtr<T>& other)]: the members are initialised from
    [other], then an expired [other] makes the constructor throw; the object
    under construction never comes to life. *)
Definition SharedPtr_ctor_from_weak (other : Handle) : M Handle :=
  do e <- read (WeakPtr.Expired other);
  if (e : bool) then throw bad_weak_ptr
  else
    incr_shared_if (counter other);;;
    ret (mkHandle (ptr_ other) (counter other)).

(** [SharedPtr<T> WeakPtr::Lock() const]: [return nullptr] converts through
    [SharedPtr(T* ptr)]; [return ptr] hands the local handle to the caller
    (moved or elided, the emptied local then releases nothing). *)
Definition WeakPtr_Lock (this : Handle) : M Handle :=
  do e <- read (WeakPtr.Expired this);
  if (e : bool) then SharedPtr.ctor_raw None
  else SharedPtr_ctor_from_weak this.

(** [MakeShared<T>(args...)]: [SharedPtr<T>(new T(args...))], with [obj]
    the address of the new [T]. *)
Definition MakeShared (obj : loc) : M Handle := SharedPtr.ctor_raw (Some obj).

(** ** The constructors from a raw pointer, as written

    A member function of a class template is checked when a program uses
    it; the body of a constructor from a raw pointer is a list of
    assignments [counter->member = value], the value depending on the
    pointer [ptr]. *)

(** The members that [struct Counter] declares. *)
Definition Counter_members : list string := ["shared_count_"; "weak_count_"].

Definition assignment : Type := string * (option loc → Z).

(** [SharedPtr(T* ptr)]:
    [counter->shared_count_ = ptr ? 1 : 0; counter->weak_count_ = 0;] *)
Definition SharedPtr_ctor_raw_body : list assignment :=
  [("shared_count_", one_if_nonnull); ("weak_count_", λ _, 0)].

(** [WeakPtr(T* ptr)]:
    [counter->shared_count_ = 0; counter->weak_counter_ = ptr ? 1 : 0;] *)
Definition WeakPtr_ctor_raw_body : list assignment :=
  [("shared_count_", λ _, 0); ("weak_counter_", one_if_nonnull)].

(** [counter->m] is accepted when [Counter] declares [m]; a body is
    accepted when each of its member accesses is. *)
Definition declared (m : string) : bool := bool_decide (m ∈ Counter_members).
Definition well_formed (body : list assignment) : bool :=
  forallb (λ a, declared a.1) body.

(** The value that a body assigns to member [m], if it assigns one. *)
Fixpoint assigned (body : list assignment) (m : string) : option (option loc → Z) :=
  match body with
  | [] => None
  | (m', f) :: rest => if decide (m' = m) then Some f else assigned rest m
  end.

(** ** Client programs

    A client step declares a handle variable through one of the
    constructors, calls a member function on live variables, or lets a
    variable go out of scope.  The two constructors that start from
    indeterminate memory take that memory's content as a parameter of the
    step; they are the two that no compiled program contains. *)
Inductive Op :=
| S_default (v : var)                    (* SharedPtr<T> v;                  *)
| S_raw (v : var) (p : option loc)       (* SharedPtr<T> v(p);  MakeShared   *)
| S_copy (v o : var)                     (* SharedPtr<T> v(o);               *)
| S_move (v o : var)                     (* SharedPtr<T> v(std::move(o));    *)
| S_from_weak (v w : var)                (* SharedPtr<T> v(w);   w weak      *)
| S_dtor (v : var)                       (* v leaves scope                   *)
| S_assign (v o : var)                   (* v = o;                           *)
| S_move_assign (v o : var)              (* v = std::move(o);                *)
| S_reset (v : var) (p : option loc)     (* v.Reset(p);                      *)
| S_swap (v o : var)                     (* v.Swap(o);                       *)
| W_default (v : var)                    (* WeakPtr<T> v;                    *)
| W_copy (v o : var)                     (* WeakPtr<T> v(o);                 *)
| W_move (v o : var)                     (* WeakPtr<T> v(std::move(o));      *)
| W_from_shared (v o : var)              (* WeakPtr<T> v(o);     o shared    *)
| W_raw (v : var) (junk : Z) (p : option loc)   (* WeakPtr<T> v(p);          *)
| W_conv_move (v o : var) (junk : Handle)       (* the converting move       *)
| W_dtor (v : var)                       (* v leaves scope                   *)
| W_assign (v o : var)                   (* v = o;                           *)
| W_move_assign (v o : var)              (* v = std::move(o);                *)
| W_swap (v o : var)                     (* v.Swap(o);                       *)
| W_reset (v : var)                      (* v.Reset();                       *)
| W_lock (v w : var).                    (* SharedPtr<T> v = w.Lock();       *)

(** A declaration needs a variable that holds no handle yet. *)
Definition declare_sp (v : var) (ctor : M Handle) : M unit :=
  λ s, match sp s !! v with
       | Some _ => UB DeadObject
       | None => (do h <- ctor; put_sp v h) s
       end.
Definition declare_wp (v : var) (ctor : M Handle) : M unit :=
  λ s, match wp s !! v with
       | Some _ => UB DeadObject
       | None => (do h <- ctor; put_wp v h) s
       end.

(** The converting constructor needs a live source besides a free
    variable. *)
Definition declare_wp_from (v o : var) (ctor : M unit) : M unit :=
  λ s, match wp s !! v, wp s !! o with
       | None, Some _ => ctor s
       | _, _ => UB DeadObject
       end.

Definition exec (op : Op) : M unit :=
  match op with
  | S_default v => declare_sp v SharedPtr.ctor_default
  | S_raw v p => declare_sp v (SharedPtr.ctor_raw p)
  | S_copy v o => declare_sp v (do h <- get_sp o; SharedPtr.ctor_copy h)
  | S_move v o => declare_sp v (SharedPtr.ctor_move o)
  | S_from_weak v w => declare_sp v (do h <- get_wp w; SharedPtr_ctor_from_weak h)
  | S_dtor v => SharedPtr.dtor v
  | S_assign v o => SharedPtr.assign v o
  | S_move_assign v o => SharedPtr.move_assign v o
  | S_reset v p => SharedPtr.Reset v p
  | S_swap v o => SharedPtr.Swap v o
  | W_default v => declare_wp v WeakPtr.ctor_default
  | W_copy v o => declare_wp v (do h <- get_wp o; WeakPtr.ctor_copy h)
  | W_move v o => declare_wp v (WeakPtr.ctor_move o)
  | W_from_shared v o => declare_wp v (do h <- get_sp o; WeakPtr.ctor_from_shared h)
  | W_raw v junk p => declare_wp v (WeakPtr.ctor_raw junk p)
  | W_conv_move v o junk => declare_wp_from v o (WeakPtr.ctor_conv_move junk v o)
  | W_dtor v => WeakPtr.dtor v
  | W_assign v o => WeakPtr.assign v o
  | W_move_assign v o => WeakPtr.move_assign v o
  | W_swap v o => WeakPtr.Swap v o
  | W_reset v => WeakPtr.Reset v
  | W_lock v w => declare_sp v (do h <- get_wp w; WeakPtr_Lock h)
  end.

Definition is_weak_op (op : Op) : bool :=
  match op with
  | W_default _ | W_copy _ _ | W_move _ _ | W_from_shared _ _ | W_raw _ _ _
  | W_conv_move _ _ _ | W_dtor _ | W_assign _ _ | W_move_assign _ _
  | W_swap _ _ | W_reset _ | W_lock _ _ => true
  | _ => false
  end.

(** The state a step leaves behind, when it has defined behaviour; a thrown
    [bad_weak_ptr] is caught by the client, which carries on. *)
Definition after {A} (o : outcome A) : option State :=
  match o with
  | Ok _ s => Some s
  | Throw _ s => Some s
  | UB _ => None
  end.

(** Handle objects occupy storage, so fewer than [2^64] of them are live at
    any time. *)
Definition fits (s : State) : bool :=
  bool_decide (Z.of_nat (size (sp s) + size (wp s)) < SIZE_MODULUS).

(** Runs of a client program that stay within defined behaviour. *)
Fixpoint run (ops : list Op) (s : State) : option State :=
  match ops with
  | [] => Some s
  | op :: rest =>
      match after (exec op s) with
      | Some s' => if fits s' then run rest s' else None
      | None => None
      end
  end.

(** ** Counting handles *)

(** The number of handles in [m] whose [counter] is [c]. *)
Definition refs (m : gmap var Handle) (c : loc) : nat :=
  size (filter (λ kv, counter kv.2 = Some c) m).

(** The number of [delete ptr_] statements that handles of block [c] have
    run. *)
Definition is_delete_ptr_of (c : loc) (e : Event) : bool :=
  match e with
  | EvDeletePtr c' _ => bool_decide (c' = c)
  | EvDeleteCounter _ => false
  end.
Definition destroyed (c : loc) (l : list Event) : nat :=
  length (filter (λ e, is_delete_ptr_of c e = true) l).

(** The strong count stored in block [c], if the block is allocated. *)
Definition strong_count (s : State) (c : loc) : option Z :=
  shared_count_ <$> heap s !! c.
Definition weak_count (s : State) (c : loc) : option Z :=
  weak_count_ <$> heap s !! c.

(** ** Well-formed states *)

(** [h] is the content of some live handle object, of either class. *)
Definition holds (s : State) (h : Handle) : Prop :=
  (∃ v, sp s !! v = Some h) ∨ (∃ v, wp s !! v = Some h).

(** What every run maintains.  The statements about the strong count
    concern the handles that manage an object ([ptr_] not null): a control
    block made for a null pointer starts with a strong count of zero
    whatever the number of its handles.  Nothing is maintained about weak
    counts, which [WeakPtr(T* ptr)] leaves indeterminate from the start. *)
Record Inv (s : State) : Prop := mkInv {
  inv_fits : fits s = true;
  inv_heap_brk : ∀ c b, heap s !! c = Some b → (c < brk s)%positive;
  inv_handle_brk : ∀ h c, holds s h → counter h = Some c → (c < brk s)%positive;
  inv_ptr : ∀ h1 h2 c, holds s h1 → holds s h2 →
      counter h1 = Some c → counter h2 = Some c → ptr_ h1 = ptr_ h2;
  inv_counts : ∀ h, holds s h → ptr_ h ≠ None →
      ∃ c, counter h = Some c ∧
           ∀ b, heap s !! c = Some b → shared_count_ b = Z.of_nat (refs (sp s) c);
  inv_alloc : ∀ v h c, sp s !! v = Some h → ptr_ h ≠ None → counter h = Some c →
      is_Some (heap s !! c);
  inv_log : ∀ c p, EvDeletePtr c p ∈ log s →
      (c < brk s)%positive ∧ refs (sp s) c = 0%nat ∧
      (∀ b, heap s !! c = Some b → shared_count_ b = 0) ∧
      destroyed c (log s) = 1%nat
}.

(** ** Vocabulary of the proofs *)

(** What one handle, or one block, contributes to [refs _ c]. *)
Definition ind (h : Handle) (c : loc) : nat :=
  if decide (counter h = Some c) then 1%nat else 0%nat.
Definition ind1 (c c' : loc) : nat := if decide (c' = c) then 1%nat else 0%nat.

(** [if (count > 0) --count;] *)
Definition guarded_decr (n : Z) : Z := if 0 <? n then size_decr n else n.

(** The events of [delete ptr_]. *)
Definition ptr_events (c : loc) (p : option loc) : list Event :=
  match p with Some a => [EvDeletePtr c a] | None => [] end.

(** Steps that release nothing come in four shapes: the handles are
    permuted (moves, swaps, empty handles come and go); a handle [h0] is
    made on a fresh control block [b0]; a [SharedPtr] is added to an
    existing block, whose strong count goes up by one; the weak count of a
    block changes, with weak handles coming or going. *)
Inductive quiet (s s' : State) : Prop :=
| Q_perm :
    heap s' = heap s → brk s' = brk s →
    (∀ c, refs (sp s') c = refs (sp s) c) →
    (∀ h, holds s' h → holds s h ∨ h = null_handle) →
    quiet s s'
| Q_fresh (strong : bool) b0 h0 :
    heap s' = <[brk s := b0]> (heap s) →
    brk s' = Pos.succ (brk s) →
    counter h0 = Some (brk s) →
    (ptr_ h0 ≠ None → shared_count_ b0 = if strong then 1 else 0) →
    (∀ c, refs (sp s') c = (refs (sp s) c + if strong then ind1 (brk s) c else 0)%nat) →
    (∀ h, holds s' h → holds s h ∨ h = h0) →
    quiet s s'
| Q_strong c b h0 :
    heap s !! c = Some b → holds s h0 → counter h0 = Some c →
    ((∃ v, sp s !! v = Some h0) ∨ shared_count_ b ≠ 0) →
    heap s' = <[c := mkCounter (size_incr (shared_count_ b)) (weak_count_ b)]> (heap s) →
    brk s' = brk s →
    (∀ c', refs (sp s') c' = (refs (sp s) c' + ind1 c c')%nat) →
    (∀ h, holds s' h → holds s h) →
    quiet s s'
| Q_weak c b b' :
    heap s !! c = Some b → shared_count_ b' = shared_count_ b →
    heap s' = <[c := b']> (heap s) →
    brk s' = brk s →
    (∀ c', refs (sp s') c' = refs (sp s) c') →
    (∀ h, holds s' h → holds s h ∨ h = null_handle) →
    quiet s s'.

(** Some [SharedPtr] of control block [c] manages the object at [p]. *)
Definition manages (s : State) (c p : loc) : Prop :=
  ∃ v, sp s !! v = Some (mkHandle (Some p) (Some c)).

(** The strong count of [c] goes from 1 to 0 between [s] and [s'] (the block
    may be freed in the same step, after the decrement). *)
Definition last_release (s s' : State) (c : loc) : Prop :=
  strong_count s c = Some 1 ∧
  (strong_count s' c = Some 0 ∨ strong_count s' c = None).

(** The objects destroyed by a step are exactly those whose strong count
    drops from 1 to 0 in that step. *)
Definition destroy_iff_last (s : State) (evs : list Event) (s' : State) : Prop :=
  ∀ c p, EvDeletePtr c p ∈ evs ↔ manages s c p ∧ last_release s s' c.

(** A block with a single strong handle either sees its last release or is
    still in that situation afterwards. *)
Definition keeps (s s' : State) : Prop :=
  ∀ c p, manages s c p → strong_count s c = Some 1 →
    last_release s s' c ∨ (manages s' c p ∧ strong_count s' c = Some 1).

(** What a release guarantees: the invariant, the events, and that blocks
    with a single strong handle are accounted for. *)
Definition released (s : State) (evs : list Event) (s1 : State) : Prop :=
  Inv s1 ∧ keeps s s1 ∧ log s1 = log s ++ evs ∧ destroy_iff_last s evs s1.

(** Assignments, [Reset(p)] and the converting constructor release first
    and then act like a declaration. *)
Definition two_phase (weak : bool) (s s' : State) : Prop :=
  ∃ s1 evs, released s evs s1 ∧ quiet s1 s' ∧ log s' = log s1 ∧
            (weak = true → ∀ c p, EvDeletePtr c p ∉ evs).

Definition nothrow {A} (m : M A) : Prop := ∀ s e t, m s ≠ Throw e t.

(** A computation that does not look at the [WeakPtr] variables runs the
    same whatever they hold. *)
Definition frame_ok {A} (m : M A) : Prop :=
  ∀ f s a t, m (set_wp f s) = Ok a t → ∃ t0, m s = Ok a t0 ∧ t = set_wp f t0.

(** What every client step guarantees. *)
Definition step_spec (op : Op) (s s' : State) : Prop :=
  Inv s' ∧ ∃ evs, log s' = log s ++ evs ∧ destroy_iff_last s evs s' ∧
    (is_weak_op op = true → ∀ c p, EvDeletePtr c p ∉ evs).

(** [e1] occurs before [e2] in a history. *)
Definition precedes (e1 e2 : Event) (l : list Event) : Prop :=
  ∃ l1 l2 l3, l = l1 ++ e1 :: l2 ++ e2 :: l3.


(** ** Vocabulary of the further properties *)

(** Every step but the two constructors that read memory nobody has
    written. *)
Definition determinate (op : Op) : bool :=
  match op with
  | W_raw _ _ _ | W_conv_move _ _ _ => false
  | _ => true
  end.

(** The determinate steps that give a share back through
    [DecreaseAndDelete]; [WeakPtr::Reset] decrements on its own. *)
Definition by_protocol (op : Op) : bool :=
  match op with
  | W_reset _ => false
  | _ => determinate op
  end.

(** The steps of the programs considered, with or without
    [WeakPtr::Reset]. *)
Definition allowed (strict : bool) (op : Op) : bool :=
  if strict then by_protocol op else determinate op.

(** The accounts of block [c]: an allocated block stores the number of live
    [WeakPtr] objects on it and at most the number of live [SharedPtr]
    objects, and ([strict]) some handle is on it; no [WeakPtr] is on a block
    that is not allocated. *)
Definition acct_at (strict : bool) (s : State) (c : loc) : Prop :=
  match heap s !! c with
  | Some b => weak_count_ b = Z.of_nat (refs (wp s) c) ∧
              0 ≤ shared_count_ b ≤ Z.of_nat (refs (sp s) c) ∧
              (strict = true → (0 < refs (sp s) c + refs (wp s) c)%nat)
  | None => refs (wp s) c = 0%nat
  end.
Definition Acct (strict : bool) (s : State) : Prop := ∀ c, acct_at strict s c.

(** The counts a block holds when a release frees it: the count the
    release gives back is at its last unit (or at zero already) and the
    other count is zero.  [weak] tells which class releases. *)
Definition freed_at (weak : bool) (b : Counter) : Prop :=
  if weak then guarded_decr (weak_count_ b) = 0 ∧ shared_count_ b = 0
  else guarded_decr (shared_count_ b) = 0 ∧ weak_count_ b = 0.

(** A computation that leaves the [SharedPtr] objects as they are. *)
Definition keeps_sp {A} (m : M A) : Prop := ∀ s a t, m s = Ok a t → sp t = sp s.

(** Object [p] is owned through control block [c]: a live [SharedPtr] of
    [c] manages it, or it has been deleted through [c]. *)
Definition owns (s : State) (c p : loc) : Prop :=
  manages s c p ∨ EvDeletePtr c p ∈ log s.

(** The [delete ptr_] statements run on object [p], through whatever
    control block. *)
Definition is_delete_of (p : loc) (e : Event) : bool :=
  match e with
  | EvDeletePtr _ p' => bool_decide (p' = p)
  | EvDeleteCounter _ => false
  end.
Definition deleted (p : loc) (l : list Event) : nat :=
  length (filter (λ e, is_delete_of p e = true) l).

(** [p] is not owned: no [SharedPtr] holds it and it has not been deleted
    (the address of an object, like that of a control block, is not used
    twice). *)
Definition unowned (s : State) (p : loc) : bool :=
  bool_decide (map_Forall (λ _ h, ptr_ h ≠ Some p) (sp s)) &&
  forallb (λ e, negb (is_delete_of p e)) (log s).

(** The precondition of [SharedPtr(T* ptr)] and [Reset(ptr)]: a non-null
    raw pointer handed to a [SharedPtr] is not owned already. *)
Definition takes_unowned (op : Op) (s : State) : bool :=
  match op with
  | S_raw _ (Some p) | S_reset _ (Some p) => unowned s p
  | _ => true
  end.

(** The programs that keep to this precondition at every step. *)
Fixpoint single_owner (ops : list Op) (s : State) : bool :=
  match ops with
  | [] => true
  | op :: rest =>
      takes_unowned op s &&
      match after (exec op s) with
      | Some s' => single_owner rest s'
      | None => true
      end
  end.

(** The block that a step allocates for the raw pointer [p]. *)
Definition fresh_for (op : Op) (s : State) (c p : loc) : Prop :=
  c = brk s ∧ ∃ v, op = S_raw v (Some p) ∨ op = S_reset v (Some p).

(** Every object is owned through one control block. *)
Definition one_block (s : State) : Prop :=
  ∀ c c' p, owns s c p → owns s c' p → c = c'.

(** ** Concrete client programs used as examples *)

(** The state reached by a client program (the initial state if the program
    leaves defined behaviour). *)
Definition state_after (ops : list Op) : State :=
  from_option id init (run ops init).

(** One object at address 7, owned by [SharedPtr] variable 0 and observed by
    [WeakPtr] variable 0. *)
Definition owner_and_observer : list Op :=
  [S_raw 0 (Some 7%positive); W_from_shared 0 0].

(** ** Counting lemmas *)

Lemma refs_empty c : refs ∅ c = 0%nat.
Proof. unfold refs. by rewrite map_filter_empty, map_size_empty. Qed.

Lemma refs_insert_None (m : gmap var Handle) v h c :
  m !! v = None → refs (<[v:=h]> m) c = (refs m c + ind h c)%nat.
Proof.
  intros Hv. unfold refs, ind. case_decide.
  - rewrite map_filter_insert_True by done.
    rewrite map_size_insert_None; [lia|].
    by rewrite map_lookup_filter_None; left.
  - rewrite map_filter_insert_not' ; [lia | done |].
    intros y Hy. congruence.
Qed.

Lemma refs_delete_Some (m : gmap var Handle) v h c :
  m !! v = Some h → refs m c = (refs (delete v m) c + ind h c)%nat.
Proof.
  intros Hv. rewrite <- (refs_insert_None (delete v m) v h c) by apply lookup_delete_eq.
  by rewrite insert_delete_id.
Qed.

Lemma refs_insert_Some (m : gmap var Handle) v h0 h c :
  m !! v = Some h0 → (refs (<[v:=h]> m) c + ind h0 c = refs m c + ind h c)%nat.
Proof.
  intros Hv. rewrite <- (insert_delete_eq m).
  rewrite refs_insert_None by apply lookup_delete_eq.
  rewrite (refs_delete_Some m v h0 c Hv). lia.
Qed.

Lemma refs_le_size (m : gmap var Handle) c : (refs m c ≤ size m)%nat.
Proof. apply map_size_filter. Qed.

Lemma refs_pos (m : gmap var Handle) v h c :
  m !! v = Some h → counter h = Some c → (0 < refs m c)%nat.
Proof.
  intros Hv Hc. rewrite (refs_delete_Some m v h c Hv). unfold ind.
  rewrite decide_True by done. lia.
Qed.

Lemma refs_zero (m : gmap var Handle) v h c :
  refs m c = 0%nat → m !! v = Some h → counter h ≠ Some c.
Proof. intros Hz Hv Hc. pose proof (refs_pos m v h c Hv Hc). lia. Qed.

Lemma refs_one (m : gmap var Handle) v1 v2 h1 h2 c :
  refs m c = 1%nat → m !! v1 = Some h1 → m !! v2 = Some h2 →
  counter h1 = Some c → counter h2 = Some c → v1 = v2.
Proof.
  intros H1 Hv1 Hv2 Hc1 Hc2. destruct (decide (v1 = v2)) as [|Hne]; [done|].
  rewrite (refs_delete_Some m v1 h1 c Hv1) in H1. unfold ind in H1.
  rewrite decide_True in H1 by done.
  assert (delete v1 m !! v2 = Some h2) as Hd by by rewrite lookup_delete_ne.
  pose proof (refs_pos _ _ _ _ Hd Hc2). lia.
Qed.

(** ** Inversion of computations that return *)

Section inversion.
Context {A B : Type}.
Implicit Types (s t : State).

Lemma bind_Ok (m : M A) (k : A → M B) s b t :
  bind m k s = Ok b t → ∃ a s1, m s = Ok a s1 ∧ k a s1 = Ok b t.
Proof. unfold bind. destruct (m s); [eauto | done | done]. Qed.

Lemma ret_Ok (a a' : A) s t : ret a s = Ok a' t → a' = a ∧ t = s.
Proof. unfold ret. by intros [= -> ->]. Qed.

Lemma read_Ok (f : State → option A) a s t :
  read f s = Ok a t → f s = Some a ∧ t = s.
Proof. unfold read. destruct (f s); [by intros [= -> ->] | done]. Qed.
End inversion.

Lemma load_Ok c b s t : load c s = Ok b t → heap s !! c = Some b ∧ t = s.
Proof. intros H. by apply (read_Ok (λ s, heap s !! c)) in H. Qed.

Lemma store_Ok c b u s t :
  store c b s = Ok u t → is_Some (heap s !! c) ∧ t = set_heap (insert c b) s.
Proof. unfold store. destruct (heap s !! c); [intros [= <-]; eauto | done]. Qed.

Lemma deref_Ok o c s t : deref o s = Ok c t → o = Some c ∧ t = s.
Proof. destruct o; [intros [-> ->]%ret_Ok; done | done]. Qed.

Lemma new_Counter_Ok b c s t :
  new_Counter b s = Ok c t →
  c = brk s ∧ t = mkState (<[brk s := b]> (heap s)) (Pos.succ (brk s)) (sp s) (wp s) (log s).
Proof. by intros [= <- <-]. Qed.

Lemma delete_counter_Ok c u s t :
  delete_counter c s = Ok u t →
  is_Some (heap s !! c) ∧ t = emit (EvDeleteCounter c) (set_heap (delete c) s).
Proof. unfold delete_counter. destruct (heap s !! c); [intros [= <-]; eauto | done]. Qed.

Lemma get_sp_Ok v h s t : get_sp v s = Ok h t → sp s !! v = Some h ∧ t = s.
Proof. unfold get_sp. destruct (sp s !! v); [by intros [= -> ->] | done]. Qed.
Lemma get_wp_Ok v h s t : get_wp v s = Ok h t → wp s !! v = Some h ∧ t = s.
Proof. unfold get_wp. destruct (wp s !! v); [by intros [= -> ->] | done]. Qed.
Lemma put_sp_Ok v h u s t : put_sp v h s = Ok u t → t = set_sp (insert v h) s.
Proof. by intros [= <-]. Qed.
Lemma put_wp_Ok v h u s t : put_wp v h s = Ok u t → t = set_wp (insert v h) s.
Proof. by intros [= <-]. Qed.

Ltac minv :=
  repeat match goal with
  | H : bind _ _ _ = Ok _ _ |- _ => apply bind_Ok in H as (? & ? & ? & H)
  | H : ret _ _ = Ok _ _ |- _ => apply ret_Ok in H as [? ?]; subst
  | H : load _ _ = Ok _ _ |- _ => apply load_Ok in H as [? ?]; subst
  | H : read _ _ = Ok _ _ |- _ => apply read_Ok in H as [? ?]; subst
  | H : store _ _ _ = Ok _ _ |- _ => apply store_Ok in H as [? ?]; subst
  | H : deref _ _ = Ok _ _ |- _ => apply deref_Ok in H as [? ?]; subst
  | H : new_Counter _ _ = Ok _ _ |- _ => apply new_Counter_Ok in H as [? ?]; subst
  | H : delete_counter _ _ = Ok _ _ |- _ => apply delete_counter_Ok in H as [? ?]; subst
  | H : get_sp _ _ = Ok _ _ |- _ => apply get_sp_Ok in H as [? ?]; subst
  | H : get_wp _ _ = Ok _ _ |- _ => apply get_wp_Ok in H as [? ?]; subst
  | H : put_sp _ _ _ = Ok _ _ |- _ => apply put_sp_Ok in H; subst
  | H : put_wp _ _ _ = Ok _ _ |- _ => apply put_wp_Ok in H; subst
  | H : throw _ _ = Ok _ _ |- _ => discriminate H
  | H : undefined _ _ = Ok _ _ |- _ => discriminate H
  | H : UB _ = Ok _ _ |- _ => discriminate H
  | H : Ok _ _ = Ok _ _ |- _ => injection H as ? ?; subst
  | H : (if ?b then _ else _) _ = Ok _ _ |- _ => destruct b eqn:?
  | H : (match ?x with Some _ => _ | None => _ end) _ = Ok _ _ |- _ => destruct x eqn:?
  | H : incr_shared _ _ = Ok _ _ |- _ => unfold incr_shared in H
  | H : decr_shared _ _ = Ok _ _ |- _ => unfold decr_shared in H
  | H : incr_weak _ _ = Ok _ _ |- _ => unfold incr_weak in H
  | H : decr_weak _ _ = Ok _ _ |- _ => unfold decr_weak in H
  | H : incr_shared_if _ _ = Ok _ _ |- _ => unfold incr_shared_if in H
  | H : incr_weak_if _ _ = Ok _ _ |- _ => unfold incr_weak_if in H
  | H : delete_ptr _ _ _ = Ok _ _ |- _ => unfold delete_ptr in H
  end.

(** ** Arithmetic and membership *)

Lemma fits_bound s : fits s = true → Z.of_nat (size (sp s) + size (wp s)) < SIZE_MODULUS.
Proof. unfold fits. intros H. by apply bool_decide_eq_true in H. Qed.

Lemma refs_bound s c :
  fits s = true → 0 ≤ Z.of_nat (refs (sp s) c) < SIZE_MODULUS.
Proof.
  intros H%fits_bound. pose proof (refs_le_size (sp s) c). lia.
Qed.

Lemma size_incr_small n : 0 ≤ n → n + 1 < SIZE_MODULUS → size_incr n = n + 1.
Proof. intros. unfold size_incr. apply Z.mod_small. lia. Qed.

Lemma size_decr_small n : 0 < n → n < SIZE_MODULUS → size_decr n = n - 1.
Proof. intros. unfold size_decr. apply Z.mod_small. lia. Qed.

Lemma refs_none (m : gmap var Handle) c :
  (∀ v h, m !! v = Some h → counter h ≠ Some c) → refs m c = 0%nat.
Proof.
  intros H. unfold refs. apply map_size_empty_iff, map_empty.
  intros v. apply map_lookup_filter_None. right. intros h Hv. simpl. by apply (H v).
Qed.

Lemma holds_sp s v h : sp s !! v = Some h → holds s h.
Proof. left; eauto. Qed.

Lemma holds_wp s v h : wp s !! v = Some h → holds s h.
Proof. right; eauto. Qed.

Lemma refs_fresh s c : Inv s → ¬ (c < brk s)%positive → refs (sp s) c = 0%nat.
Proof.
  intros HI Hc. apply refs_none. intros v h Hv Hh.
  apply Hc. eapply inv_handle_brk; eauto using holds_sp.
Qed.

Lemma destroyed_app c l1 l2 : destroyed c (l1 ++ l2) = (destroyed c l1 + destroyed c l2)%nat.
Proof. unfold destroyed. by rewrite filter_app, length_app. Qed.

Lemma destroyed_pos c l : (0 < destroyed c l)%nat → ∃ p, EvDeletePtr c p ∈ l.
Proof.
  unfold destroyed. induction l as [|e l IH]; simpl; [lia|].
  rewrite filter_cons. case_decide as He.
  - destruct e as [|c' p]; simpl in He; [done|].
    apply bool_decide_eq_true in He as ->. intros _. exists p. left.
  - intros [p Hp]%IH. exists p. by right.
Qed.

(** The block of a handle that manages an object, when it is allocated. *)
Lemma Inv_block s h c b :
  Inv s → holds s h → counter h = Some c → ptr_ h ≠ None → heap s !! c = Some b →
  shared_count_ b = Z.of_nat (refs (sp s) c).
Proof.
  intros HI Hh Hc Hp Hb. destruct (inv_counts s HI h Hh Hp) as (c' & Hc' & Hcnt).
  simplify_eq. by apply Hcnt.
Qed.

(** A block with a strong handle that manages an object is allocated. *)
Lemma alloc_of_refs s h c :
  Inv s → holds s h → counter h = Some c → ptr_ h ≠ None →
  (0 < refs (sp s) c)%nat → is_Some (heap s !! c).
Proof.
  intros HI Hh Hc Hp Hpos.
  destruct (heap s !! c) as [b|] eqn:Hb; [eauto|]. exfalso.
  assert (refs (sp s) c = 0%nat); [|lia].
  apply refs_none. intros v0 h1 Hv0 Hc1.
  assert (ptr_ h1 ≠ None) as Hp1.
  { rewrite (inv_ptr s HI h1 h c); eauto using holds_sp. }
  destruct (inv_alloc s HI v0 h1 c Hv0 Hp1 Hc1) as [b Hb']. congruence.
Qed.

(** ** Quiet steps preserve the invariant *)

Lemma quiet_Inv s s' :
  Inv s → quiet s s' → log s' = log s → fits s' = true → Inv s'.
Proof.
  intros HI Hq Hlog Hfit. destruct Hq as [Hheap Hbrk Hrefs Hholds
    | strong b0 h0 Hheap Hbrk Hc0 Hb0 Hrefs Hholds
    | c b h0 Hb Hh0 Hc0 Hguard Hheap Hbrk Hrefs Hholds
    | c b b' Hb Hsame Hheap Hbrk Hrefs Hholds].
  - (* permutation of handles *)
    split; [done|..]; rewrite ?Hheap, ?Hbrk, ?Hlog.
    + apply (inv_heap_brk s HI).
    + intros h c [Hh| ->]%Hholds; [by apply (inv_handle_brk s HI)|done].
    + intros h1 h2 c [H1| ->]%Hholds [H2| ->]%Hholds; try done.
      by apply (inv_ptr s HI).
    + intros h [Hh| ->]%Hholds Hp; [|done].
      destruct (inv_counts s HI h Hh Hp) as (c & ? & Hcnt).
      exists c. split; [done|]. intros b Hb. rewrite Hrefs. by apply Hcnt.
    + intros v h c Hv Hp Hc.
      destruct (Hholds h (holds_sp s' v h Hv)) as [Hh| ->]; [|done].
      pose proof (refs_pos _ _ _ _ Hv Hc) as Hpos. rewrite Hrefs in Hpos.
      by apply (alloc_of_refs s h c).
    + intros c p Hin. destruct (inv_log s HI c p Hin) as (? & ? & ? & ?).
      by rewrite Hrefs.
  - (* a fresh control block *)
    assert (heap s !! brk s = None) as Hnone.
    { destruct (heap s !! brk s) eqn:E; [|done].
      apply (inv_heap_brk s HI) in E. lia. }
    assert (∀ c, (c < brk s)%positive → refs (sp s') c = refs (sp s) c) as Hold.
    { intros c Hc. rewrite Hrefs. unfold ind1. rewrite decide_False by lia.
      destruct strong; lia. }
    split; [done|..]; rewrite ?Hheap, ?Hbrk, ?Hlog.
    + intros c b [[<- <-]|[? Hc]]%lookup_insert_Some; [lia|].
      apply (inv_heap_brk s HI) in Hc. lia.
    + intros h c [Hh| ->]%Hholds Hc.
      * pose proof (inv_handle_brk s HI h c Hh Hc). lia.
      * simplify_eq. lia.
    + intros h1 h2 c [H1| ->]%Hholds [H2| ->]%Hholds Hc1 Hc2; simplify_eq.
      * by apply (inv_ptr s HI h1 h2 c).
      * pose proof (inv_handle_brk s HI _ _ H1 Hc1). lia.
      * pose proof (inv_handle_brk s HI _ _ H2 Hc2). lia.
      * done.
    + intros h [Hh| ->]%Hholds Hp.
      * destruct (inv_counts s HI h Hh Hp) as (c & Hc & Hcnt).
        pose proof (inv_handle_brk s HI _ _ Hh Hc).
        exists c. split; [done|]. intros b. rewrite lookup_insert_ne by lia.
        rewrite Hold by done. apply Hcnt.
      * exists (brk s). split; [done|]. intros b. rewrite lookup_insert_eq.
        intros [= <-]. rewrite Hb0, Hrefs by done. unfold ind1.
        rewrite decide_True by done. rewrite (refs_fresh s) by (done || lia).
        by destruct strong.
    + intros v h c Hv Hp Hc. destruct (decide (c = brk s)) as [->|Hne].
      * rewrite lookup_insert_eq. eauto.
      * rewrite lookup_insert_ne by done.
        destruct (Hholds h (holds_sp s' v h Hv)) as [Hh| ->]; [|congruence].
        pose proof (inv_handle_brk s HI _ _ Hh Hc) as Hlt.
        pose proof (refs_pos _ _ _ _ Hv Hc) as Hpos. rewrite Hold in Hpos by done.
        by apply (alloc_of_refs s h c).
    + intros c q Hin. destruct (inv_log s HI c q Hin) as (? & ? & Hz & ?).
      rewrite Hold by done.
      repeat split; try done; try lia.
      intros b. rewrite lookup_insert_ne by lia. apply Hz.
  - (* one more strong handle on an existing block *)
    split; [done|..]; rewrite ?Hheap, ?Hbrk, ?Hlog.
    + intros c' b' [[<- <-]|[? Hc]]%lookup_insert_Some.
      * by apply (inv_heap_brk s HI c b).
      * by apply (inv_heap_brk s HI c' b').
    + intros h c' Hh%Hholds. by apply (inv_handle_brk s HI).
    + intros h1 h2 c' H1%Hholds H2%Hholds. by apply (inv_ptr s HI).
    + intros h Hh%Hholds Hp.
      destruct (inv_counts s HI h Hh Hp) as (c' & Hc' & Hcnt).
      exists c'. split; [done|]. intros b'.
      pose proof (Hrefs c') as R. unfold ind1 in R.
      destruct (decide (c' = c)) as [->|Hne].
      * rewrite lookup_insert_eq. intros [= <-]. simpl.
        pose proof (refs_bound s' c Hfit) as B1.
        pose proof (Hcnt b Hb) as E.
        rewrite size_incr_small by lia. lia.
      * rewrite lookup_insert_ne by done. intros Hb'.
        rewrite (Hcnt b' Hb'). lia.
    + intros v h c' Hv Hp Hc'.
      destruct (decide (c' = c)) as [->|Hne]; [rewrite lookup_insert_eq; eauto|].
      rewrite lookup_insert_ne by done.
      pose proof (Hholds h (holds_sp s' v h Hv)) as Hh.
      pose proof (refs_pos _ _ _ _ Hv Hc') as Hpos.
      pose proof (Hrefs c') as R. unfold ind1 in R. rewrite decide_False in R by done.
      apply (alloc_of_refs s h c'); try done. lia.
    + intros c' q Hin. destruct (inv_log s HI c' q Hin) as (? & Hr & Hz & ?).
      assert (c' ≠ c) as Hne.
      { intros ->. destruct Hguard as [[v Hv]|Hnz].
        - by apply (refs_zero _ _ _ _ Hr Hv).
        - by apply Hnz, Hz. }
      pose proof (Hrefs c') as R. unfold ind1 in R. rewrite decide_False in R by done.
      repeat split; try done; try lia.
      intros b'. rewrite lookup_insert_ne by done. apply Hz.
  - (* the weak count of a block changes *)
    split; [done|..]; rewrite ?Hheap, ?Hbrk, ?Hlog.
    + intros c' b1 [[<- <-]|[? Hc]]%lookup_insert_Some.
      * by apply (inv_heap_brk s HI c b).
      * by apply (inv_heap_brk s HI c' b1).
    + intros h c' [Hh| ->]%Hholds; [by apply (inv_handle_brk s HI)|done].
    + intros h1 h2 c' [H1| ->]%Hholds [H2| ->]%Hholds; try done.
      by apply (inv_ptr s HI).
    + intros h [Hh| ->]%Hholds Hp; [|done].
      destruct (inv_counts s HI h Hh Hp) as (c' & Hc' & Hcnt).
      exists c'. split; [done|]. intros b1. rewrite Hrefs.
      destruct (decide (c' = c)) as [->|Hne].
      * rewrite lookup_insert_eq. intros [= <-]. rewrite Hsame. by apply Hcnt.
      * rewrite lookup_insert_ne by done. apply Hcnt.
    + intros v h c' Hv Hp Hc'.
      destruct (decide (c' = c)) as [->|Hne]; [rewrite lookup_insert_eq; eauto|].
      rewrite lookup_insert_ne by done.
      destruct (Hholds h (holds_sp s' v h Hv)) as [Hh| ->]; [|done].
      pose proof (refs_pos _ _ _ _ Hv Hc') as Hpos. rewrite Hrefs in Hpos.
      by apply (alloc_of_refs s h c').
    + intros c' q Hin. destruct (inv_log s HI c' q Hin) as (? & Hr & Hz & ?).
      rewrite Hrefs. repeat split; try done.
      intros b1 [[<- <-]|[? Hc]]%lookup_insert_Some; [|by apply Hz].
      rewrite Hsame. by apply Hz.
Qed.
(** ** Client steps that release nothing *)

Lemma declare_sp_Ok v ctor u s t :
  declare_sp v ctor s = Ok u t →
  sp s !! v = None ∧ ∃ h s1, ctor s = Ok h s1 ∧ t = set_sp (insert v h) s1.
Proof.
  unfold declare_sp. destruct (sp s !! v); [done|]. intros H. split; [done|].
  apply bind_Ok in H as (h & s1 & Hc & Hp). apply put_sp_Ok in Hp. eauto.
Qed.

Lemma declare_wp_Ok v ctor u s t :
  declare_wp v ctor s = Ok u t →
  wp s !! v = None ∧ ∃ h s1, ctor s = Ok h s1 ∧ t = set_wp (insert v h) s1.
Proof.
  unfold declare_wp. destruct (wp s !! v); [done|]. intros H. split; [done|].
  apply bind_Ok in H as (h & s1 & Hc & Hp). apply put_wp_Ok in Hp. eauto.
Qed.

Lemma ind_null c : ind null_handle c = 0%nat.
Proof. done. Qed.

Lemma ind_mk p c c' : ind (mkHandle p (Some c)) c' = ind1 c c'.
Proof. unfold ind, ind1. simpl. repeat case_decide; congruence. Qed.

Lemma ind_counter h c c' : counter h = Some c → ind h c' = ind1 c c'.
Proof. unfold ind, ind1. intros ->. repeat case_decide; congruence. Qed.

Lemma ind_counter_None h c : counter h = None → ind h c = 0%nat.
Proof. unfold ind. intros ->. by rewrite decide_False. Qed.

Lemma handle_eta h : mkHandle (ptr_ h) (counter h) = h.
Proof. by destruct h. Qed.

(** Where the handles of an updated state come from. *)
Ltac holds_cases H :=
  let v := fresh "v" in
  destruct H as [[v H]|[v H]]; simpl in H;
  repeat (apply lookup_insert_Some in H as [[? ?]|[? H]]; [subst|]).

Ltac holds_tac :=
  let Hh := fresh "Hh" in
  intros ? Hh; holds_cases Hh; eauto using holds_sp, holds_wp.

Lemma S_default_quiet s s' v :
  exec (S_default v) s = Ok () s' → quiet s s' ∧ log s' = log s.
Proof.
  intros H. apply declare_sp_Ok in H as (Hv & h & s1 & Hc & ->).
  unfold SharedPtr.ctor_default in Hc. minv. split; [|done].
  apply Q_perm; try done; [|holds_tac].
  intros c. simpl. rewrite refs_insert_None by done. rewrite ind_null. lia.
Qed.

Lemma W_default_quiet s s' v :
  exec (W_default v) s = Ok () s' → quiet s s' ∧ log s' = log s.
Proof.
  intros H. apply declare_wp_Ok in H as (Hv & h & s1 & Hc & ->).
  unfold WeakPtr.ctor_default in Hc. minv. split; [|done].
  apply Q_perm; try done. holds_tac.
Qed.

Lemma S_raw_quiet s s' v p :
  exec (S_raw v p) s = Ok () s' → quiet s s' ∧ log s' = log s.
Proof.
  intros H. apply declare_sp_Ok in H as (Hv & h & s1 & Hc & ->).
  unfold SharedPtr.ctor_raw in Hc. minv. split; [|done].
  apply (Q_fresh _ _ true (mkCounter (one_if_nonnull p) 0) (mkHandle p (Some (brk s))));
    try done; [| |holds_tac].
  - simpl. by destruct p.
  - intros c. simpl. rewrite refs_insert_None by done. by rewrite ind_mk.
Qed.

Lemma W_raw_quiet s s' v junk p :
  exec (W_raw v junk p) s = Ok () s' → quiet s s' ∧ log s' = log s.
Proof.
  intros H. apply declare_wp_Ok in H as (Hv & h & s1 & Hc & ->).
  unfold WeakPtr.ctor_raw in Hc. minv. split; [|done].
  apply (Q_fresh _ _ false (mkCounter 0 junk) (mkHandle p (Some (brk s))));
    try done; try holds_tac.
  all: intros c; simpl; lia.
Qed.

Lemma S_copy_quiet s s' v o :
  exec (S_copy v o) s = Ok () s' → quiet s s' ∧ log s' = log s.
Proof.
  intros H. apply declare_sp_Ok in H as (Hv & h & s1 & Hc & ->).
  apply bind_Ok in Hc as (ho & ? & [Ho ->]%get_sp_Ok & Hc).
  unfold SharedPtr.ctor_copy in Hc. destruct ho as [p oc]. simpl in Hc.
  apply bind_Ok in Hc as (c & ? & [-> ->]%deref_Ok & Hc).
  unfold incr_shared in Hc. minv. split; [|done].
  match goal with H : heap s !! c = Some ?x |- _ => rename x into b; rename H into Hb end.
  apply (Q_strong _ _ c b (mkHandle p (Some c))); eauto using holds_sp; [|holds_tac].
  intros c'. simpl. rewrite refs_insert_None by done. by rewrite ind_mk.
Qed.

Lemma move_refs_fresh (m : gmap var Handle) v o ho c :
  m !! v = None → m !! o = Some ho →
  refs (<[v:=ho]> (<[o:=null_handle]> m)) c = refs m c.
Proof.
  intros Hv Ho. assert (o ≠ v) by congruence.
  rewrite refs_insert_None by by rewrite lookup_insert_ne.
  pose proof (refs_insert_Some m o ho null_handle c Ho) as R.
  rewrite ind_null in R. lia.
Qed.

Lemma S_move_quiet s s' v o :
  exec (S_move v o) s = Ok () s' → quiet s s' ∧ log s' = log s.
Proof.
  intros H. apply declare_sp_Ok in H as (Hv & h & s1 & Hc & ->).
  unfold SharedPtr.ctor_move in Hc. minv. split; [|done].
  rewrite handle_eta. apply Q_perm; try done; [|holds_tac].
  intros c. simpl. by apply move_refs_fresh.
Qed.

Lemma W_move_quiet s s' v o :
  exec (W_move v o) s = Ok () s' → quiet s s' ∧ log s' = log s.
Proof.
  intros H. apply declare_wp_Ok in H as (Hv & h & s1 & Hc & ->).
  unfold WeakPtr.ctor_move in Hc. minv. split; [|done].
  rewrite handle_eta. apply Q_perm; try done. holds_tac.
Qed.

Lemma swap_refs (m : gmap var Handle) v o h ho c :
  m !! v = Some h → m !! o = Some ho →
  refs (<[o:=h]> (<[v:=ho]> m)) c = refs m c.
Proof.
  intros Hv Ho.
  assert (<[v:=ho]> m !! o = Some ho) as Ho'.
  { destruct (decide (v = o)) as [->|]; [by rewrite lookup_insert_eq|by rewrite lookup_insert_ne]. }
  pose proof (refs_insert_Some _ o ho h c Ho').
  pose proof (refs_insert_Some m v h ho c Hv). lia.
Qed.

Lemma S_swap_quiet s s' v o :
  exec (S_swap v o) s = Ok () s' → quiet s s' ∧ log s' = log s.
Proof.
  intros H. simpl in H. unfold SharedPtr.Swap in H. minv. split; [|done].
  rewrite !handle_eta. apply Q_perm; try done; [|holds_tac].
  intros c. simpl. by apply swap_refs.
Qed.

Lemma W_swap_quiet s s' v o :
  exec (W_swap v o) s = Ok () s' → quiet s s' ∧ log s' = log s.
Proof.
  intros H. simpl in H. unfold WeakPtr.Swap in H. minv. split; [|done].
  rewrite !handle_eta. apply Q_perm; try done. holds_tac.
Qed.

(** A weak handle made from a handle [ho] of either class. *)
Lemma weak_share_quiet s v ho s1 h :
  holds s ho →
  (do _ <- incr_weak_if (counter ho); ret (mkHandle (ptr_ ho) (counter ho))) s = Ok h s1 →
  quiet s (set_wp (insert v h) s1) ∧ log (set_wp (insert v h) s1) = log s.
Proof.
  intros Hho Hc. destruct ho as [p [c|]]; simpl in Hc; minv; (split; [|done]).
  - match goal with H : heap s !! c = Some ?x |- _ => rename x into b; rename H into Hb end.
    apply (Q_weak _ _ c b (mkCounter (shared_count_ b) (size_incr (weak_count_ b))));
      try done. holds_tac.
  - apply Q_perm; try done. holds_tac.
Qed.

Lemma W_copy_quiet s s' v o :
  exec (W_copy v o) s = Ok () s' → quiet s s' ∧ log s' = log s.
Proof.
  intros H. apply declare_wp_Ok in H as (Hv & h & s1 & Hc & ->).
  apply bind_Ok in Hc as (ho & ? & [Ho ->]%get_wp_Ok & Hc).
  eapply weak_share_quiet; eauto using holds_wp.
Qed.

Lemma W_from_shared_quiet s s' v o :
  exec (W_from_shared v o) s = Ok () s' → quiet s s' ∧ log s' = log s.
Proof.
  intros H. apply declare_wp_Ok in H as (Hv & h & s1 & Hc & ->).
  apply bind_Ok in Hc as (ho & ? & [Ho ->]%get_sp_Ok & Hc).
  eapply weak_share_quiet; eauto using holds_sp.
Qed.

Lemma Expired_false s h :
  WeakPtr.Expired h s = Some false →
  ∃ c b, counter h = Some c ∧ heap s !! c = Some b ∧ shared_count_ b ≠ 0.
Proof.
  unfold WeakPtr.Expired. destruct (counter h) as [c|]; [|done].
  destruct (heap s !! c) as [b|] eqn:Hb; [|done]. simpl. intros [= H%Z.eqb_neq].
  by exists c, b.
Qed.

(** A strong handle promoted from the weak handle [ho]. *)
Lemma promote_quiet s v o ho s1 h :
  wp s !! o = Some ho → sp s !! v = None →
  SharedPtr_ctor_from_weak ho s = Ok h s1 →
  quiet s (set_sp (insert v h) s1) ∧ log (set_sp (insert v h) s1) = log s.
Proof.
  intros Ho Hv Hc. unfold SharedPtr_ctor_from_weak in Hc.
  apply bind_Ok in Hc as (e & ? & [He ->]%read_Ok & Hc). destruct e; [done|].
  apply Expired_false in He as (c & b & Hcc & Hb & Hnz).
  destruct ho as [p oc]. simpl in *. subst oc. minv. simplify_eq.
  split; [|done].
  apply (Q_strong _ _ c b (mkHandle p (Some c))); eauto using holds_wp; [|holds_tac].
  intros c'. simpl. rewrite refs_insert_None by done. by rewrite ind_mk.
Qed.

Lemma S_from_weak_quiet s s' v o :
  exec (S_from_weak v o) s = Ok () s' → quiet s s' ∧ log s' = log s.
Proof.
  intros H. apply declare_sp_Ok in H as (Hv & h & s1 & Hc & ->).
  apply bind_Ok in Hc as (ho & ? & [Ho ->]%get_wp_Ok & Hc).
  by apply (promote_quiet s v o ho).
Qed.

Lemma W_lock_quiet s s' v o :
  exec (W_lock v o) s = Ok () s' → quiet s s' ∧ log s' = log s.
Proof.
  intros H. apply declare_sp_Ok in H as (Hv & h & s1 & Hc & ->).
  apply bind_Ok in Hc as (ho & ? & [Ho ->]%get_wp_Ok & Hc).
  unfold WeakPtr_Lock in Hc.
  apply bind_Ok in Hc as (e & ? & [He ->]%read_Ok & Hc). destruct e.
  - unfold SharedPtr.ctor_raw in Hc. minv. split; [|done].
    apply (Q_fresh _ _ true (mkCounter 0 0) (mkHandle None (Some (brk s))));
      try done; [|holds_tac].
    intros c. simpl. rewrite refs_insert_None by done. by rewrite ind_mk.
  - by apply (promote_quiet s v o ho).
Qed.

Lemma W_reset_quiet s s' v :
  exec (W_reset v) s = Ok () s' → quiet s s' ∧ log s' = log s.
Proof.
  intros H. simpl in H. unfold WeakPtr.Reset in H.
  apply bind_Ok in H as (h & ? & [Hv ->]%get_wp_Ok & H).
  destruct (counter h) as [c|] eqn:Hc.
  - unfold decr_weak in H. minv. split; [|done].
    match goal with H : heap s !! c = Some ?x |- _ => rename x into b; rename H into Hb end.
    apply (Q_weak _ _ c b (mkCounter (shared_count_ b) (size_decr (weak_count_ b))));
      try done. holds_tac.
  - apply ret_Ok in H as [_ ->]. split; [|done]. apply Q_perm; try done. eauto.
Qed.
(** ** Steps that touch one control block *)

Lemma destroyed_zero c l : (∀ p, EvDeletePtr c p ∉ l) → destroyed c l = 0%nat.
Proof.
  intros H. destruct (destroyed c l) eqn:E; [done|].
  destruct (destroyed_pos c l) as [p Hp]; [lia|]. by destruct (H p).
Qed.

Lemma destroyed_one c p : destroyed c [EvDeletePtr c p] = 1%nat.
Proof. unfold destroyed. rewrite filter_cons. simpl. by rewrite bool_decide_eq_true_2. Qed.

(** A step that touches one control block, [c], and removes or empties
    handles. *)
Lemma Inv_touch s s' c evs :
  Inv s → fits s' = true → brk s' = brk s → log s' = log s ++ evs →
  (∀ c', c' ≠ c → heap s' !! c' = heap s !! c') →
  (∀ b', heap s' !! c = Some b' → (c < brk s)%positive) →
  (∀ c', c' ≠ c → refs (sp s') c' = refs (sp s) c') →
  (∀ h, holds s' h → holds s h ∨ h = null_handle) →
  (∀ v h, sp s' !! v = Some h → (∃ v', sp s !! v' = Some h) ∨ h = null_handle) →
  (∀ h b', holds s' h → counter h = Some c → ptr_ h ≠ None →
     heap s' !! c = Some b' → shared_count_ b' = Z.of_nat (refs (sp s') c)) →
  (∀ v h, sp s' !! v = Some h → counter h = Some c → ptr_ h ≠ None →
     is_Some (heap s' !! c)) →
  (∀ c' p, EvDeletePtr c' p ∈ evs → c' = c) →
  (∀ p, EvDeletePtr c p ∈ log s ++ evs →
     (c < brk s)%positive ∧ refs (sp s') c = 0%nat ∧
     (∀ b', heap s' !! c = Some b' → shared_count_ b' = 0) ∧
     destroyed c (log s ++ evs) = 1%nat) →
  Inv s'.
Proof.
  intros HI Hfit Hbrk Hlog Hheap Hc Hrefs Hholds Hsp Hcnt Halloc Hevs Hdel.
  split; [done|..]; rewrite ?Hbrk, ?Hlog.
  - intros c' b' Hb'. destruct (decide (c' = c)) as [->|Hne]; [by apply (Hc b')|].
    rewrite Hheap in Hb' by done. by apply (inv_heap_brk s HI c' b').
  - intros h c' [Hh| ->]%Hholds; [by apply (inv_handle_brk s HI)|done].
  - intros h1 h2 c' [H1| ->]%Hholds [H2| ->]%Hholds; try done.
    by apply (inv_ptr s HI).
  - intros h Hh' Hp. destruct (Hholds h Hh') as [Hh| ->]; [|done].
    destruct (inv_counts s HI h Hh Hp) as (c' & Hc' & Hb).
    exists c'. split; [done|]. intros b'.
    destruct (decide (c' = c)) as [->|Hne]; [by apply (Hcnt h)|].
    rewrite Hheap, Hrefs by done. apply Hb.
  - intros v h c' Hv Hp Hc'. destruct (decide (c' = c)) as [->|Hne]; [by apply (Halloc v h)|].
    rewrite Hheap by done. destruct (Hsp v h Hv) as [[v' Hv']| ->]; [|done].
    by apply (inv_alloc s HI v' h c').
  - intros c' p Hin. destruct (decide (c' = c)) as [->|Hne]; [by apply (Hdel p)|].
    apply elem_of_app in Hin as [Hin|Hin]; [|by apply Hevs in Hin].
    destruct (inv_log s HI c' p Hin) as (? & Hr & Hz & Hd).
    repeat split; try done.
    + by rewrite Hrefs.
    + intros b'. rewrite Hheap by done. apply Hz.
    + rewrite destroyed_app, Hd, destroyed_zero; [done|].
      intros q Hq%Hevs. done.
Qed.
(** ** The two release protocols, case by case *)

Lemma delete_ptr_Ok c p u s t :
  delete_ptr c p s = Ok u t →
  heap t = heap s ∧ brk t = brk s ∧ sp t = sp s ∧ wp t = wp s ∧
  log t = log s ++ ptr_events c p.
Proof.
  destruct p as [a|]; simpl.
  - intros [= <-]. subst t. repeat split; done.
  - intros [_ ->]%ret_Ok. rewrite app_nil_r. repeat split; done.
Qed.

Lemma SDD_null h s s1 :
  counter h = None → SharedPtr.DecreaseAndDelete h s = Ok () s1 → s1 = s.
Proof. unfold SharedPtr.DecreaseAndDelete. intros ->. by intros [_ ->]%ret_Ok. Qed.

Lemma SDD_shape h c s s1 :
  counter h = Some c → SharedPtr.DecreaseAndDelete h s = Ok () s1 →
  ∃ b, heap s !! c = Some b ∧
    sp s1 = sp s ∧ wp s1 = wp s ∧ brk s1 = brk s ∧
    let n := guarded_decr (shared_count_ b) in
    (n = 0 ∧ weak_count_ b = 0 ∧ heap s1 = delete c (heap s) ∧
       log s1 = log s ++ EvDeleteCounter c :: ptr_events c (ptr_ h)) ∨
    (n = 0 ∧ weak_count_ b ≠ 0 ∧
       heap s1 = <[c := mkCounter 0 (weak_count_ b)]> (heap s) ∧
       log s1 = log s ++ ptr_events c (ptr_ h)) ∨
    (n ≠ 0 ∧ heap s1 = <[c := mkCounter n (weak_count_ b)]> (heap s) ∧
       log s1 = log s).
Proof.
  intros Hc H. unfold SharedPtr.DecreaseAndDelete in H. rewrite Hc in H.
  apply bind_Ok in H as (b & ? & [Hb ->]%load_Ok & H). exists b. split; [done|].
  apply bind_Ok in H as ([] & s2 & Hdec & H). revert H.
  assert (sp s2 = sp s ∧ wp s2 = wp s ∧ brk s2 = brk s ∧ log s2 = log s ∧
          heap s2 = <[c := mkCounter (guarded_decr (shared_count_ b)) (weak_count_ b)]> (heap s))
    as (Hsp & Hwp & Hbrk & Hlog & Hheap).
  { unfold guarded_decr. destruct (0 <? shared_count_ b).
    - unfold decr_shared in Hdec. minv. simpl. by simplify_eq.
    - apply ret_Ok in Hdec as [_ ->]. repeat split; try done.
      destruct b. by rewrite insert_id. }
  clear Hdec. intros H. apply bind_Ok in H as (b2 & ? & [Hb2 ->]%load_Ok & H).
  rewrite Hheap, lookup_insert_eq in Hb2. simplify_eq. simpl in H.
  set (n := guarded_decr (shared_count_ b)) in *.
  rewrite <- Hsp, <- Hwp, <- Hbrk, <- Hlog.
  destruct (n =? 0) eqn:En; [apply Z.eqb_eq in En|apply Z.eqb_neq in En].
  - destruct (weak_count_ b =? 0) eqn:Ew; [apply Z.eqb_eq in Ew|apply Z.eqb_neq in Ew];
      simpl in H.
    + apply bind_Ok in H as ([] & s3 & [_ ->]%delete_counter_Ok & H).
      apply delete_ptr_Ok in H as (-> & -> & -> & -> & ->). simpl.
      repeat split; try done. left. repeat split; try done.
      * by rewrite Hheap, delete_insert_eq.
      * by rewrite <- app_assoc.
    + apply delete_ptr_Ok in H as (-> & -> & -> & -> & ->).
      repeat split; try done. right; left. repeat split; try done.
      by rewrite Hheap, En.
  - simpl in H. apply ret_Ok in H as [_ ->].
    repeat split; try done. right; right. done.
Qed.

Lemma WDD_null h s s1 :
  counter h = None → WeakPtr.DecreaseAndDelete h s = Ok () s1 → s1 = s.
Proof. unfold WeakPtr.DecreaseAndDelete. intros ->. by intros [_ ->]%ret_Ok. Qed.

Lemma WDD_shape h c s s1 :
  counter h = Some c → WeakPtr.DecreaseAndDelete h s = Ok () s1 →
  ∃ b, heap s !! c = Some b ∧
    sp s1 = sp s ∧ wp s1 = wp s ∧ brk s1 = brk s ∧
    let n := guarded_decr (weak_count_ b) in
    (n = 0 ∧ shared_count_ b = 0 ∧ heap s1 = delete c (heap s) ∧
       log s1 = log s ++ [EvDeleteCounter c]) ∨
    (¬ (n = 0 ∧ shared_count_ b = 0) ∧
       heap s1 = <[c := mkCounter (shared_count_ b) n]> (heap s) ∧
       log s1 = log s).
Proof.
  intros Hc H. unfold WeakPtr.DecreaseAndDelete in H. rewrite Hc in H.
  apply bind_Ok in H as (b & ? & [Hb ->]%load_Ok & H). exists b. split; [done|].
  apply bind_Ok in H as ([] & s2 & Hdec & H). revert H.
  assert (sp s2 = sp s ∧ wp s2 = wp s ∧ brk s2 = brk s ∧ log s2 = log s ∧
          heap s2 = <[c := mkCounter (shared_count_ b) (guarded_decr (weak_count_ b))]> (heap s))
    as (Hsp & Hwp & Hbrk & Hlog & Hheap).
  { unfold guarded_decr. destruct (0 <? weak_count_ b).
    - unfold decr_weak in Hdec. minv. simpl. by simplify_eq.
    - apply ret_Ok in Hdec as [_ ->]. repeat split; try done.
      destruct b. by rewrite insert_id. }
  clear Hdec. intros H. apply bind_Ok in H as (b2 & ? & [Hb2 ->]%load_Ok & H).
  rewrite Hheap, lookup_insert_eq in Hb2. simplify_eq. simpl in H.
  set (n := guarded_decr (weak_count_ b)) in *.
  rewrite <- Hsp, <- Hwp, <- Hbrk, <- Hlog.
  destruct (n =? 0) eqn:En; [apply Z.eqb_eq in En|apply Z.eqb_neq in En];
  (destruct (shared_count_ b =? 0) eqn:Ew; [apply Z.eqb_eq in Ew|apply Z.eqb_neq in Ew]);
    simpl in H.
  - apply delete_counter_Ok in H as [_ ->]. simpl.
    repeat split; try done. left. repeat split; try done.
    by rewrite Hheap, delete_insert_eq.
  - apply ret_Ok in H as [_ ->]. repeat split; try done. right. split; [tauto|done].
  - apply ret_Ok in H as [_ ->]. repeat split; try done. right. split; [tauto|done].
  - apply ret_Ok in H as [_ ->]. repeat split; try done. right. split; [tauto|done].
Qed.

(** ** The destructor of [SharedPtr] *)

Lemma guarded_decr_pos n : 0 < n < SIZE_MODULUS → guarded_decr n = n - 1.
Proof.
  intros H. unfold guarded_decr. destruct (0 <? n) eqn:E.
  - apply size_decr_small; lia.
  - apply Z.ltb_ge in E. lia.
Qed.

Lemma fits_delete_sp s s1 v :
  fits s = true → sp s1 = sp s → wp s1 = wp s → fits (set_sp (delete v) s1) = true.
Proof.
  intros H%fits_bound Hsp Hwp. apply bool_decide_eq_true. simpl. rewrite Hsp, Hwp.
  pose proof (map_size_delete v (sp s)) as E.
  destruct (sp s !! v); unfold id in E; simpl in E; lia.
Qed.

Lemma fits_delete_wp s s1 v :
  fits s = true → sp s1 = sp s → wp s1 = wp s → fits (set_wp (delete v) s1) = true.
Proof.
  intros H%fits_bound Hsp Hwp. apply bool_decide_eq_true. simpl. rewrite Hsp, Hwp.
  pose proof (map_size_delete v (wp s)) as E.
  destruct (wp s !! v); unfold id in E; simpl in E; lia.
Qed.

Lemma elem_ptr_events c p c' q :
  EvDeletePtr c' q ∈ ptr_events c p ↔ c' = c ∧ p = Some q.
Proof.
  destruct p as [a|]; simpl.
  - rewrite list_elem_of_singleton. split; [by intros [= -> ->]|by intros [-> [= ->]]].
  - split; [by intros ?%elem_of_nil|by intros [_ ?]].
Qed.

Lemma elem_cons_counter c' q c l :
  EvDeletePtr c' q ∈ EvDeleteCounter c :: l ↔ EvDeletePtr c' q ∈ l.
Proof. rewrite elem_of_cons. split; [by intros [[=]|?]|by right]. Qed.

Lemma destroyed_cons_counter c c' l :
  destroyed c (EvDeleteCounter c' :: l) = destroyed c l.
Proof. unfold destroyed. by rewrite filter_cons. Qed.

Lemma destroyed_ptr_events c p : p ≠ None → destroyed c (ptr_events c p) = 1%nat.
Proof. destruct p; [intros _; apply destroyed_one|done]. Qed.

Lemma same_count_not_last s s' c :
  heap s' !! c = heap s !! c → last_release s s' c → False.
Proof.
  unfold last_release, strong_count. intros ->. intros [-> [?|?]]; done.
Qed.

Lemma destroy_iff_last_nil s s' :
  (∀ c p, manages s c p → last_release s s' c → False) → destroy_iff_last s [] s'.
Proof.
  intros H c p. split; [by intros ?%elem_of_nil|]. intros [? ?]. exfalso. eauto.
Qed.

Lemma destroy_iff_last_counter s s' c0 :
  (∀ c p, manages s c p → last_release s s' c → False) →
  destroy_iff_last s [EvDeleteCounter c0] s'.
Proof.
  intros H c p. split.
  - by intros [=]%list_elem_of_singleton.
  - intros [? ?]. exfalso. eauto.
Qed.

(** A quiet step that keeps the strong counts and the managing handles. *)
Lemma released_perm_gen s s' :
  Inv s → quiet s s' → log s' = log s → fits s' = true →
  (∀ c p, manages s c p → manages s' c p) →
  (∀ c, strong_count s' c = strong_count s c) →
  released s [] s'.
Proof.
  intros HI Hq Hlog Hfit Hm Hcount. split; [by apply (quiet_Inv s)|].
  split; [|split].
  - intros c p Hmc H1. right. rewrite Hcount. split; [by apply Hm|done].
  - by rewrite app_nil_r.
  - apply destroy_iff_last_nil. intros c p _ [H1 H0]. rewrite Hcount, H1 in H0.
    by destruct H0.
Qed.

Lemma S_dtor_released s s' v :
  Inv s → exec (S_dtor v) s = Ok () s' → ∃ evs, released s evs s'.
Proof.
  intros HI H. simpl in H. unfold SharedPtr.dtor in H.
  apply bind_Ok in H as (h & ? & [Hv ->]%get_sp_Ok & H).
  apply bind_Ok in H as ([] & s1 & HD & H). injection H as <-.
  assert (∀ c, (refs (sp s) c = refs (delete v (sp s)) c + ind h c)%nat) as F1
    by (intros; by apply refs_delete_Some).
  assert (∀ h', holds (set_sp (delete v) s1) h' → sp s1 = sp s → wp s1 = wp s →
                holds s h' ∨ h' = null_handle) as F2.
  { intros h' [[v' Hh]|[v' Hh]] E1 E2; simpl in Hh; rewrite ?E1, ?E2 in Hh.
    - apply lookup_delete_Some in Hh as [_ Hh]. eauto using holds_sp.
    - eauto using holds_wp. }
  destruct (counter h) as [c|] eqn:Hc.
  - (* the handle has a control block *)
    apply (SDD_shape h c) in HD as (b & Hb & Hsp & Hwp & Hbrk & Hcases); [|done].
    set (n := guarded_decr (shared_count_ b)) in *.
    pose proof (inv_heap_brk s HI c b Hb) as Hlt.
    pose proof (refs_pos _ _ _ _ Hv Hc) as Hpos.
    assert (refs (sp s) c = S (refs (delete v (sp s)) c)) as F1c.
    { rewrite (F1 c), (ind_counter h c) by done. unfold ind1.
      rewrite decide_True by done. lia. }
    assert (ptr_ h ≠ None → shared_count_ b = Z.of_nat (refs (sp s) c) ∧
              n = Z.of_nat (refs (delete v (sp s)) c)) as F4.
    { intros Hp. pose proof (Inv_block s h c b HI (holds_sp s v h Hv) Hc Hp Hb) as Hs.
      split; [done|]. subst n.
      pose proof (refs_bound s c (inv_fits s HI)) as Bd.
      rewrite guarded_decr_pos by lia. lia. }
    assert (∀ p, EvDeletePtr c p ∉ log s) as Hfresh.
    { intros p Hin. destruct (inv_log s HI c p Hin) as (_ & Hz & _).
      by apply (refs_zero _ _ _ _ Hz Hv). }
    assert (∃ evs, log s1 = log s ++ evs ∧
              (∀ c' p, EvDeletePtr c' p ∈ evs ↔ c' = c ∧ ptr_ h = Some p ∧ n = 0) ∧
              (ptr_ h ≠ None → n = 0 → destroyed c evs = 1%nat) ∧
              (∀ c', c' ≠ c → heap s1 !! c' = heap s !! c') ∧
              (heap s1 !! c = None ∧ n = 0 ∧ weak_count_ b = 0 ∨
               heap s1 !! c = Some (mkCounter n (weak_count_ b)) ∧
                 ¬ (n = 0 ∧ weak_count_ b = 0)))
      as (evs & Hlog & Hevs & Hone & Hother & Hblock).
    { destruct Hcases as [(Hn & Hw & -> & ->)|[(Hn & Hw & -> & ->)|(Hn & -> & ->)]].
      - eexists; split; [done|]. split; [|split; [|split]].
        + intros c' p. rewrite elem_cons_counter, elem_ptr_events. tauto.
        + intros Hp _. rewrite destroyed_cons_counter. by apply destroyed_ptr_events.
        + intros c' ?. by rewrite lookup_delete_ne.
        + left. by rewrite lookup_delete_eq.
      - eexists; split; [done|]. split; [|split; [|split]].
        + intros c' p. rewrite elem_ptr_events. tauto.
        + intros Hp _. by apply destroyed_ptr_events.
        + intros c' ?. by rewrite lookup_insert_ne.
        + right. rewrite lookup_insert_eq, Hn. split; [done|tauto].
      - exists []. rewrite app_nil_r. split; [done|]. split; [|split; [|split]].
        + intros c' p. split; [by intros ?%elem_of_nil|tauto].
        + done.
        + intros c' ?. by rewrite lookup_insert_ne.
        + right. rewrite lookup_insert_eq. split; [done|tauto]. }
    clear Hcases. exists evs. split; [|split; [|split]].
    + apply (Inv_touch s _ c evs); simpl; try done.
      * eapply fits_delete_sp; eauto using inv_fits.
      * intros c' Hne. rewrite Hsp.
        pose proof (F1 c') as E. rewrite (ind_counter h c) in E by done.
        unfold ind1 in E. rewrite decide_False in E by done. lia.
      * intros h' Hh'. by apply F2.
      * intros v' h'. rewrite Hsp. intros [_ Hv']%lookup_delete_Some. eauto.
      * intros h' b' Hh' Hc' Hp'. rewrite Hsp.
        destruct (F2 h' Hh' Hsp Hwp) as [Hh| ->]; [|done].
        assert (ptr_ h ≠ None) as Hp.
        { rewrite (inv_ptr s HI h h' c); eauto using holds_sp. }
        destruct (F4 Hp) as (Es & En).
        destruct Hblock as [(-> & _)|[-> _]]; [done|]. by intros [= <-].
      * intros v' h' Hv' Hc' Hp'. rewrite Hsp in Hv'.
        pose proof (refs_pos _ _ _ _ Hv' Hc') as Hpos'.
        apply lookup_delete_Some in Hv' as [_ Hv'].
        assert (ptr_ h ≠ None) as Hp.
        { rewrite (inv_ptr s HI h h' c); eauto using holds_sp. }
        destruct (F4 Hp) as (Es & En).
        destruct Hblock as [(_ & Hn & _)|[-> _]]; [lia|eauto].
      * intros c' p. rewrite Hevs. tauto.
      * intros p [Hin|Hin]%elem_of_app; [by destruct (Hfresh p)|].
        apply Hevs in Hin as (_ & Hp & Hn).
        destruct F4 as (Es & En); [congruence|].
        rewrite Hsp. split; [done|]. split; [lia|]. split.
        -- destruct Hblock as [[-> _]|[-> _]]; [done|]. by intros ? [= <-].
        -- rewrite destroyed_app, (destroyed_zero c (log s)) by done.
           rewrite Hone; [done|congruence|done].
    + intros c' p [v0 Hv0] H1. unfold last_release, strong_count in *. simpl.
      destruct (decide (c' = c)) as [->|Hne].
      * left. split; [done|]. rewrite Hb in H1. simpl in H1. injection H1 as H1.
        assert (n = 0) as Hn by (subst n; by rewrite H1).
        destruct Hblock as [[-> _]|[-> _]]; simpl; [by right|left; by rewrite Hn].
      * right. rewrite Hother by done. split; [|done]. exists v0. simpl.
        rewrite Hsp, lookup_delete_ne; [done|].
        intros <-. rewrite Hv in Hv0. injection Hv0 as ->. simpl in Hc. congruence.
    + done.
    + intros c' p. rewrite Hevs. split.
      * intros (-> & Hp & Hn).
        destruct F4 as (Es & En); [congruence|].
        split; [exists v; by destruct h; simplify_eq/=|].
        unfold last_release, strong_count; simpl. rewrite Hb. simpl.
        split; [f_equal; lia|].
        destruct Hblock as [[-> _]|[-> _]]; simpl; [by right|left; by rewrite Hn].
      * intros [[v0 Hv0] [H1 H0]]. unfold strong_count in *. simpl in H0.
        destruct (decide (c' = c)) as [->|Hne].
        -- rewrite Hb in H1. simpl in H1. injection H1 as H1.
           assert (ptr_ h = Some p) as Hp.
           { apply (inv_ptr s HI h (mkHandle (Some p) (Some c)) c); eauto using holds_sp. }
           split; [done|]. split; [done|]. subst n. rewrite H1. done.
        -- rewrite Hother in H0 by done. rewrite H1 in H0. by destruct H0.
  - (* no control block: nothing is released *)
    apply SDD_null in HD as ->; [|done]. exists [].
    apply released_perm_gen; try done.
    + apply Q_perm; try done.
      * intros c. simpl. rewrite (F1 c), ind_counter_None by done. lia.
      * intros h' Hh'. by apply F2.
    + eapply fits_delete_sp; eauto using inv_fits.
    + intros c p [v0 Hv0]. exists v0. simpl.
      rewrite lookup_delete_ne; [done|].
      intros <-. rewrite Hv in Hv0. injection Hv0 as ->. simpl in Hc. congruence.
Qed.
(** ** The release of a weak handle *)

(** A quiet step that leaves the strong handles and counts alone. *)
Lemma released_quiet s s' :
  Inv s → quiet s s' → log s' = log s → fits s' = true →
  sp s' = sp s → (∀ c, strong_count s' c = strong_count s c) →
  released s [] s'.
Proof.
  intros HI Hq Hlog Hfit Hsp Hcount.
  apply released_perm_gen; try done.
  intros c p [v Hv]. exists v. by rewrite Hsp.
Qed.

Lemma WDD_released s s1 s' h :
  Inv s → WeakPtr.DecreaseAndDelete h s = Ok () s1 →
  heap s' = heap s1 → brk s' = brk s1 → log s' = log s1 → sp s' = sp s →
  (∀ h', holds s' h' → holds s h' ∨ h' = null_handle) → fits s' = true →
  ∃ evs, released s evs s' ∧ ∀ c p, EvDeletePtr c p ∉ evs.
Proof.
  intros HI HD Hheap Hbrk Hlog Hsp Hholds Hfit.
  destruct (counter h) as [c|] eqn:Hc.
  - apply (WDD_shape h c) in HD as (b & Hb & _ & _ & Hbrk1 & Hcases); [|done].
    set (n := guarded_decr (weak_count_ b)) in *.
    pose proof (inv_heap_brk s HI c b Hb) as Hlt.
    destruct Hcases as [(Hn & Hz & Hheap1 & Hlog1)|(Hn & Hheap1 & Hlog1)].
    + (* the block is freed *)
      rewrite Hheap1 in Hheap. rewrite Hlog1 in Hlog. rewrite Hbrk1 in Hbrk.
      assert (∀ v' h', sp s !! v' = Some h' → counter h' = Some c → ptr_ h' ≠ None → False)
        as Hnone.
      { intros v' h' Hv' Hc' Hp'.
        pose proof (Inv_block s h' c b HI (holds_sp s v' h' Hv') Hc' Hp' Hb) as Hs.
        pose proof (refs_pos _ _ _ _ Hv' Hc'). lia. }
      assert (∀ c' p, manages s c' p → last_release s s' c' → False) as Hlast.
      { intros c' p [v0 Hv0] HL. destruct (decide (c' = c)) as [->|Hne].
        - by apply (Hnone v0 _ Hv0).
        - eapply same_count_not_last; [|done]. by rewrite Hheap, lookup_delete_ne. }
      exists [EvDeleteCounter c]. split; [split; [|split; [|split]]|].
      * apply (Inv_touch s _ c [EvDeleteCounter c]); try done.
        -- intros c' Hne. by rewrite Hheap, lookup_delete_ne.
        -- intros c' _. by rewrite Hsp.
        -- intros v' h'. rewrite Hsp. eauto.
        -- intros h' b' _ _ _. by rewrite Hheap, lookup_delete_eq.
        -- intros v' h' Hv' Hc' Hp'. rewrite Hsp in Hv'. by destruct (Hnone v' h').
        -- intros c' p [=]%list_elem_of_singleton.
        -- intros p [Hin|[=]%list_elem_of_singleton]%elem_of_app.
           destruct (inv_log s HI c p Hin) as (_ & Hr & _ & Hd).
           rewrite Hsp. split; [done|]. split; [done|]. split.
           ++ intros b'. by rewrite Hheap, lookup_delete_eq.
           ++ rewrite destroyed_app, Hd. done.
      * intros c' p Hm H1. right. split.
        -- destruct Hm as [v0 Hv0]. exists v0. by rewrite Hsp.
        -- unfold strong_count in *. destruct (decide (c' = c)) as [->|Hne].
           ++ rewrite Hb in H1. simpl in H1. injection H1 as H1. lia.
           ++ by rewrite Hheap, lookup_delete_ne.
      * done.
      * by apply destroy_iff_last_counter.
      * intros c' p [=]%list_elem_of_singleton.
    + (* the block stays, with a new weak count *)
      rewrite Hheap1 in Hheap. rewrite Hlog1 in Hlog. rewrite Hbrk1 in Hbrk.
      exists []. split; [|by intros c' p ?%elem_of_nil].
      apply released_quiet; try done.
      * apply (Q_weak _ _ c b (mkCounter (shared_count_ b) n)); try done.
        intros c'. by rewrite Hsp.
      * intros c'. unfold strong_count. rewrite Hheap.
        destruct (decide (c' = c)) as [->|Hne].
        -- by rewrite lookup_insert_eq, Hb.
        -- by rewrite lookup_insert_ne.
  - apply WDD_null in HD as ->; [|done].
    exists []. split; [|by intros c' p ?%elem_of_nil].
    apply released_quiet; try done.
    + apply Q_perm; try done. intros c'. by rewrite Hsp.
    + intros c'. unfold strong_count. by rewrite Hheap.
Qed.

Lemma W_dtor_released s s' v :
  Inv s → exec (W_dtor v) s = Ok () s' →
  ∃ evs, released s evs s' ∧ ∀ c p, EvDeletePtr c p ∉ evs.
Proof.
  intros HI H. simpl in H. unfold WeakPtr.dtor in H.
  apply bind_Ok in H as (h & ? & [Hv ->]%get_wp_Ok & H).
  apply bind_Ok in H as ([] & s1 & HD & H). injection H as <-.
  assert (sp s1 = sp s ∧ wp s1 = wp s) as [Hsp Hwp].
  { destruct (counter h) as [c|] eqn:Hc.
    - by destruct (WDD_shape h c s s1 Hc HD) as (_ & _ & ? & ? & _).
    - by rewrite (WDD_null h s s1 Hc HD). }
  apply (WDD_released s s1 _ h); try done.
  - intros h' [[v' Hh]|[v' Hh]]; simpl in Hh; rewrite ?Hsp, ?Hwp in Hh.
    + eauto using holds_sp.
    + apply lookup_delete_Some in Hh as [_ Hh]. eauto using holds_wp.
  - eapply fits_delete_wp; eauto using inv_fits.
Qed.
(** ** Assignments, [Reset(p)] and the converting constructor *)

Lemma quiet_no_last s s' c p :
  Inv s → quiet s s' → manages s c p → last_release s s' c → False.
Proof.
  intros HI Hq [v Hv] [H1 H0]. unfold strong_count in *.
  destruct (heap s !! c) as [b|] eqn:Hb; [|done]. simpl in H1. injection H1 as H1.
  destruct Hq as [Hheap _ _ _ | strong b0 h0 Hheap _ _ _ _ _
                 | c0 b0 h0 Hb0 _ _ _ Hheap _ _ _ | c0 b0 b0' Hb0 Hsame Hheap _ _ _];
    rewrite Hheap in H0.
  - rewrite Hb in H0. simpl in H0. destruct H0 as [[= ?]|?]; [lia|done].
  - pose proof (inv_heap_brk s HI c b Hb).
    rewrite lookup_insert_ne, Hb in H0 by lia. simpl in H0.
    destruct H0 as [[= ?]|?]; [lia|done].
  - destruct (decide (c0 = c)) as [->|Hne].
    + rewrite lookup_insert_eq in H0. simplify_eq. simpl in H0.
      destruct H0 as [[= H0]|?]; [|done]. rewrite H1 in H0. done.
    + rewrite lookup_insert_ne, Hb in H0 by done. simpl in H0.
      destruct H0 as [[= ?]|?]; [lia|done].
  - destruct (decide (c0 = c)) as [->|Hne].
    + rewrite lookup_insert_eq in H0. simplify_eq. simpl in H0.
      destruct H0 as [[= H0]|?]; [|done]. lia.
    + rewrite lookup_insert_ne, Hb in H0 by done. simpl in H0.
      destruct H0 as [[= ?]|?]; [lia|done].
Qed.

Lemma Inv_count_zero s c p :
  Inv s → EvDeletePtr c p ∈ log s →
  strong_count s c = Some 0 ∨ strong_count s c = None.
Proof.
  intros HI Hin. destruct (inv_log s HI c p Hin) as (_ & _ & Hz & _).
  unfold strong_count. destruct (heap s !! c) as [b|]; [|by right].
  left. simpl. f_equal. by apply Hz.
Qed.

(** A release followed by a quiet step. *)
Lemma compose s s1 s' evs :
  released s evs s1 → quiet s1 s' → log s' = log s1 → fits s' = true →
  Inv s' ∧ log s' = log s ++ evs ∧ destroy_iff_last s evs s'.
Proof.
  intros (HI1 & Hk & Hlog1 & HB) Hq Hlog Hfit.
  assert (Inv s') as HI' by by apply (quiet_Inv s1).
  split; [done|]. split; [congruence|]. intros c p. split.
  - intros Hin. destruct (proj1 (HB c p) Hin) as [Hm [H1 _]].
    split; [done|]. split; [done|].
    apply (Inv_count_zero s' c p HI'). rewrite Hlog, Hlog1.
    apply elem_of_app. by right.
  - intros [Hm [H1 H0]]. destruct (Hk c p Hm H1) as [HL|[Hm1 H11]].
    + apply HB. done.
    + exfalso. apply (quiet_no_last s1 s' c p); done.
Qed.

Lemma S_dtor_run s v h sD :
  sp s !! v = Some h → SharedPtr.DecreaseAndDelete h s = Ok () sD →
  exec (S_dtor v) s = Ok () (set_sp (delete v) sD).
Proof.
  intros Hv HD. simpl. unfold SharedPtr.dtor, bind, get_sp. by rewrite Hv, HD.
Qed.

Lemma W_dtor_run s v h sD :
  wp s !! v = Some h → WeakPtr.DecreaseAndDelete h s = Ok () sD →
  exec (W_dtor v) s = Ok () (set_wp (delete v) sD).
Proof.
  intros Hv HD. simpl. unfold WeakPtr.dtor, bind, get_wp. by rewrite Hv, HD.
Qed.

Lemma refs_reinsert (m : gmap var Handle) v h c :
  refs (<[v:=h]> m) c = (refs (delete v m) c + ind h c)%nat.
Proof. rewrite <- (insert_delete_eq m). apply refs_insert_None, lookup_delete_eq. Qed.

(** The first phase of the [SharedPtr] assignments and of [Reset(p)]. *)
Lemma strong_phase s v h sD :
  Inv s → sp s !! v = Some h → SharedPtr.DecreaseAndDelete h s = Ok () sD →
  ∃ evs, released s evs (set_sp (delete v) sD).
Proof.
  intros HI Hv HD. apply (S_dtor_released s _ v HI). by apply (S_dtor_run s v h).
Qed.

Lemma weak_phase s v h sD :
  Inv s → wp s !! v = Some h → WeakPtr.DecreaseAndDelete h s = Ok () sD →
  ∃ evs, released s evs (set_wp (delete v) sD) ∧ ∀ c p, EvDeletePtr c p ∉ evs.
Proof.
  intros HI Hv HD. apply (W_dtor_released s _ v HI). by apply (W_dtor_run s v h).
Qed.

Lemma S_assign_phases s s' v o :
  Inv s → v ≠ o → exec (S_assign v o) s = Ok () s' → two_phase false s s'.
Proof.
  intros HI Hne H. simpl in H. unfold SharedPtr.assign in H.
  rewrite decide_False in H by done.
  apply bind_Ok in H as (h & ? & [Hv ->]%get_sp_Ok & H).
  apply bind_Ok in H as ([] & sD & HD & H).
  apply bind_Ok in H as (ho & ? & [Ho ->]%get_sp_Ok & H).
  apply bind_Ok in H as ([] & ? & ->%put_sp_Ok & H).
  destruct (strong_phase s v h sD HI Hv HD) as [evs Hrel].
  exists (set_sp (delete v) sD), evs. split; [done|]. split; [|split]; [| |done].
  2: { revert H. destruct ho as [p [c|]]; simpl; [unfold incr_shared|]; intros H; minv; done. }
  destruct ho as [p [c|]]; simpl in H.
  - unfold incr_shared in H. minv. simpl in *.
    match goal with H : heap sD !! c = Some ?x |- _ => rename x into b; rename H into Hb end.
    apply (Q_strong _ _ c b (mkHandle p (Some c))); try done.
    + apply (holds_sp _ o). simpl. by rewrite lookup_delete_ne.
    + left. exists o. simpl. by rewrite lookup_delete_ne.
    + intros c'. simpl. by rewrite refs_reinsert, ind_mk.
    + intros ? Hh. holds_cases Hh; eauto using holds_sp, holds_wp.
      * apply (holds_sp _ o). simpl. by rewrite lookup_delete_ne.
      * apply (holds_sp _ v0). simpl. by rewrite lookup_delete_ne.
  - apply ret_Ok in H as [_ ->].
    apply Q_perm; try done.
    + intros c'. simpl. rewrite refs_reinsert, ind_counter_None by done. lia.
    + intros ? Hh. holds_cases Hh; eauto using holds_sp, holds_wp.
      * left. apply (holds_sp _ o). simpl. by rewrite lookup_delete_ne.
      * left. apply (holds_sp _ v0). simpl. by rewrite lookup_delete_ne.
Qed.

Lemma move_refs (m : gmap var Handle) v o ho c :
  v ≠ o → m !! o = Some ho →
  refs (<[o:=null_handle]> (<[v:=ho]> m)) c = refs (delete v m) c.
Proof.
  intros Hne Ho.
  assert (<[v:=ho]> m !! o = Some ho) as Ho' by by rewrite lookup_insert_ne.
  pose proof (refs_insert_Some _ o ho null_handle c Ho') as R.
  pose proof (refs_reinsert m v ho c) as R2. rewrite ind_null in R. lia.
Qed.

Lemma S_move_assign_phases s s' v o :
  Inv s → v ≠ o → exec (S_move_assign v o) s = Ok () s' → two_phase false s s'.
Proof.
  intros HI Hne H. simpl in H. unfold SharedPtr.move_assign in H.
  rewrite decide_False in H by done.
  apply bind_Ok in H as (h & ? & [Hv ->]%get_sp_Ok & H).
  apply bind_Ok in H as ([] & sD & HD & H).
  apply bind_Ok in H as (ho & ? & [Ho ->]%get_sp_Ok & H).
  apply bind_Ok in H as ([] & ? & ->%put_sp_Ok & ->%put_sp_Ok).
  destruct (strong_phase s v h sD HI Hv HD) as [evs Hrel].
  exists (set_sp (delete v) sD), evs. split; [done|]. split; [|done].
  rewrite handle_eta. apply Q_perm; try done.
  - intros c. simpl. by apply move_refs.
  - intros ? Hh. holds_cases Hh; eauto using holds_sp, holds_wp.
    + left. apply (holds_sp _ o). simpl. by rewrite lookup_delete_ne.
    + left. apply (holds_sp _ v0). simpl. by rewrite lookup_delete_ne.
Qed.

Lemma S_reset_phases s s' v p :
  Inv s → exec (S_reset v p) s = Ok () s' → two_phase false s s'.
Proof.
  intros HI H. simpl in H. unfold SharedPtr.Reset in H.
  apply bind_Ok in H as (h & ? & [Hv ->]%get_sp_Ok & H).
  apply bind_Ok in H as ([] & sD & HD & H).
  apply bind_Ok in H as (c & ? & [-> ->]%new_Counter_Ok & ->%put_sp_Ok).
  destruct (strong_phase s v h sD HI Hv HD) as [evs Hrel].
  exists (set_sp (delete v) sD), evs. split; [done|]. split; [|done].
  apply (Q_fresh _ _ true (mkCounter (one_if_nonnull p) 0) (mkHandle p (Some (brk sD))));
    try done.
  - simpl. by destruct p.
  - intros c. simpl. by rewrite refs_reinsert, ind_mk.
  - intros ? Hh. holds_cases Hh; eauto using holds_sp, holds_wp.
    left. apply (holds_sp _ v0). simpl. by rewrite lookup_delete_ne.
Qed.

Lemma W_assign_phases s s' v o :
  Inv s → v ≠ o → exec (W_assign v o) s = Ok () s' → two_phase true s s'.
Proof.
  intros HI Hne H. simpl in H. unfold WeakPtr.assign in H.
  rewrite decide_False in H by done.
  apply bind_Ok in H as (h & ? & [Hv ->]%get_wp_Ok & H).
  apply bind_Ok in H as ([] & sD & HD & H).
  apply bind_Ok in H as (ho & ? & [Ho ->]%get_wp_Ok & H).
  apply bind_Ok in H as ([] & ? & ->%put_wp_Ok & H).
  destruct (weak_phase s v h sD HI Hv HD) as (evs & Hrel & Hno).
  exists (set_wp (delete v) sD), evs. split; [done|]. split; [|split]; [| |done].
  2: { revert H. destruct ho as [p [c|]]; simpl; [unfold incr_weak|]; intros H; minv; done. }
  destruct ho as [p [c|]]; simpl in H.
  - unfold incr_weak in H. minv. simpl in *.
    match goal with H : heap sD !! c = Some ?x |- _ => rename x into b; rename H into Hb end.
    apply (Q_weak _ _ c b (mkCounter (shared_count_ b) (size_incr (weak_count_ b))));
      try done.
    intros ? Hh. holds_cases Hh; eauto using holds_sp, holds_wp.
    + left. apply (holds_wp _ o). simpl. by rewrite lookup_delete_ne.
    + left. apply (holds_wp _ v0). simpl. by rewrite lookup_delete_ne.
  - apply ret_Ok in H as [_ ->].
    apply Q_perm; try done.
    intros ? Hh. holds_cases Hh; eauto using holds_sp, holds_wp.
    + left. apply (holds_wp _ o). simpl. by rewrite lookup_delete_ne.
    + left. apply (holds_wp _ v0). simpl. by rewrite lookup_delete_ne.
Qed.

Lemma W_move_assign_phases s s' v o :
  Inv s → v ≠ o → exec (W_move_assign v o) s = Ok () s' → two_phase true s s'.
Proof.
  intros HI Hne H. simpl in H. unfold WeakPtr.move_assign in H.
  rewrite decide_False in H by done.
  apply bind_Ok in H as (h & ? & [Hv ->]%get_wp_Ok & H).
  apply bind_Ok in H as ([] & sD & HD & H).
  apply bind_Ok in H as (ho & ? & [Ho ->]%get_wp_Ok & H).
  apply bind_Ok in H as ([] & ? & ->%put_wp_Ok & ->%put_wp_Ok).
  destruct (weak_phase s v h sD HI Hv HD) as (evs & Hrel & Hno).
  exists (set_wp (delete v) sD), evs. split; [done|]. split; [|done].
  rewrite handle_eta. apply Q_perm; try done.
  intros ? Hh. holds_cases Hh; eauto using holds_sp, holds_wp.
  + left. apply (holds_wp _ o). simpl. by rewrite lookup_delete_ne.
  + left. apply (holds_wp _ v0). simpl. by rewrite lookup_delete_ne.
Qed.

(** The release protocol looks at control blocks only. *)
Lemma frame_bind {A B} (m : M A) (k : A → M B) :
  frame_ok m → (∀ a, frame_ok (k a)) → frame_ok (bind m k).
Proof.
  intros Hm Hk f s b t H.
  apply bind_Ok in H as (a & s1 & H1 & H2).
  apply Hm in H1 as (t0 & H1 & ->). apply Hk in H2 as (t1 & H2 & ->).
  exists t1. split; [|done]. unfold bind. by rewrite H1.
Qed.

Lemma frame_ret {A} (a : A) : frame_ok (ret a).
Proof. intros f s a' t [-> ->]%ret_Ok. by exists s. Qed.

Lemma frame_load c : frame_ok (load c).
Proof.
  intros f s b t [Hb ->]%load_Ok. exists s. split; [|done].
  unfold load, read. simpl in Hb. by rewrite Hb.
Qed.

Lemma frame_store c b : frame_ok (store c b).
Proof.
  intros f s [] t [[b0 Hb] ->]%store_Ok. exists (set_heap (insert c b) s).
  split; [|reflexivity]. unfold store. simpl in Hb. by rewrite Hb.
Qed.

Lemma frame_delete_counter c : frame_ok (delete_counter c).
Proof.
  intros f s [] t [[b0 Hb] ->]%delete_counter_Ok.
  exists (emit (EvDeleteCounter c) (set_heap (delete c) s)).
  split; [|reflexivity]. unfold delete_counter. simpl in Hb. by rewrite Hb.
Qed.

Lemma WDD_frame h : frame_ok (WeakPtr.DecreaseAndDelete h).
Proof.
  unfold WeakPtr.DecreaseAndDelete. destruct (counter h) as [c|]; [|apply frame_ret].
  apply frame_bind; [apply frame_load|]. intros b.
  apply frame_bind.
  - destruct (0 <? weak_count_ b); [|apply frame_ret].
    unfold decr_weak. apply frame_bind; [apply frame_load|]. intros b0. apply frame_store.
  - intros _. apply frame_bind; [apply frame_load|]. intros b0.
    destruct ((weak_count_ b0 =? 0) && (shared_count_ b0 =? 0));
      [apply frame_delete_counter|apply frame_ret].
Qed.

Lemma W_conv_move_phases s s' v o junk :
  Inv s → exec (W_conv_move v o junk) s = Ok () s' → two_phase true s s'.
Proof.
  intros HI H. simpl in H. unfold declare_wp_from in H.
  destruct (wp s !! v) eqn:Hv; [done|]. destruct (wp s !! o) as [ho|] eqn:Ho; [|done].
  assert (v ≠ o) as Hne by congruence.
  unfold WeakPtr.ctor_conv_move in H.
  apply bind_Ok in H as ([] & ? & ->%put_wp_Ok & H).
  apply bind_Ok in H as ([] & s3 & Hassign & H).
  unfold WeakPtr.assign in Hassign. rewrite decide_False in Hassign by done.
  apply bind_Ok in Hassign as (hj & ? & [Hj ->]%get_wp_Ok & Hassign).
  simpl in Hj. rewrite lookup_insert_eq in Hj. injection Hj as <-.
  apply bind_Ok in Hassign as ([] & sD & HD & Hassign).
  apply WDD_frame in HD as (t0 & HD & ->).
  apply bind_Ok in Hassign as (ho' & ? & [Ho' ->]%get_wp_Ok & Hassign).
  assert (sp t0 = sp s ∧ wp t0 = wp s) as [Hsp Hwp].
  { destruct (counter junk) as [c|] eqn:Hc.
    - by destruct (WDD_shape junk c s t0 Hc HD) as (_ & _ & ? & ? & _).
    - by rewrite (WDD_null junk s t0 Hc HD). }
  simpl in Ho'. rewrite lookup_insert_ne, Hwp, Ho in Ho' by done. injection Ho' as <-.
  apply bind_Ok in Hassign as ([] & ? & ->%put_wp_Ok & Hincr).
  apply bind_Ok in H as (h2 & ? & [H2 ->]%get_wp_Ok & H).
  apply bind_Ok in H as (c & ? & [Hc2 ->]%deref_Ok & H).
  assert (wp s3 !! v = Some (mkHandle (ptr_ ho) (counter ho)) ∧
          ∃ b, heap t0 !! c = Some b ∧ counter ho = Some c ∧
               s3 = set_heap (insert c (mkCounter (shared_count_ b) (size_incr (weak_count_ b))))
                      (set_wp (insert v (mkHandle (ptr_ ho) (counter ho)))
                         (set_wp (insert v junk) t0))) as (Hv3 & b & Hb & Hco & ->).
  { destruct (counter ho) as [c0|] eqn:Hc0; simpl in Hincr.
    - unfold incr_weak in Hincr. minv. simpl in *.
      rewrite lookup_insert_eq in H2. injection H2 as <-. simpl in Hc2. simplify_eq.
      split; [by rewrite lookup_insert_eq|]. eauto.
    - apply ret_Ok in Hincr as [_ ->]. simpl in H2.
      rewrite lookup_insert_eq in H2. injection H2 as <-. done. }
  clear Hincr H2 Hc2. unfold incr_weak in H. minv. simpl in *.
  destruct (WDD_released s t0 t0 junk) as (evs & Hrel & Hno); try done.
  { intros h' [[v' Hh]|[v' Hh]]; rewrite ?Hsp, ?Hwp in Hh; eauto using holds_sp, holds_wp. }
  { apply bool_decide_eq_true. rewrite Hsp, Hwp. by apply fits_bound, inv_fits. }
  exists t0, evs. split; [done|]. split; [|done].
  match goal with H : <[c:=_]> (heap t0) !! c = Some _ |- _ =>
    rewrite lookup_insert_eq in H; injection H as <- end.
  simpl.
  apply (Q_weak _ _ c b
           (mkCounter (shared_count_ b) (size_incr (size_incr (weak_count_ b)))));
    try done.
  - simpl. by rewrite insert_insert_eq.
  - intros h' Hh. holds_cases Hh; eauto using holds_sp, holds_wp; try done.
    left. apply (holds_wp _ o). rewrite Hwp, Ho. f_equal.
    destruct ho; simpl in *; congruence.
Qed.
(** ** Exceptions *)

Lemma nothrow_bind {A B} (m : M A) (k : A → M B) :
  nothrow m → (∀ a, nothrow (k a)) → nothrow (bind m k).
Proof.
  intros Hm Hk s e t. unfold bind. destruct (m s) as [a s1| |] eqn:E; [apply Hk| |done].
  by destruct (Hm s e0 s0).
Qed.

Lemma nothrow_ret {A} (a : A) : nothrow (ret a).
Proof. by intros s e t. Qed.
Lemma nothrow_undefined {A} f : nothrow (@undefined A f).
Proof. by intros s e t. Qed.
Lemma nothrow_read {A} (f : State → option A) : nothrow (read f).
Proof. intros s e t. unfold read. by destruct (f s). Qed.
Lemma nothrow_store c b : nothrow (store c b).
Proof. intros s e t. unfold store. by destruct (heap s !! c). Qed.
Lemma nothrow_new_Counter b : nothrow (new_Counter b).
Proof. by intros s e t. Qed.
Lemma nothrow_delete_counter c : nothrow (delete_counter c).
Proof. intros s e t. unfold delete_counter. by destruct (heap s !! c). Qed.
Lemma nothrow_delete_ptr c p : nothrow (delete_ptr c p).
Proof. intros s e t. by destruct p. Qed.
Lemma nothrow_get_sp v : nothrow (get_sp v).
Proof. intros s e t. unfold get_sp. by destruct (sp s !! v). Qed.
Lemma nothrow_get_wp v : nothrow (get_wp v).
Proof. intros s e t. unfold get_wp. by destruct (wp s !! v). Qed.
Lemma nothrow_put_sp v h : nothrow (put_sp v h).
Proof. by intros s e t. Qed.
Lemma nothrow_put_wp v h : nothrow (put_wp v h).
Proof. by intros s e t. Qed.
Lemma nothrow_declare_sp v ctor : nothrow ctor → nothrow (declare_sp v ctor).
Proof.
  intros H s e t. unfold declare_sp. destruct (sp s !! v); [done|].
  apply nothrow_bind; [done|]. intros. apply nothrow_put_sp.
Qed.
Lemma nothrow_declare_wp v ctor : nothrow ctor → nothrow (declare_wp v ctor).
Proof.
  intros H s e t. unfold declare_wp. destruct (wp s !! v); [done|].
  apply nothrow_bind; [done|]. intros. apply nothrow_put_wp.
Qed.
Lemma nothrow_declare_wp_from v o ctor : nothrow ctor → nothrow (declare_wp_from v o ctor).
Proof.
  intros H s e t. unfold declare_wp_from.
  destruct (wp s !! v); [done|]. destruct (wp s !! o); [apply H|done].
Qed.
Lemma nothrow_pure {A} (a : A) (f : State → State) : nothrow (λ s, Ok a (f s)).
Proof. by intros s e t. Qed.

Ltac nothrow_tac :=
  repeat first
    [ apply nothrow_bind | apply nothrow_ret | apply nothrow_undefined
    | apply nothrow_read | apply nothrow_store | apply nothrow_new_Counter
    | apply nothrow_delete_counter | apply nothrow_delete_ptr
    | apply nothrow_get_sp | apply nothrow_get_wp
    | apply nothrow_put_sp | apply nothrow_put_wp
    | apply nothrow_declare_sp | apply nothrow_declare_wp
    | apply nothrow_declare_wp_from | apply nothrow_pure
    | match goal with
      | |- ∀ _, nothrow _ => intros ?
      | |- nothrow (match ?x with _ => _ end) => destruct x
      | |- nothrow (if ?b then _ else _) => destruct b
      end ].

Lemma nothrow_S_DnD h : nothrow (SharedPtr.DecreaseAndDelete h).
Proof.
  unfold SharedPtr.DecreaseAndDelete, decr_shared, load. nothrow_tac.
Qed.

Lemma nothrow_W_DnD h : nothrow (WeakPtr.DecreaseAndDelete h).
Proof.
  unfold WeakPtr.DecreaseAndDelete, decr_weak, load. nothrow_tac.
Qed.

(** only the promoting constructor throws, and it throws before it writes *)
Lemma ctor_from_weak_Throw h s e t :
  SharedPtr_ctor_from_weak h s = Throw e t → t = s ∧ WeakPtr.Expired h s = Some true.
Proof.
  unfold SharedPtr_ctor_from_weak, bind, read.
  destruct (WeakPtr.Expired h s) as [[]|] eqn:E; [|intros H|done].
  { unfold throw. intros H. split; [congruence|done]. }
  exfalso. revert H.
  change ((do _ <- incr_shared_if (counter h); ret (mkHandle (ptr_ h) (counter h))) s ≠ Throw e t).
  revert s e t E. intros s e t _. revert s e t.
  unfold incr_shared_if, incr_shared, load. nothrow_tac.
Qed.

Lemma exec_nothrow op :
  (∀ v w, op ≠ S_from_weak v w) → (∀ v w, op ≠ W_lock v w) → nothrow (exec op).
Proof.
  intros H1 H2.
  destruct op; try (by destruct (H1 _ _ eq_refl)); try (by destruct (H2 _ _ eq_refl));
    simpl;
    unfold SharedPtr.ctor_default, SharedPtr.ctor_raw, SharedPtr.ctor_copy,
      SharedPtr.ctor_move, SharedPtr.dtor, SharedPtr.assign, SharedPtr.move_assign,
      SharedPtr.Reset, SharedPtr.Swap,
      WeakPtr.ctor_default, WeakPtr.ctor_copy, WeakPtr.ctor_move,
      WeakPtr.ctor_from_shared, WeakPtr.ctor_raw, WeakPtr.ctor_conv_move,
      WeakPtr.dtor, WeakPtr.assign, WeakPtr.move_assign,
      WeakPtr.Swap, WeakPtr.Reset,
      incr_shared_if, incr_weak_if, incr_shared, incr_weak, decr_weak, load, deref;
    nothrow_tac; (apply nothrow_S_DnD || apply nothrow_W_DnD).
Qed.

Lemma exec_Throw op s e t : exec op s = Throw e t → t = s.
Proof.
  intros H.
  destruct op; try (exfalso; by apply exec_nothrow in H).
  - (* S_from_weak *)
    simpl in H. unfold declare_sp in H. destruct (sp s !! v); [done|].
    unfold bind in H. unfold get_wp in H. destruct (wp s !! w); [|done].
    destruct (SharedPtr_ctor_from_weak h s) as [a s1|e' s1|] eqn:E; [done| |done].
    assert (s1 = t) as -> by congruence. by apply ctor_from_weak_Throw in E as [-> _].
  - (* W_lock *)
    exfalso. simpl in H. unfold declare_sp in H. destruct (sp s !! v); [done|].
    unfold bind in H. unfold get_wp in H. destruct (wp s !! w); [|done].
    unfold WeakPtr_Lock, bind, read in H.
    destruct (WeakPtr.Expired h s) as [[]|] eqn:E; [done| |done].
    destruct (SharedPtr_ctor_from_weak h s) as [a s1|e' s1|] eqn:E'; [done| |done].
    apply ctor_from_weak_Throw in E' as [_ ?]. congruence.
Qed.


(** ** Every client step *)

Lemma spec_quiet op s s' :
  Inv s → quiet s s' ∧ log s' = log s → fits s' = true → step_spec op s s'.
Proof.
  intros HI [Hq Hlog] Hfit. split; [by apply (quiet_Inv s)|].
  exists []. rewrite app_nil_r. split; [done|]. split.
  - apply destroy_iff_last_nil. intros c p. by apply quiet_no_last.
  - intros _ c p ?%elem_of_nil. done.
Qed.

Lemma spec_same op s : Inv s → step_spec op s s.
Proof.
  intros HI. split; [done|]. exists []. rewrite app_nil_r. split; [done|]. split.
  - apply destroy_iff_last_nil. intros c p _. by apply same_count_not_last.
  - intros _ c p ?%elem_of_nil. done.
Qed.

Lemma spec_released op s s' evs :
  released s evs s' → (is_weak_op op = true → ∀ c p, EvDeletePtr c p ∉ evs) →
  step_spec op s s'.
Proof.
  intros (HI' & _ & Hlog & HB) Hw. split; [done|]. by exists evs.
Qed.

Lemma spec_phases op s s' :
  two_phase (is_weak_op op) s s' → fits s' = true → step_spec op s s'.
Proof.
  intros (s1 & evs & Hrel & Hq & Hlog & Hw) Hfit.
  destruct (compose s s1 s' evs) as (HI' & Hlog' & HB'); try done.
  split; [done|]. by exists evs.
Qed.

Lemma exec_spec op s s' :
  Inv s → after (exec op s) = Some s' → fits s' = true → step_spec op s s'.
Proof.
  intros HI H Hfit. destruct (exec op s) as [[] s1|e s1|] eqn:E; simpl in H; [| |done];
    injection H as ->.
  2: { apply exec_Throw in E as ->. by apply spec_same. }
  destruct op.
  - apply spec_quiet; [done|by eapply S_default_quiet|done].
  - apply spec_quiet; [done|by eapply S_raw_quiet|done].
  - apply spec_quiet; [done|by eapply S_copy_quiet|done].
  - apply spec_quiet; [done|by eapply S_move_quiet|done].
  - apply spec_quiet; [done|by eapply S_from_weak_quiet|done].
  - destruct (S_dtor_released s s' v HI E) as [evs Hrel].
    by apply (spec_released _ s s' evs).
  - destruct (decide (v = o)) as [->|Hne].
    + simpl in E. unfold SharedPtr.assign in E. rewrite decide_True in E by done.
      apply ret_Ok in E as [_ ->]. by apply spec_same.
    + apply spec_phases; [|done]. by apply (S_assign_phases s s' v o).
  - destruct (decide (v = o)) as [->|Hne].
    + simpl in E. unfold SharedPtr.move_assign in E. rewrite decide_True in E by done.
      apply ret_Ok in E as [_ ->]. by apply spec_same.
    + apply spec_phases; [|done]. by apply (S_move_assign_phases s s' v o).
  - apply spec_phases; [|done]. by apply (S_reset_phases s s' v p).
  - apply spec_quiet; [done|by eapply S_swap_quiet|done].
  - apply spec_quiet; [done|by eapply W_default_quiet|done].
  - apply spec_quiet; [done|by eapply W_copy_quiet|done].
  - apply spec_quiet; [done|by eapply W_move_quiet|done].
  - apply spec_quiet; [done|by eapply W_from_shared_quiet|done].
  - apply spec_quiet; [done|by eapply W_raw_quiet|done].
  - apply spec_phases; [|done]. by apply (W_conv_move_phases s s' v o junk).
  - destruct (W_dtor_released s s' v HI E) as (evs & Hrel & Hno).
    by apply (spec_released _ s s' evs).
  - destruct (decide (v = o)) as [->|Hne].
    + simpl in E. unfold WeakPtr.assign in E. rewrite decide_True in E by done.
      apply ret_Ok in E as [_ ->]. by apply spec_same.
    + apply spec_phases; [|done]. by apply (W_assign_phases s s' v o).
  - destruct (decide (v = o)) as [->|Hne].
    + simpl in E. unfold WeakPtr.move_assign in E. rewrite decide_True in E by done.
      apply ret_Ok in E as [_ ->]. by apply spec_same.
    + apply spec_phases; [|done]. by apply (W_move_assign_phases s s' v o).
  - apply spec_quiet; [done|by eapply W_swap_quiet|done].
  - apply spec_quiet; [done|by eapply W_reset_quiet|done].
  - apply spec_quiet; [done|by eapply W_lock_quiet|done].
Qed.

(** ** Runs *)

Lemma Inv_init : Inv init.
Proof.
  split; try done.
  - intros h c [[v Hv]|[v Hv]]; done.
  - intros h1 h2 c [[v Hv]|[v Hv]]; done.
  - intros h [[v Hv]|[v Hv]]; done.
  - intros c p ?%elem_of_nil. done.
Qed.

Lemma run_Inv ops s s' : Inv s → run ops s = Some s' → Inv s'.
Proof.
  revert s. induction ops as [|op ops IH]; intros s HI H; simpl in H.
  - by injection H as <-.
  - destruct (after (exec op s)) as [s1|] eqn:E; [|done].
    destruct (fits s1) eqn:Hfit; [|done].
    apply (IH s1); [|done]. by apply (exec_spec op s s1).
Qed.

Lemma destroyed_le_1 s c : Inv s → (destroyed c (log s) ≤ 1)%nat.
Proof.
  intros HI. destruct (destroyed c (log s)) as [|n] eqn:E; [lia|].
  destruct (destroyed_pos c (log s)) as [p Hp]; [lia|].
  destruct (inv_log s HI c p Hp) as (_ & _ & _ & Hd). lia.
Qed.

(** ** The release of a managing handle is always defined *)

Lemma bind_run {A B} (m : M A) (k : A → M B) s a s1 :
  m s = Ok a s1 → bind m k s = k a s1.
Proof. unfold bind. by intros ->. Qed.

Lemma load_run c b s : heap s !! c = Some b → load c s = Ok b s.
Proof. unfold load, read. by intros ->. Qed.

Lemma store_run c b b' s :
  heap s !! c = Some b → store c b' s = Ok () (set_heap (insert c b') s).
Proof. unfold store. by intros ->. Qed.

Lemma SDD_defined h c b s :
  counter h = Some c → heap s !! c = Some b →
  ∃ s1, SharedPtr.DecreaseAndDelete h s = Ok () s1.
Proof.
  intros Hc Hb. unfold SharedPtr.DecreaseAndDelete. rewrite Hc.
  rewrite (bind_run _ _ s b s) by by apply load_run.
  assert (∃ s2 b2, (if 0 <? shared_count_ b then decr_shared c else ret ()) s = Ok () s2 ∧
                   heap s2 !! c = Some b2) as (s2 & b2 & Hdec & Hb2).
  { destruct (0 <? shared_count_ b).
    - unfold decr_shared. rewrite (bind_run _ _ s b s) by by apply load_run.
      rewrite (store_run c b) by done. eexists _, _. split; [done|].
      simpl. by rewrite lookup_insert_eq.
    - by exists s, b. }
  rewrite (bind_run _ _ s () s2) by done.
  rewrite (bind_run _ _ s2 b2 s2) by by apply load_run.
  destruct ((shared_count_ b2 =? 0) && (weak_count_ b2 =? 0)).
  - unfold bind, delete_counter. rewrite Hb2. destruct (ptr_ h); simpl; eauto.
  - destruct (shared_count_ b2 =? 0); [destruct (ptr_ h); simpl; eauto|].
    unfold ret. eauto.
Qed.


(** ** A control block is freed only at zero *)

Lemma free_needs_both_zero h c s s' :
  counter h = Some c → is_Some (heap s !! c) → heap s' !! c = None →
  (SharedPtr.DecreaseAndDelete h s = Ok () s' →
   ∃ b, heap s !! c = Some b ∧
        guarded_decr (shared_count_ b) = 0 ∧ weak_count_ b = 0) ∧
  (WeakPtr.DecreaseAndDelete h s = Ok () s' →
   ∃ b, heap s !! c = Some b ∧
        guarded_decr (weak_count_ b) = 0 ∧ shared_count_ b = 0).
Proof.
  intros Hc _ Hfree. split; intros HD.
  - destruct (SDD_shape h c s s' Hc HD) as (b & Hb & _ & _ & _ & Hcases).
    exists b. split; [done|].
    destruct Hcases as [(? & ? & _)|[(_ & _ & Hheap & _)|(_ & Hheap & _)]]; [done|..];
      by rewrite Hheap, lookup_insert_eq in Hfree.
  - destruct (WDD_shape h c s s' Hc HD) as (b & Hb & _ & _ & _ & Hcases).
    exists b. split; [done|].
    destruct Hcases as [(? & ? & _)|(_ & Hheap & _)]; [done|].
    by rewrite Hheap, lookup_insert_eq in Hfree.
Qed.

(** ** The scenario of the specification

    [A] over an object, a copy [B], a weak handle [W]; then [A] and [B] go
    away. *)
Example scenario :
  let obj := 42%positive in
  let a := mkHandle (Some obj) (Some 1%positive) in
  let s1 := state_after [S_raw 0 (Some obj)] in
  let s2 := state_after [S_raw 0 (Some obj); S_copy 1 0] in
  let s3 := state_after [S_raw 0 (Some obj); S_copy 1 0; W_from_shared 0 0] in
  let s4 := state_after [S_raw 0 (Some obj); S_copy 1 0; W_from_shared 0 0;
                         S_dtor 0; S_dtor 1] in
  let s5 := state_after [S_raw 0 (Some obj); S_copy 1 0; W_from_shared 0 0;
                         S_dtor 0; S_dtor 1; W_lock 2 0] in
  SharedPtr.UseCount a s1 = Some 1 ∧
  SharedPtr.UseCount a s2 = Some 2 ∧
  WeakPtr.Expired a s3 = Some false ∧ SharedPtr.UseCount a s3 = Some 2 ∧
  WeakPtr.Expired a s4 = Some true ∧ log s4 = [EvDeletePtr 1 obj] ∧
  (∃ h, sp s5 !! 2%nat = Some h ∧ SharedPtr.to_bool h s5 = Some false).
Proof. vm_compute. repeat split; try reflexivity. eexists. split; reflexivity. Qed.

(** ** The claims *)

(** C1: along every run, the managed object is destroyed exactly when the
    strong count of its control block drops from 1 to 0 (whatever the weak
    count), at most once per block, and never by a weak-handle operation. *)
Theorem C1_object_destroyed_once_at_last_strong_release ops s op s' :
  run ops init = Some s → after (exec op s) = Some s' → fits s' = true →
  ∃ evs, log s' = log s ++ evs ∧
    (∀ c p, EvDeletePtr c p ∈ evs ↔ manages s c p ∧ last_release s s' c) ∧
    (is_weak_op op = true → ∀ c p, EvDeletePtr c p ∉ evs) ∧
    (∀ c, (destroyed c (log s') ≤ 1)%nat).
Proof.
  intros Hrun Hex Hfit.
  assert (Inv s) as HI by (eapply run_Inv; eauto using Inv_init).
  destruct (exec_spec op s s' HI Hex Hfit) as (HI' & evs & Hlog & HB & Hw).
  exists evs. split; [done|]. split; [exact HB|]. split; [done|].
  intros c. by apply destroyed_le_1.
Qed.

Lemma C1_witness :
  run owner_and_observer init = Some (state_after owner_and_observer) ∧
  after (exec (S_dtor 0) (state_after owner_and_observer)) =
    Some (state_after (owner_and_observer ++ [S_dtor 0])) ∧
  fits (state_after (owner_and_observer ++ [S_dtor 0])) = true ∧
  ∃ evs,
    log (state_after (owner_and_observer ++ [S_dtor 0])) =
      log (state_after owner_and_observer) ++ evs ∧
    (∀ c p, EvDeletePtr c p ∈ evs ↔
       manages (state_after owner_and_observer) c p ∧
       last_release (state_after owner_and_observer)
         (state_after (owner_and_observer ++ [S_dtor 0])) c) ∧
    (is_weak_op (S_dtor 0) = true → ∀ c p, EvDeletePtr c p ∉ evs) ∧
    (∀ c, (destroyed c (log (state_after (owner_and_observer ++ [S_dtor 0]))) ≤ 1)%nat).
Proof.
  assert (run owner_and_observer init = Some (state_after owner_and_observer)) as H1
    by (vm_compute; reflexivity).
  assert (after (exec (S_dtor 0) (state_after owner_and_observer)) =
            Some (state_after (owner_and_observer ++ [S_dtor 0]))) as H2
    by (vm_compute; reflexivity).
  assert (fits (state_after (owner_and_observer ++ [S_dtor 0])) = true) as H3
    by (vm_compute; reflexivity).
  split; [exact H1|]. split; [exact H2|]. split; [exact H3|].
  exact (C1_object_destroyed_once_at_last_strong_release _ _ _ _ H1 H2 H3).
Defined.

(** C2 (the code departs from the claim): after the last strong handle is
    gone, [WeakPtr::Reset] on the last weak handle brings both counts to
    zero and leaves the control block allocated, with no handle left to
    free it; letting the same handle go out of scope frees the block. *)
Theorem C2_weak_reset_leaks_block :
  (let s := state_after (owner_and_observer ++ [S_dtor 0; W_reset 0]) in
   run (owner_and_observer ++ [S_dtor 0; W_reset 0]) init = Some s ∧
   heap s !! 1%positive = Some (mkCounter 0 0) ∧
   refs (sp s) 1%positive = 0%nat ∧ refs (wp s) 1%positive = 0%nat ∧
   log s = [EvDeletePtr 1 7]) ∧
  (let s := state_after (owner_and_observer ++ [S_dtor 0; W_dtor 0]) in
   run (owner_and_observer ++ [S_dtor 0; W_dtor 0]) init = Some s ∧
   heap s !! 1%positive = None ∧
   log s = [EvDeletePtr 1 7; EvDeleteCounter 1]).
Proof. vm_compute. repeat split; reflexivity. Qed.

(** C3: [Lock] on a handle that is not expired returns a [SharedPtr] on the
    same control block whose [UseCount] is one more than before; on an
    expired handle it returns normally, with a handle that tests false. *)
Theorem C3_Lock_promotes_or_returns_empty (this : Handle) (s : State) :
  (WeakPtr.Expired this s = Some false →
   ∀ n, WeakPtr.UseCount this s = Some n → 0 ≤ n < SIZE_MAX →
   ∃ h s', WeakPtr_Lock this s = Ok h s' ∧
           counter h = counter this ∧ ptr_ h = ptr_ this ∧
           SharedPtr.UseCount h s' = Some (n + 1)) ∧
  (WeakPtr.Expired this s = Some true →
   ∃ h s', WeakPtr_Lock this s = Ok h s' ∧ SharedPtr.to_bool h s' = Some false).
Proof.
  split.
  - intros He n Hn Hrange.
    destruct (Expired_false s this He) as (c & b & Hc & Hb & Hnz).
    unfold WeakPtr.UseCount in Hn. rewrite Hc, Hb in Hn. simpl in Hn. injection Hn as <-.
    unfold WeakPtr_Lock.
    rewrite (bind_run _ _ s false s) by (unfold read; by rewrite He).
    unfold SharedPtr_ctor_from_weak.
    rewrite (bind_run _ _ s false s) by (unfold read; by rewrite He).
    rewrite Hc. simpl. unfold incr_shared.
    erewrite bind_run; [|erewrite bind_run; [|by apply load_run]; by eapply store_run].
    eexists _, _. split; [done|]. repeat split.
    unfold SharedPtr.UseCount. simpl. rewrite lookup_insert_eq. simpl.
    rewrite size_incr_small; [done|lia|unfold SIZE_MAX in Hrange; lia].
  - intros He. unfold WeakPtr_Lock.
    rewrite (bind_run _ _ s true s) by (unfold read; by rewrite He).
    eexists _, _. split; [done|].
    unfold SharedPtr.to_bool. simpl. by rewrite lookup_insert_eq.
Qed.

Lemma C3_witness :
  let s := state_after owner_and_observer in
  let w := mkHandle (Some 7%positive) (Some 1%positive) in
  let s0 := state_after (owner_and_observer ++ [S_dtor 0]) in
  (WeakPtr.Expired w s = Some false ∧ WeakPtr.UseCount w s = Some 1 ∧ 0 ≤ 1 < SIZE_MAX ∧
   ∃ h s', WeakPtr_Lock w s = Ok h s' ∧ counter h = counter w ∧ ptr_ h = ptr_ w ∧
           SharedPtr.UseCount h s' = Some (1 + 1)) ∧
  (WeakPtr.Expired w s0 = Some true ∧
   ∃ h s', WeakPtr_Lock w s0 = Ok h s' ∧ SharedPtr.to_bool h s' = Some false).
Proof.
  intros s w s0.
  assert (WeakPtr.Expired w s = Some false) as H1 by (vm_compute; reflexivity).
  assert (WeakPtr.UseCount w s = Some 1) as H2 by (vm_compute; reflexivity).
  assert (0 ≤ 1 < SIZE_MAX) as H3 by (unfold SIZE_MAX, SIZE_MODULUS; lia).
  assert (WeakPtr.Expired w s0 = Some true) as H4 by (vm_compute; reflexivity).
  split.
  - split; [exact H1|]. split; [exact H2|]. split; [exact H3|].
    exact (proj1 (C3_Lock_promotes_or_returns_empty w s) H1 1 H2 H3).
  - split; [exact H4|].
    exact (proj2 (C3_Lock_promotes_or_returns_empty w s0) H4).
Defined.

Lemma promotion_throws other s :
  WeakPtr.Expired other s = Some true →
  SharedPtr_ctor_from_weak other s = Throw bad_weak_ptr s.
Proof.
  intros He. unfold SharedPtr_ctor_from_weak.
  by rewrite (bind_run _ _ s true s) by (unfold read; by rewrite He).
Qed.

(** C4: constructing a [SharedPtr] from an expired [WeakPtr] (no control
    block, or a strong count of zero) throws [bad_weak_ptr] and leaves the
    whole state, hence both counts, as it was. *)
Theorem C4_promotion_of_expired_throws (other : Handle) (s : State) :
  counter other = None ∨
    (∃ c, counter other = Some c ∧ strong_count s c = Some 0) →
  SharedPtr_ctor_from_weak other s = Throw bad_weak_ptr s.
Proof.
  intros H. apply promotion_throws.
  unfold WeakPtr.Expired. destruct H as [->|(c & -> & Hc)]; [done|].
  unfold strong_count in Hc. destruct (heap s !! c) as [b|]; [|done].
  simpl in *. injection Hc as ->. done.
Qed.

Lemma C4_witness :
  let w := mkHandle (Some 7%positive) (Some 1%positive) in
  let s0 := state_after (owner_and_observer ++ [S_dtor 0]) in
  (counter w = None ∨ (∃ c, counter w = Some c ∧ strong_count s0 c = Some 0)) ∧
  SharedPtr_ctor_from_weak w s0 = Throw bad_weak_ptr s0.
Proof.
  intros w s0.
  assert (counter w = None ∨ (∃ c, counter w = Some c ∧ strong_count s0 c = Some 0)) as H.
  { right. exists 1%positive. split; vm_compute; reflexivity. }
  split; [exact H|]. exact (C4_promotion_of_expired_throws w s0 H).
Defined.

(** C5, as stated, fails: a [SharedPtr] constructed from a null raw pointer
    is one live handle on its control block and reports a [UseCount] of 0. *)
Lemma C5_null_pointer_counterexample :
  ¬ (∀ ops s v h c,
       run ops init = Some s → sp s !! v = Some h → counter h = Some c →
       SharedPtr.UseCount h s = Some (Z.of_nat (refs (sp s) c))).
Proof.
  intros H.
  specialize (H [S_raw 0 None] (state_after [S_raw 0 None]) 0%nat
                (mkHandle None (Some 1%positive)) 1%positive).
  vm_compute in H. specialize (H eq_refl eq_refl eq_refl). discriminate H.
Qed.

(** C5, amended: along every run, [UseCount] on a [SharedPtr] that manages
    an object ([ptr_] not null) is the number of live [SharedPtr] objects on
    the same control block. *)
Theorem C5_use_count_counts_strong_handles ops s v h :
  run ops init = Some s → sp s !! v = Some h → ptr_ h ≠ None →
  ∃ c, counter h = Some c ∧
       SharedPtr.UseCount h s = Some (Z.of_nat (refs (sp s) c)).
Proof.
  intros Hrun Hv Hp.
  assert (Inv s) as HI by (eapply run_Inv; eauto using Inv_init).
  destruct (inv_counts s HI h) as (c & Hc & Hcnt); eauto using holds_sp.
  destruct (inv_alloc s HI v h c Hv Hp Hc) as [b Hb].
  exists c. split; [done|]. unfold SharedPtr.UseCount. rewrite Hc, Hb. simpl.
  by rewrite (Hcnt b Hb).
Qed.

Lemma C5_witness :
  let ops := owner_and_observer ++ [S_copy 1 0; S_copy 2 1; S_move 3 2; S_assign 2 0] in
  let h := mkHandle (Some 7%positive) (Some 1%positive) in
  run ops init = Some (state_after ops) ∧
  sp (state_after ops) !! 3%nat = Some h ∧ ptr_ h ≠ None ∧
  ∃ c, counter h = Some c ∧
       SharedPtr.UseCount h (state_after ops) =
         Some (Z.of_nat (refs (sp (state_after ops)) c)).
Proof.
  intros ops h.
  assert (run ops init = Some (state_after ops)) as H1 by (vm_compute; reflexivity).
  assert (sp (state_after ops) !! 3%nat = Some h) as H2 by (vm_compute; reflexivity).
  assert (ptr_ h ≠ None) as H3 by (simpl; discriminate).
  split; [exact H1|]. split; [exact H2|]. split; [exact H3|].
  exact (C5_use_count_counts_strong_handles ops _ 3%nat h H1 H2 H3).
Defined.

(* C6 and C7 are proved in the second part, after the lemmas on
   assignments and on the accounts of a control block that they use. *)

(** The release protocol tests the count before it decrements: it leaves a
    zero count at zero. *)
Lemma weak_release_keeps_zero_count h c b s :
  counter h = Some c → heap s !! c = Some b →
  weak_count_ b = 0 → shared_count_ b ≠ 0 →
  ∃ t, WeakPtr.DecreaseAndDelete h s = Ok () t ∧ weak_count t c = Some 0.
Proof.
  intros Hc Hb Hw Hs. unfold WeakPtr.DecreaseAndDelete. rewrite Hc.
  rewrite (bind_run _ _ s b s) by by apply load_run.
  rewrite Hw. simpl.
  rewrite (bind_run _ _ s () s) by done.
  rewrite (bind_run _ _ s b s) by by apply load_run.
  rewrite Hw. simpl. apply Z.eqb_neq in Hs. rewrite Hs.
  exists s. split; [done|]. unfold weak_count. by rewrite Hb, <- Hw.
Qed.

(** C8 (the code departs from the claim): [WeakPtr(T* ptr)] is not accepted
    by the compiler once a program uses it.  Its body sets the strong count
    to 0, as claimed, and assigns the weak count that the claim gives (1 for
    a non-null pointer, 0 for null) to [weak_counter_], which [Counter] does
    not declare; [weak_count_] is assigned nowhere.  The sibling
    [SharedPtr(T* ptr)] names the two declared members, is accepted, and
    builds the block that its two assignments describe. *)
Theorem C8_weak_raw_ctor_is_ill_formed :
  well_formed WeakPtr_ctor_raw_body = false ∧
  declared "weak_counter_" = false ∧
  assigned WeakPtr_ctor_raw_body "weak_count_" = None ∧
  (∃ f, assigned WeakPtr_ctor_raw_body "weak_counter_" = Some f ∧
        f None = 0 ∧ ∀ p, f (Some p) = 1) ∧
  (∃ f, assigned WeakPtr_ctor_raw_body "shared_count_" = Some f ∧ ∀ ptr, f ptr = 0) ∧
  well_formed SharedPtr_ctor_raw_body = true ∧
  (∃ fs fw, assigned SharedPtr_ctor_raw_body "shared_count_" = Some fs ∧
            assigned SharedPtr_ctor_raw_body "weak_count_" = Some fw ∧
            ∀ ptr s, ∃ s',
              SharedPtr.ctor_raw ptr s = Ok (mkHandle ptr (Some (brk s))) s' ∧
              heap s' !! brk s = Some (mkCounter (fs ptr) (fw ptr))).
Proof.
  split; [by vm_compute|]. split; [by vm_compute|]. split; [done|].
  split; [eexists; split; [done|]; by split|].
  split; [eexists; split; [done|]; done|].
  split; [by vm_compute|].
  eexists _, _. split; [done|]. split; [done|].
  intros ptr s. eexists. split; [done|]. simpl. by rewrite lookup_insert_eq.
Qed.

(** C9, as stated, fails: when the only handle of an object goes away, the
    control block is freed first and the object is destroyed second. *)
Lemma C9_block_freed_first_counterexample :
  let s := state_after [S_raw 0 (Some 7%positive); S_dtor 0] in
  run [S_raw 0 (Some 7%positive); S_dtor 0] init = Some s ∧
  log s = [EvDeleteCounter 1; EvDeletePtr 1 7] ∧
  ¬ precedes (EvDeletePtr 1 7) (EvDeleteCounter 1) (log s).
Proof.
  vm_compute state_after. split; [vm_compute; reflexivity|]. split; [reflexivity|].
  simpl. intros (l1 & l2 & l3 & H).
  destruct l1 as [|e1 [|e2 l1]]; simpl in H; inversion H as [[He Ht]].
  - by destruct l2.
  - by destruct l1.
Qed.

(** C9, amended: a [SharedPtr] release that frees the control block of a
    managed object does so before it destroys the object; nothing else
    happens in between. *)
Theorem C9_block_freed_before_object (this : Handle) (c p : loc) (s s' : State) :
  counter this = Some c → ptr_ this = Some p →
  SharedPtr.DecreaseAndDelete this s = Ok () s' → heap s' !! c = None →
  log s' = log s ++ [EvDeleteCounter c; EvDeletePtr c p] ∧
  precedes (EvDeleteCounter c) (EvDeletePtr c p) (log s').
Proof.
  intros Hc Hp HD Hfree.
  destruct (SDD_shape this c s s' Hc HD) as (b & Hb & _ & _ & _ & Hcases).
  rewrite Hp in Hcases. simpl in Hcases.
  destruct Hcases as [(_ & _ & _ & Hlog)|[(_ & _ & Hheap & _)|(_ & Hheap & _)]].
  - split; [done|]. exists (log s), [], []. by rewrite Hlog.
  - by rewrite Hheap, lookup_insert_eq in Hfree.
  - by rewrite Hheap, lookup_insert_eq in Hfree.
Qed.

Lemma C9_witness :
  let s := state_after [S_raw 0 (Some 7%positive)] in
  let s' := state_after [S_raw 0 (Some 7%positive); S_dtor 0] in
  let h := mkHandle (Some 7%positive) (Some 1%positive) in
  (counter h = Some 1%positive ∧ ptr_ h = Some 7%positive ∧
   SharedPtr.DecreaseAndDelete h s = Ok () (set_sp (insert 0%nat h) s') ∧
   heap (set_sp (insert 0%nat h) s') !! 1%positive = None) ∧
  log (set_sp (insert 0%nat h) s') = log s ++ [EvDeleteCounter 1; EvDeletePtr 1 7] ∧
  precedes (EvDeleteCounter 1) (EvDeletePtr 1 7) (log (set_sp (insert 0%nat h) s')).
Proof.
  intros s s' h.
  assert (counter h = Some 1%positive) as H1 by reflexivity.
  assert (ptr_ h = Some 7%positive) as H2 by reflexivity.
  assert (SharedPtr.DecreaseAndDelete h s = Ok () (set_sp (insert 0%nat h) s')) as H3
    by (vm_compute; reflexivity).
  assert (heap (set_sp (insert 0%nat h) s') !! 1%positive = None) as H4
    by (vm_compute; reflexivity).
  split; [by repeat split|].
  exact (C9_block_freed_before_object h 1 7 s _ H1 H2 H3 H4).
Defined.

(** C10: the copy constructor goes through [counter] unguarded: it faults on
    a source without control block and succeeds on any source whose block is
    allocated; copy assignment and the conversions between the two classes
    test for null and never take that branch.  Default-constructed and
    moved-from sources reach the fault. *)
Theorem C10_copy_ctor_needs_control_block :
  (∀ other s, counter other = None → SharedPtr.ctor_copy other s = UB NullDeref) ∧
  (∀ other s c b, counter other = Some c → heap s !! c = Some b →
     ∃ s', SharedPtr.ctor_copy other s = Ok (mkHandle (ptr_ other) (Some c)) s') ∧
  (∀ this other s h sD ho,
     this ≠ other → sp s !! this = Some h →
     SharedPtr.DecreaseAndDelete h s = Ok () sD →
     sp s !! other = Some ho → counter ho = None →
     SharedPtr.assign this other s =
       Ok () (set_sp (insert this (mkHandle (ptr_ ho) None)) sD)) ∧
  (∀ other s, counter other = None →
     WeakPtr.ctor_from_shared other s = Ok (mkHandle (ptr_ other) None) s) ∧
  (∀ other s, counter other = None →
     SharedPtr_ctor_from_weak other s = Throw bad_weak_ptr s) ∧
  exec (S_copy 1 0) (state_after [S_default 0]) = UB NullDeref ∧
  exec (S_copy 2 0) (state_after [S_raw 0 (Some 7%positive); S_move 1 0]) = UB NullDeref.
Proof.
  split; [|split; [|split; [|split; [|split; [|split]]]]].
  - intros other s Hc. unfold SharedPtr.ctor_copy, bind. by rewrite Hc.
  - intros other s c b Hc Hb. unfold SharedPtr.ctor_copy. rewrite Hc. simpl.
    unfold incr_shared.
    rewrite (bind_run _ _ s c s) by done.
    erewrite bind_run; [|erewrite bind_run; [|by apply load_run]; by eapply store_run].
    eauto.
  - intros this other s h sD ho Hne Hthis HD Hother Hc.
    unfold SharedPtr.assign. rewrite decide_False by done.
    rewrite (bind_run _ _ s h s) by (unfold get_sp; by rewrite Hthis).
    rewrite (bind_run _ _ s () sD) by done.
    assert (sp sD = sp s) as Hsp.
    { destruct (counter h) as [c|] eqn:Hh.
      - by destruct (SDD_shape h c s sD Hh HD) as (_ & _ & ? & _).
      - by rewrite (SDD_null h s sD Hh HD). }
    rewrite (bind_run _ _ sD ho sD) by (unfold get_sp; by rewrite Hsp, Hother).
    rewrite Hc. reflexivity.
  - intros other s Hc. unfold WeakPtr.ctor_from_shared. by rewrite Hc.
  - intros other s Hc. apply promotion_throws. unfold WeakPtr.Expired. by rewrite Hc.
  - vm_compute. reflexivity.
  - vm_compute. reflexivity.
Qed.

Lemma C10_witness :
  let empty := state_after [S_default 0] in
  let s := state_after [S_raw 0 (Some 7%positive); S_default 1] in
  let h := mkHandle (Some 7%positive) (Some 1%positive) in
  let sD := from_option id init (after (SharedPtr.DecreaseAndDelete h s)) in
  (counter null_handle = None ∧
   SharedPtr.ctor_copy null_handle empty = UB NullDeref) ∧
  (counter h = Some 1%positive ∧ heap s !! 1%positive = Some (mkCounter 1 0) ∧
   ∃ s', SharedPtr.ctor_copy h s = Ok (mkHandle (ptr_ h) (Some 1%positive)) s') ∧
  (0%nat ≠ 1%nat ∧ sp s !! 0%nat = Some h ∧
   SharedPtr.DecreaseAndDelete h s = Ok () sD ∧
   sp s !! 1%nat = Some null_handle ∧ counter null_handle = None ∧
   SharedPtr.assign 0 1 s =
     Ok () (set_sp (insert 0%nat (mkHandle (ptr_ null_handle) None)) sD)) ∧
  WeakPtr.ctor_from_shared null_handle empty =
    Ok (mkHandle (ptr_ null_handle) None) empty ∧
  SharedPtr_ctor_from_weak null_handle empty = Throw bad_weak_ptr empty.
Proof.
  intros empty s h sD.
  destruct C10_copy_ctor_needs_control_block as (T1 & T2 & T3 & T4 & T5 & _).
  assert (counter null_handle = None) as N by reflexivity.
  assert (counter h = Some 1%positive) as H1 by reflexivity.
  assert (heap s !! 1%positive = Some (mkCounter 1 0)) as H2 by (vm_compute; reflexivity).
  assert (0%nat ≠ 1%nat) as H3 by discriminate.
  assert (sp s !! 0%nat = Some h) as H4 by (vm_compute; reflexivity).
  assert (SharedPtr.DecreaseAndDelete h s = Ok () sD) as H5 by (vm_compute; reflexivity).
  assert (sp s !! 1%nat = Some null_handle) as H6 by (vm_compute; reflexivity).
  split; [split; [exact N|exact (T1 null_handle empty N)]|].
  split; [split; [exact H1|split; [exact H2|exact (T2 h s _ _ H1 H2)]]|].
  split; [|split; [exact (T4 null_handle empty N)|exact (T5 null_handle empty N)]].
  split; [exact H3|]. split; [exact H4|]. split; [exact H5|].
  split; [exact H6|]. split; [exact N|].
  exact (T3 0%nat 1%nat s h sD null_handle H3 H4 H5 H6 N).
Defined.

(** * Further properties

    Properties of the same embedding beyond the claims: what runs maintain,
    round trips, how the operations compose, and what no step does.  Claims
    C6 and C7 are proved here, next to the lemmas they use. *)

(** ** States, runs and histories *)

Lemma State_eq s t :
  heap s = heap t → brk s = brk t → sp s = sp t → wp s = wp t → log s = log t →
  s = t.
Proof. destruct s, t; simpl; by intros -> -> -> -> ->. Qed.

Lemma run_log ops s s' :
  Inv s → run ops s = Some s' → ∃ evs, log s' = log s ++ evs.
Proof.
  revert s. induction ops as [|op ops IH]; intros s HI H; simpl in H.
  - injection H as <-. exists []. by rewrite app_nil_r.
  - destruct (after (exec op s)) as [s1|] eqn:E; [|done].
    destruct (fits s1) eqn:Hfit; [|done].
    destruct (exec_spec op s s1 HI E Hfit) as (HI1 & evs1 & Hlog1 & _).
    destruct (IH s1 HI1 H) as [evs2 Hlog2].
    exists (evs1 ++ evs2). by rewrite Hlog2, Hlog1, app_assoc.
Qed.

Lemma Lock_expired h s :
  WeakPtr.Expired h s = Some true →
  ∃ h' s', WeakPtr_Lock h s = Ok h' s' ∧ SharedPtr.to_bool h' s' = Some false.
Proof.
  intros He. unfold WeakPtr_Lock.
  rewrite (bind_run _ _ s true s) by (unfold read; by rewrite He).
  eexists _, _. split; [done|].
  unfold SharedPtr.to_bool. simpl. by rewrite lookup_insert_eq.
Qed.

(** ** Live and destroyed objects *)

(** X1: a live [SharedPtr] that manages an object never dangles: along every
    run its control block is allocated with a strong count of at least one,
    the handle tests true, and no [delete ptr_] has been run through that
    block. *)
Theorem managing_handle_is_live ops s v h p :
  run ops init = Some s → sp s !! v = Some h → ptr_ h = Some p →
  ∃ c b, counter h = Some c ∧ heap s !! c = Some b ∧
         1 ≤ shared_count_ b ∧
         SharedPtr.to_bool h s = Some true ∧
         destroyed c (log s) = 0%nat.
Proof.
  intros Hrun Hv Hp.
  assert (Inv s) as HI by (eapply run_Inv; eauto using Inv_init).
  assert (ptr_ h ≠ None) as Hnn by congruence.
  destruct (inv_counts s HI h) as (c & Hc & Hcnt); eauto using holds_sp.
  destruct (inv_alloc s HI v h c Hv Hnn Hc) as [b Hb].
  pose proof (refs_pos (sp s) v h c Hv Hc) as Hpos.
  pose proof (Hcnt b Hb) as Hn.
  exists c, b. split; [done|]. split; [done|]. split; [lia|]. split.
  - unfold SharedPtr.to_bool. rewrite Hc, Hb. simpl.
    destruct (shared_count_ b =? 0) eqn:E; [apply Z.eqb_eq in E; lia|done].
  - destruct (destroyed c (log s)) as [|n] eqn:E; [done|].
    destruct (destroyed_pos c (log s)) as [q Hq]; [lia|].
    destruct (inv_log s HI c q Hq) as (_ & Hz & _). lia.
Qed.

Lemma managing_handle_is_live_witness :
  let s := state_after (owner_and_observer ++ [S_copy 1 0]) in
  let h := mkHandle (Some 7%positive) (Some 1%positive) in
  run (owner_and_observer ++ [S_copy 1 0]) init = Some s ∧
  sp s !! 1%nat = Some h ∧ ptr_ h = Some 7%positive ∧
  ∃ c b, counter h = Some c ∧ heap s !! c = Some b ∧
         1 ≤ shared_count_ b ∧
         SharedPtr.to_bool h s = Some true ∧
         destroyed c (log s) = 0%nat.
Proof.
  intros s h.
  assert (run (owner_and_observer ++ [S_copy 1 0]) init = Some s) as H1
    by (vm_compute; reflexivity).
  assert (sp s !! 1%nat = Some h) as H2 by (vm_compute; reflexivity).
  assert (ptr_ h = Some 7%positive) as H3 by reflexivity.
  split; [exact H1|]. split; [exact H2|]. split; [exact H3|].
  exact (managing_handle_is_live _ s 1%nat h 7%positive H1 H2 H3).
Defined.

(** X2: along every run a [WeakPtr] on an object whose control block is
    allocated reports, through [UseCount], the number of live [SharedPtr]
    objects on that block, and [Expired] is true exactly when there is
    none. *)
Theorem weak_handle_observes_strong_handles ops s w h c :
  run ops init = Some s → wp s !! w = Some h → ptr_ h ≠ None →
  counter h = Some c → is_Some (heap s !! c) →
  WeakPtr.UseCount h s = Some (Z.of_nat (refs (sp s) c)) ∧
  WeakPtr.Expired h s = Some (bool_decide (refs (sp s) c = 0%nat)).
Proof.
  intros Hrun Hw Hp Hc [b Hb].
  assert (Inv s) as HI by (eapply run_Inv; eauto using Inv_init).
  pose proof (Inv_block s h c b HI (holds_wp s w h Hw) Hc Hp Hb) as Hn.
  unfold WeakPtr.UseCount, WeakPtr.Expired. rewrite Hc, Hb. simpl.
  split; [by rewrite Hn|]. f_equal. rewrite Hn.
  case_bool_decide as E.
  - rewrite E. done.
  - apply Z.eqb_neq. lia.
Qed.

Lemma weak_handle_observes_strong_handles_witness :
  let ops := owner_and_observer ++ [S_copy 1 0; S_dtor 0] in
  let s := state_after ops in
  let h := mkHandle (Some 7%positive) (Some 1%positive) in
  run ops init = Some s ∧ wp s !! 0%nat = Some h ∧ ptr_ h ≠ None ∧
  counter h = Some 1%positive ∧ is_Some (heap s !! 1%positive) ∧
  WeakPtr.UseCount h s = Some (Z.of_nat (refs (sp s) 1%positive)) ∧
  WeakPtr.Expired h s = Some (bool_decide (refs (sp s) 1%positive = 0%nat)).
Proof.
  intros ops s h.
  assert (run ops init = Some s) as H1 by (vm_compute; reflexivity).
  assert (wp s !! 0%nat = Some h) as H2 by (vm_compute; reflexivity).
  assert (ptr_ h ≠ None) as H3 by (simpl; discriminate).
  assert (counter h = Some 1%positive) as H4 by reflexivity.
  assert (is_Some (heap s !! 1%positive)) as H5 by (vm_compute; eexists; reflexivity).
  split; [exact H1|]. split; [exact H2|]. split; [exact H3|].
  split; [exact H4|]. split; [exact H5|].
  exact (weak_handle_observes_strong_handles ops s 0%nat h 1%positive H1 H2 H3 H4 H5).
Defined.

(** X3: once the object of a control block has been destroyed it is never
    handed out again: in every later state of the run no [SharedPtr] is on
    that block, every [WeakPtr] on it (the block still allocated) is
    expired, promoting it throws and [Lock] returns a handle that tests
    false. *)
Theorem destroyed_object_is_never_revived ops more s s' c p w h :
  run ops init = Some s → EvDeletePtr c p ∈ log s → run more s = Some s' →
  wp s' !! w = Some h → counter h = Some c → is_Some (heap s' !! c) →
  (∀ v h', sp s' !! v = Some h' → counter h' ≠ Some c) ∧
  WeakPtr.Expired h s' = Some true ∧
  SharedPtr_ctor_from_weak h s' = Throw bad_weak_ptr s' ∧
  ∃ h' t, WeakPtr_Lock h s' = Ok h' t ∧ SharedPtr.to_bool h' t = Some false.
Proof.
  intros Hrun Hev Hmore Hw Hc [b Hb].
  assert (Inv s) as HI by (eapply run_Inv; eauto using Inv_init).
  assert (Inv s') as HI' by (eapply run_Inv; eauto).
  destruct (run_log more s s' HI Hmore) as [evs Hlog].
  assert (EvDeletePtr c p ∈ log s') as Hev'.
  { rewrite Hlog. apply elem_of_app. by left. }
  destruct (inv_log s' HI' c p Hev') as (_ & Hrefs & Hzero & _).
  assert (WeakPtr.Expired h s' = Some true) as He.
  { unfold WeakPtr.Expired. rewrite Hc, Hb. simpl. by rewrite (Hzero b Hb). }
  split; [|split; [done|split]].
  - intros v h' Hv. by apply (refs_zero (sp s') v h' c).
  - by apply promotion_throws.
  - by apply Lock_expired.
Qed.

Lemma destroyed_object_is_never_revived_witness :
  let ops := owner_and_observer ++ [S_dtor 0] in
  let more := [W_copy 1 0; S_raw 0 (Some 9%positive)] in
  let s := state_after ops in
  let s' := state_after (ops ++ more) in
  let h := mkHandle (Some 7%positive) (Some 1%positive) in
  (run ops init = Some s ∧ EvDeletePtr 1 7 ∈ log s ∧ run more s = Some s' ∧
   wp s' !! 1%nat = Some h ∧ counter h = Some 1%positive ∧
   is_Some (heap s' !! 1%positive)) ∧
  (∀ v h', sp s' !! v = Some h' → counter h' ≠ Some 1%positive) ∧
  WeakPtr.Expired h s' = Some true ∧
  SharedPtr_ctor_from_weak h s' = Throw bad_weak_ptr s' ∧
  ∃ h' t, WeakPtr_Lock h s' = Ok h' t ∧ SharedPtr.to_bool h' t = Some false.
Proof.
  intros ops more s s' h.
  assert (run ops init = Some s) as H1 by (vm_compute; reflexivity).
  assert (EvDeletePtr 1 7 ∈ log s) as H2 by (vm_compute; apply list_elem_of_singleton; reflexivity).
  assert (run more s = Some s') as H3 by (vm_compute; reflexivity).
  assert (wp s' !! 1%nat = Some h) as H4 by (vm_compute; reflexivity).
  assert (counter h = Some 1%positive) as H5 by reflexivity.
  assert (is_Some (heap s' !! 1%positive)) as H6 by (vm_compute; eexists; reflexivity).
  split; [by repeat split|].
  exact (destroyed_object_is_never_revived ops more s s' 1 7 1%nat h H1 H2 H3 H4 H5 H6).
Defined.

(** X4: the only client step that throws is the construction of a [SharedPtr]
    from an expired [WeakPtr]; it throws [bad_weak_ptr] before anything is
    written, so the state is the one before the call.  No other constructor,
    assignment, [Reset], [Swap], [Lock] or destructor throws. *)
Theorem only_promotion_throws op s e t :
  exec op s = Throw e t →
  t = s ∧ e = bad_weak_ptr ∧
  ∃ v w h, op = S_from_weak v w ∧ sp s !! v = None ∧ wp s !! w = Some h ∧
           WeakPtr.Expired h s = Some true.
Proof.
  intros H.
  assert (e = bad_weak_ptr) as He by by destruct e.
  destruct op; try (exfalso; by apply exec_nothrow in H).
  - simpl in H. unfold declare_sp in H.
    destruct (sp s !! v) eqn:Hv; [done|].
    unfold bind in H. unfold get_wp in H. destruct (wp s !! w) as [h|] eqn:Hw; [|done].
    destruct (SharedPtr_ctor_from_weak h s) as [a s1|e' s1|] eqn:E; [done| |done].
    assert (s1 = t) as -> by congruence.
    apply ctor_from_weak_Throw in E as [-> Hexp].
    split; [done|]. split; [done|]. by exists v, w, h.
  - exfalso. simpl in H. unfold declare_sp in H. destruct (sp s !! v); [done|].
    unfold bind in H. unfold get_wp in H. destruct (wp s !! w) as [h|]; [|done].
    unfold WeakPtr_Lock, bind, read in H.
    destruct (WeakPtr.Expired h s) as [[]|] eqn:E; [done| |done].
    destruct (SharedPtr_ctor_from_weak h s) as [a s1|e' s1|] eqn:E'; [done| |done].
    apply ctor_from_weak_Throw in E' as [_ ?]. congruence.
Qed.

Lemma only_promotion_throws_witness :
  let s := state_after (owner_and_observer ++ [S_dtor 0]) in
  exec (S_from_weak 1 0) s = Throw bad_weak_ptr s ∧
  s = s ∧ bad_weak_ptr = bad_weak_ptr ∧
  ∃ v w h, S_from_weak 1 0 = S_from_weak v w ∧ sp s !! v = None ∧ wp s !! w = Some h ∧
           WeakPtr.Expired h s = Some true.
Proof.
  intros s.
  assert (exec (S_from_weak 1 0) s = Throw bad_weak_ptr s) as H by (vm_compute; reflexivity).
  split; [exact H|].
  exact (only_promotion_throws (S_from_weak 1 0) s bad_weak_ptr s H).
Defined.

(** ** Temporary handles *)

Ltac unfold_ops :=
  unfold declare_sp, declare_wp, declare_wp_from,
    SharedPtr.ctor_default, SharedPtr.ctor_raw, SharedPtr.ctor_copy,
    SharedPtr.ctor_move, SharedPtr.dtor, SharedPtr.assign, SharedPtr.move_assign,
    SharedPtr.Reset, SharedPtr.Swap,
    WeakPtr.ctor_default, WeakPtr.ctor_copy, WeakPtr.ctor_move,
    WeakPtr.ctor_from_shared, WeakPtr.ctor_raw, WeakPtr.ctor_conv_move,
    WeakPtr.dtor, WeakPtr.assign, WeakPtr.move_assign,
    WeakPtr.Swap, WeakPtr.Reset, WeakPtr_Lock, SharedPtr_ctor_from_weak,
    incr_shared_if, incr_weak_if, incr_shared, incr_weak, decr_weak, decr_shared,
    load, deref, read, store, get_sp, get_wp, put_sp, put_wp, new_Counter, bind, ret.

Ltac unfold_ops_in H :=
  unfold declare_sp, declare_wp, declare_wp_from,
    SharedPtr.ctor_default, SharedPtr.ctor_raw, SharedPtr.ctor_copy,
    SharedPtr.ctor_move, SharedPtr.dtor, SharedPtr.assign, SharedPtr.move_assign,
    SharedPtr.Reset, SharedPtr.Swap,
    WeakPtr.ctor_default, WeakPtr.ctor_copy, WeakPtr.ctor_move,
    WeakPtr.ctor_from_shared, WeakPtr.ctor_raw, WeakPtr.ctor_conv_move,
    WeakPtr.dtor, WeakPtr.assign, WeakPtr.move_assign,
    WeakPtr.Swap, WeakPtr.Reset, WeakPtr_Lock, SharedPtr_ctor_from_weak,
    incr_shared_if, incr_weak_if, incr_shared, incr_weak, decr_weak, decr_shared,
    load, deref, read, store, get_sp, get_wp, put_sp, put_wp, new_Counter, bind, ret in H.

Lemma Counter_eta b : mkCounter (shared_count_ b) (weak_count_ b) = b.
Proof. by destruct b. Qed.

Lemma S_copy_run s v o h c b :
  sp s !! v = None → sp s !! o = Some h → counter h = Some c → heap s !! c = Some b →
  exec (S_copy v o) s =
    Ok () (set_sp (insert v h)
             (set_heap (insert c (mkCounter (size_incr (shared_count_ b)) (weak_count_ b))) s)).
Proof.
  intros Hv Ho Hc Hb. simpl. unfold_ops. rewrite Hv, Ho, Hc. simpl. rewrite Hb. simpl.
  rewrite Hb. rewrite <- Hc, handle_eta. done.
Qed.

Lemma SDD_keep h c b s :
  counter h = Some c → heap s !! c = Some b → 1 < shared_count_ b < SIZE_MODULUS →
  SharedPtr.DecreaseAndDelete h s =
    Ok () (set_heap (insert c (mkCounter (shared_count_ b - 1) (weak_count_ b))) s).
Proof.
  intros Hc Hb Hn. unfold SharedPtr.DecreaseAndDelete. rewrite Hc. unfold_ops.
  rewrite Hb. assert ((0 <? shared_count_ b) = true) as -> by (apply Z.ltb_lt; lia).
  rewrite Hb. simpl. rewrite Hb. simpl. rewrite lookup_insert_eq. simpl.
  rewrite size_decr_small by lia.
  assert ((shared_count_ b - 1 =? 0) = false) as -> by (apply Z.eqb_neq; lia).
  done.
Qed.

Lemma WDD_keep h c b s :
  counter h = Some c → heap s !! c = Some b → 0 < weak_count_ b < SIZE_MODULUS →
  weak_count_ b ≠ 1 ∨ shared_count_ b ≠ 0 →
  WeakPtr.DecreaseAndDelete h s =
    Ok () (set_heap (insert c (mkCounter (shared_count_ b) (weak_count_ b - 1))) s).
Proof.
  intros Hc Hb Hn Hor. unfold WeakPtr.DecreaseAndDelete. rewrite Hc. unfold_ops.
  rewrite Hb. assert ((0 <? weak_count_ b) = true) as -> by (apply Z.ltb_lt; lia).
  rewrite Hb. simpl. rewrite Hb. simpl. rewrite lookup_insert_eq. simpl.
  rewrite size_decr_small by lia.
  destruct (weak_count_ b - 1 =? 0) eqn:E1; [|done].
  destruct (shared_count_ b =? 0) eqn:E2; [|done].
  apply Z.eqb_eq in E1, E2. lia.
Qed.

Lemma heap_restore (m : gmap loc Counter) c b b1 b2 :
  m !! c = Some b → b2 = b → <[c:=b2]> (<[c:=b1]> m) = m.
Proof. intros Hb ->. by rewrite insert_insert_eq, insert_id. Qed.

(** X5: a temporary copy of a [SharedPtr] is invisible afterwards: copying a
    handle whose block has a strong count of at least one raises the count
    by one, and destroying the copy gives back the state before the copy. *)
Theorem strong_copy_then_release_restores s v o h c b :
  sp s !! v = None → sp s !! o = Some h → counter h = Some c →
  heap s !! c = Some b → 1 ≤ shared_count_ b < SIZE_MAX →
  ∃ s1, exec (S_copy v o) s = Ok () s1 ∧
        sp s1 !! v = Some h ∧
        strong_count s1 c = Some (shared_count_ b + 1) ∧
        exec (S_dtor v) s1 = Ok () s.
Proof.
  intros Hv Ho Hc Hb Hn. unfold SIZE_MAX in Hn.
  eexists. split; [by apply (S_copy_run s v o h c b)|].
  split; [simpl; by rewrite lookup_insert_eq|].
  split.
  { unfold strong_count. simpl. rewrite lookup_insert_eq. simpl.
    by rewrite size_incr_small by lia. }
  erewrite S_dtor_run; [| simpl; by rewrite lookup_insert_eq |].
  2: { apply (SDD_keep h c (mkCounter (size_incr (shared_count_ b)) (weak_count_ b)));
         [done|simpl; by rewrite lookup_insert_eq|].
       simpl. rewrite size_incr_small by lia. lia. }
  f_equal. apply State_eq; simpl; try done.
  - apply (heap_restore _ _ b); [done|]. rewrite size_incr_small by lia.
    replace (shared_count_ b + 1 - 1) with (shared_count_ b) by lia. apply Counter_eta.
  - by apply delete_insert_id.
Qed.

Lemma strong_copy_then_release_restores_witness :
  let s := state_after owner_and_observer in
  let h := mkHandle (Some 7%positive) (Some 1%positive) in
  let b := mkCounter 1 1 in
  sp s !! 1%nat = None ∧ sp s !! 0%nat = Some h ∧ counter h = Some 1%positive ∧
  heap s !! 1%positive = Some b ∧ 1 ≤ shared_count_ b < SIZE_MAX ∧
  ∃ s1, exec (S_copy 1 0) s = Ok () s1 ∧
        sp s1 !! 1%nat = Some h ∧
        strong_count s1 1%positive = Some (shared_count_ b + 1) ∧
        exec (S_dtor 1) s1 = Ok () s.
Proof.
  intros s h b.
  assert (sp s !! 1%nat = None) as H1 by (vm_compute; reflexivity).
  assert (sp s !! 0%nat = Some h) as H2 by (vm_compute; reflexivity).
  assert (counter h = Some 1%positive) as H3 by reflexivity.
  assert (heap s !! 1%positive = Some b) as H4 by (vm_compute; reflexivity).
  assert (1 ≤ shared_count_ b < SIZE_MAX) as H5
    by (unfold SIZE_MAX, SIZE_MODULUS; simpl; lia).
  split; [exact H1|]. split; [exact H2|]. split; [exact H3|].
  split; [exact H4|]. split; [exact H5|].
  exact (strong_copy_then_release_restores s 1%nat 0%nat h 1%positive b H1 H2 H3 H4 H5).
Defined.

Lemma W_share_run s v h c b :
  wp s !! v = None → counter h = Some c → heap s !! c = Some b →
  let s1 := set_wp (insert v h)
              (set_heap (insert c (mkCounter (shared_count_ b) (size_incr (weak_count_ b)))) s) in
  (∀ o, sp s !! o = Some h → exec (W_from_shared v o) s = Ok () s1) ∧
  (∀ o, wp s !! o = Some h → exec (W_copy v o) s = Ok () s1).
Proof.
  intros Hv Hc Hb s1. split; intros o Ho; simpl; unfold_ops; rewrite Hv, Ho, Hc; simpl;
    rewrite Hb; simpl; rewrite Hb; subst s1; by rewrite <- Hc, handle_eta.
Qed.

(** X6: a temporary [WeakPtr] is invisible afterwards: made from a [SharedPtr]
    or copied from a [WeakPtr] of a block that is in use, it raises the weak
    count by one and leaves the strong count alone, and destroying it gives
    back the state before. *)
Theorem weak_handle_then_release_restores s v h c b :
  wp s !! v = None → counter h = Some c → heap s !! c = Some b →
  0 ≤ weak_count_ b < SIZE_MAX → weak_count_ b ≠ 0 ∨ shared_count_ b ≠ 0 →
  ∃ s1, (∀ o, sp s !! o = Some h → exec (W_from_shared v o) s = Ok () s1) ∧
        (∀ o, wp s !! o = Some h → exec (W_copy v o) s = Ok () s1) ∧
        weak_count s1 c = Some (weak_count_ b + 1) ∧
        strong_count s1 c = Some (shared_count_ b) ∧
        exec (W_dtor v) s1 = Ok () s.
Proof.
  intros Hv Hc Hb Hn Hor. unfold SIZE_MAX in Hn.
  destruct (W_share_run s v h c b Hv Hc Hb) as [H1 H2].
  eexists. split; [exact H1|]. split; [exact H2|].
  split; [|split].
  - unfold weak_count. simpl. rewrite lookup_insert_eq. simpl.
    by rewrite size_incr_small by lia.
  - unfold strong_count. simpl. by rewrite lookup_insert_eq.
  - erewrite W_dtor_run; [| simpl; by rewrite lookup_insert_eq |].
    2: { apply (WDD_keep h c (mkCounter (shared_count_ b) (size_incr (weak_count_ b))));
           [done|simpl; by rewrite lookup_insert_eq| |];
           simpl; rewrite size_incr_small by lia; lia. }
    f_equal. apply State_eq; simpl; try done.
    + apply (heap_restore _ _ b); [done|]. rewrite size_incr_small by lia.
      replace (weak_count_ b + 1 - 1) with (weak_count_ b) by lia. apply Counter_eta.
    + by apply delete_insert_id.
Qed.

Lemma weak_handle_then_release_restores_witness :
  let s := state_after owner_and_observer in
  let h := mkHandle (Some 7%positive) (Some 1%positive) in
  let b := mkCounter 1 1 in
  wp s !! 1%nat = None ∧ counter h = Some 1%positive ∧
  heap s !! 1%positive = Some b ∧ 0 ≤ weak_count_ b < SIZE_MAX ∧
  (weak_count_ b ≠ 0 ∨ shared_count_ b ≠ 0) ∧
  ∃ s1, (∀ o, sp s !! o = Some h → exec (W_from_shared 1 o) s = Ok () s1) ∧
        (∀ o, wp s !! o = Some h → exec (W_copy 1 o) s = Ok () s1) ∧
        weak_count s1 1%positive = Some (weak_count_ b + 1) ∧
        strong_count s1 1%positive = Some (shared_count_ b) ∧
        exec (W_dtor 1) s1 = Ok () s.
Proof.
  intros s h b.
  assert (wp s !! 1%nat = None) as H1 by (vm_compute; reflexivity).
  assert (counter h = Some 1%positive) as H2 by reflexivity.
  assert (heap s !! 1%positive = Some b) as H3 by (vm_compute; reflexivity).
  assert (0 ≤ weak_count_ b < SIZE_MAX) as H4
    by (unfold SIZE_MAX, SIZE_MODULUS; simpl; lia).
  assert (weak_count_ b ≠ 0 ∨ shared_count_ b ≠ 0) as H5 by (left; simpl; lia).
  split; [exact H1|]. split; [exact H2|]. split; [exact H3|].
  split; [exact H4|]. split; [exact H5|].
  exact (weak_handle_then_release_restores s 1%nat h 1%positive b H1 H2 H3 H4 H5).
Defined.

Lemma promote_run s v w h c b :
  sp s !! v = None → wp s !! w = Some h → counter h = Some c →
  heap s !! c = Some b → shared_count_ b ≠ 0 →
  let s1 := set_sp (insert v h)
              (set_heap (insert c (mkCounter (size_incr (shared_count_ b)) (weak_count_ b))) s) in
  exec (W_lock v w) s = Ok () s1 ∧ exec (S_from_weak v w) s = Ok () s1.
Proof.
  intros Hv Hw Hc Hb Hn s1.
  assert ((shared_count_ b =? 0) = false) as Hz by by apply Z.eqb_neq.
  split; simpl; unfold_ops; rewrite Hv, Hw; unfold WeakPtr.Expired; rewrite Hc; simpl;
    rewrite Hb; simpl; rewrite Hz; simpl; rewrite ?Hb; simpl; rewrite ?Hz; simpl;
    rewrite ?Hb; simpl; rewrite ?Hb; subst s1; by rewrite <- Hc, handle_eta.
Qed.

(** X7: [Lock] on a [WeakPtr] that is not expired does what the promoting
    constructor does: the new [SharedPtr] has the fields of the [WeakPtr],
    the strong count is one higher; destroying the new handle gives back
    the state before the call. *)
Theorem lock_then_release_restores s v w h c b :
  sp s !! v = None → wp s !! w = Some h → counter h = Some c →
  heap s !! c = Some b → 1 ≤ shared_count_ b < SIZE_MAX →
  ∃ s1, exec (W_lock v w) s = Ok () s1 ∧
        exec (S_from_weak v w) s = Ok () s1 ∧
        sp s1 !! v = Some h ∧
        strong_count s1 c = Some (shared_count_ b + 1) ∧
        exec (S_dtor v) s1 = Ok () s.
Proof.
  intros Hv Hw Hc Hb Hn. unfold SIZE_MAX in Hn.
  destruct (promote_run s v w h c b Hv Hw Hc Hb) as [H1 H2]; [lia|].
  eexists. split; [exact H1|]. split; [exact H2|].
  split; [simpl; by rewrite lookup_insert_eq|]. split.
  { unfold strong_count. simpl. rewrite lookup_insert_eq. simpl.
    by rewrite size_incr_small by lia. }
  erewrite S_dtor_run; [| simpl; by rewrite lookup_insert_eq |].
  2: { apply (SDD_keep h c (mkCounter (size_incr (shared_count_ b)) (weak_count_ b)));
         [done|simpl; by rewrite lookup_insert_eq|].
       simpl. rewrite size_incr_small by lia. lia. }
  f_equal. apply State_eq; simpl; try done.
  - apply (heap_restore _ _ b); [done|]. rewrite size_incr_small by lia.
    replace (shared_count_ b + 1 - 1) with (shared_count_ b) by lia. apply Counter_eta.
  - by apply delete_insert_id.
Qed.

Lemma lock_then_release_restores_witness :
  let s := state_after owner_and_observer in
  let h := mkHandle (Some 7%positive) (Some 1%positive) in
  let b := mkCounter 1 1 in
  sp s !! 1%nat = None ∧ wp s !! 0%nat = Some h ∧ counter h = Some 1%positive ∧
  heap s !! 1%positive = Some b ∧ 1 ≤ shared_count_ b < SIZE_MAX ∧
  ∃ s1, exec (W_lock 1 0) s = Ok () s1 ∧
        exec (S_from_weak 1 0) s = Ok () s1 ∧
        sp s1 !! 1%nat = Some h ∧
        strong_count s1 1%positive = Some (shared_count_ b + 1) ∧
        exec (S_dtor 1) s1 = Ok () s.
Proof.
  intros s h b.
  assert (sp s !! 1%nat = None) as H1 by (vm_compute; reflexivity).
  assert (wp s !! 0%nat = Some h) as H2 by (vm_compute; reflexivity).
  assert (counter h = Some 1%positive) as H3 by reflexivity.
  assert (heap s !! 1%positive = Some b) as H4 by (vm_compute; reflexivity).
  assert (1 ≤ shared_count_ b < SIZE_MAX) as H5
    by (unfold SIZE_MAX, SIZE_MODULUS; simpl; lia).
  split; [exact H1|]. split; [exact H2|]. split; [exact H3|].
  split; [exact H4|]. split; [exact H5|].
  exact (lock_then_release_restores s 1%nat 0%nat h 1%positive b H1 H2 H3 H4 H5).
Defined.

Lemma swap_back (m : gmap var Handle) v o h ho :
  m !! v = Some h → m !! o = Some ho →
  <[o:=h]> (<[v:=ho]> m) !! v = Some ho ∧ <[o:=h]> (<[v:=ho]> m) !! o = Some h ∧
  <[o:=ho]> (<[v:=h]> (<[o:=h]> (<[v:=ho]> m))) = m.
Proof.
  intros Hv Ho. destruct (decide (v = o)) as [->|Hne].
  - assert (ho = h) as -> by congruence.
    rewrite !insert_insert_eq, lookup_insert_eq. by rewrite insert_id.
  - rewrite lookup_insert_ne, !lookup_insert_eq by done.
    split; [done|]. split; [done|].
    rewrite (insert_insert_ne _ v o) by done.
    rewrite !insert_insert_eq.
    rewrite (insert_id _ v) by done. by rewrite insert_id.
Qed.

(** X8: [Swap] exchanges the two handles and touches nothing else: no control
    block and no other handle changes, nothing is deleted, and swapping
    again gives back the state before.  The same holds for both classes. *)
Theorem swap_exchanges_and_undoes s s1 v o :
  (exec (S_swap v o) s = Ok () s1 →
     heap s1 = heap s ∧ log s1 = log s ∧ wp s1 = wp s ∧
     sp s1 !! v = sp s !! o ∧ sp s1 !! o = sp s !! v ∧
     (∀ x, x ≠ v → x ≠ o → sp s1 !! x = sp s !! x) ∧
     exec (S_swap v o) s1 = Ok () s) ∧
  (exec (W_swap v o) s = Ok () s1 →
     heap s1 = heap s ∧ log s1 = log s ∧ sp s1 = sp s ∧
     wp s1 !! v = wp s !! o ∧ wp s1 !! o = wp s !! v ∧
     (∀ x, x ≠ v → x ≠ o → wp s1 !! x = wp s !! x) ∧
     exec (W_swap v o) s1 = Ok () s).
Proof.
  split; intros H; simpl in H.
  - unfold_ops_in H. destruct (sp s !! v) as [h|] eqn:Hv; [|done].
    destruct (sp s !! o) as [ho|] eqn:Ho; [|done]. injection H as <-.
    rewrite !handle_eta. simpl.
    destruct (swap_back (sp s) v o h ho) as (E1 & E2 & E3); [done..|].
    split; [done|]. split; [done|]. split; [done|]. split; [congruence|].
    split; [by rewrite lookup_insert_eq|].
    split; [intros y ? ?; by rewrite !lookup_insert_ne by done|].
    unfold_ops. simpl. rewrite E1. simpl. rewrite E2. simpl. rewrite !handle_eta. f_equal.
    apply State_eq; simpl; try done.
  - unfold_ops_in H. destruct (wp s !! v) as [h|] eqn:Hv; [|done].
    destruct (wp s !! o) as [ho|] eqn:Ho; [|done]. injection H as <-.
    rewrite !handle_eta. simpl.
    destruct (swap_back (wp s) v o h ho) as (E1 & E2 & E3); [done..|].
    split; [done|]. split; [done|]. split; [done|]. split; [congruence|].
    split; [by rewrite lookup_insert_eq|].
    split; [intros y ? ?; by rewrite !lookup_insert_ne by done|].
    unfold_ops. simpl. rewrite E1. simpl. rewrite E2. simpl. rewrite !handle_eta. f_equal.
    apply State_eq; simpl; try done.
Qed.

Lemma swap_exchanges_and_undoes_witness :
  let s := state_after (owner_and_observer ++ [S_default 1; W_default 1]) in
  let s1 := state_after (owner_and_observer ++ [S_default 1; W_default 1; S_swap 0 1]) in
  let s2 := state_after (owner_and_observer ++ [S_default 1; W_default 1; W_swap 0 1]) in
  (exec (S_swap 0 1) s = Ok () s1 ∧
     heap s1 = heap s ∧ log s1 = log s ∧ wp s1 = wp s ∧
     sp s1 !! 0%nat = sp s !! 1%nat ∧ sp s1 !! 1%nat = sp s !! 0%nat ∧
     (∀ x, x ≠ 0%nat → x ≠ 1%nat → sp s1 !! x = sp s !! x) ∧
     exec (S_swap 0 1) s1 = Ok () s) ∧
  (exec (W_swap 0 1) s = Ok () s2 ∧
     heap s2 = heap s ∧ log s2 = log s ∧ sp s2 = sp s ∧
     wp s2 !! 0%nat = wp s !! 1%nat ∧ wp s2 !! 1%nat = wp s !! 0%nat ∧
     (∀ x, x ≠ 0%nat → x ≠ 1%nat → wp s2 !! x = wp s !! x) ∧
     exec (W_swap 0 1) s2 = Ok () s).
Proof.
  intros s s1 s2.
  assert (exec (S_swap 0 1) s = Ok () s1) as H1 by (vm_compute; reflexivity).
  assert (exec (W_swap 0 1) s = Ok () s2) as H2 by (vm_compute; reflexivity).
  split.
  - split; [exact H1|]. exact (proj1 (swap_exchanges_and_undoes s s1 0%nat 1%nat) H1).
  - split; [exact H2|]. exact (proj2 (swap_exchanges_and_undoes s s2 0%nat 1%nat) H2).
Defined.

(** ** Assignments as destructor and constructor *)

Lemma SDD_handles h s u s1 :
  SharedPtr.DecreaseAndDelete h s = Ok u s1 → sp s1 = sp s ∧ wp s1 = wp s ∧ brk s1 = brk s.
Proof.
  destruct u. intros HD. destruct (counter h) as [c|] eqn:Hc.
  - by destruct (SDD_shape h c s s1 Hc HD) as (_ & _ & ? & ? & ? & _).
  - by rewrite (SDD_null h s s1 Hc HD).
Qed.

Lemma WDD_handles h s u s1 :
  WeakPtr.DecreaseAndDelete h s = Ok u s1 → sp s1 = sp s ∧ wp s1 = wp s ∧ brk s1 = brk s.
Proof.
  destruct u. intros HD. destruct (counter h) as [c|] eqn:Hc.
  - by destruct (WDD_shape h c s s1 Hc HD) as (_ & _ & ? & ? & ? & _).
  - by rewrite (WDD_null h s s1 Hc HD).
Qed.

Lemma reinsert_after_move (m : gmap var Handle) v o h :
  v ≠ o → <[o:=null_handle]> (<[v:=h]> m) = <[v:=h]> (<[o:=null_handle]> (delete v m)).
Proof.
  intros Hne. rewrite (insert_insert_ne _ v o) by done.
  by rewrite insert_delete_eq.
Qed.

Lemma S_move_assign_seq s v o :
  v ≠ o → exec (S_move_assign v o) s = (exec (S_dtor v);;; exec (S_move v o)) s.
Proof.
  intros Hne. simpl. unfold SharedPtr.move_assign. rewrite decide_False by done.
  unfold SharedPtr.dtor, declare_sp, SharedPtr.ctor_move, bind, get_sp, put_sp, ret.
  destruct (sp s !! v) as [h|] eqn:Hv; [|done].
  destruct (SharedPtr.DecreaseAndDelete h s) as [[] sD|e sD|f] eqn:HD; [|done..].
  destruct (SDD_handles h s () sD HD) as (Hsp & _). simpl.
  rewrite lookup_delete_eq, lookup_delete_ne, Hsp by done.
  destruct (sp s !! o) as [ho|] eqn:Ho; [|done]. simpl. f_equal.
  apply State_eq; simpl; try done. by apply reinsert_after_move.
Qed.

Lemma S_reset_seq s v p :
  exec (S_reset v p) s = (exec (S_dtor v);;; exec (S_raw v p)) s.
Proof.
  simpl. unfold SharedPtr.Reset.
  unfold SharedPtr.dtor, declare_sp, SharedPtr.ctor_raw, bind, get_sp, put_sp, ret, new_Counter.
  destruct (sp s !! v) as [h|] eqn:Hv; [|done].
  destruct (SharedPtr.DecreaseAndDelete h s) as [[] sD|e sD|f] eqn:HD; [|done..].
  simpl. rewrite lookup_delete_eq. f_equal.
  apply State_eq; simpl; try done. by rewrite insert_delete_eq.
Qed.

Lemma S_assign_seq s v o ho c :
  v ≠ o → sp s !! o = Some ho → counter ho = Some c →
  exec (S_assign v o) s = (exec (S_dtor v);;; exec (S_copy v o)) s.
Proof.
  intros Hne Ho Hc. simpl. unfold SharedPtr.assign. rewrite decide_False by done.
  unfold SharedPtr.dtor, declare_sp, SharedPtr.ctor_copy, bind, get_sp, put_sp, ret.
  destruct (sp s !! v) as [h|] eqn:Hv; [|done].
  destruct (SharedPtr.DecreaseAndDelete h s) as [[] sD|e sD|f] eqn:HD; [|done..].
  destruct (SDD_handles h s () sD HD) as (Hsp & _). simpl.
  rewrite lookup_delete_eq, lookup_delete_ne, Hsp, Ho, Hc by done. simpl.
  unfold incr_shared, bind, load, read, store. simpl.
  destruct (heap sD !! c) as [b|] eqn:Hb; [|done]. simpl. rewrite Hb. f_equal.
  apply State_eq; simpl; try done. by rewrite insert_delete_eq.
Qed.

(** X9: assignment and [Reset] on a [SharedPtr] are the destructor followed by
    the matching constructor, run in place: move assignment is destroy then
    move-construct, [Reset(p)] is destroy then construct from [p], and copy
    assignment from a handle that has a control block is destroy then
    copy-construct; the outcomes agree, faults included. *)
Theorem strong_assignment_is_destroy_then_construct s v o :
  v ≠ o →
  exec (S_move_assign v o) s = (exec (S_dtor v);;; exec (S_move v o)) s ∧
  (∀ p, exec (S_reset v p) s = (exec (S_dtor v);;; exec (S_raw v p)) s) ∧
  (∀ ho c, sp s !! o = Some ho → counter ho = Some c →
     exec (S_assign v o) s = (exec (S_dtor v);;; exec (S_copy v o)) s).
Proof.
  intros Hne. split; [by apply S_move_assign_seq|]. split; [intros; apply S_reset_seq|].
  intros ho c Ho Hc. by apply (S_assign_seq s v o ho c).
Qed.

Lemma strong_assignment_is_destroy_then_construct_witness :
  let s := state_after [S_raw 0 (Some 7%positive); S_raw 1 (Some 9%positive)] in
  0%nat ≠ 1%nat ∧
  exec (S_move_assign 0 1) s = (exec (S_dtor 0);;; exec (S_move 0 1)) s ∧
  (∀ p, exec (S_reset 0 p) s = (exec (S_dtor 0);;; exec (S_raw 0 p)) s) ∧
  (∀ ho c, sp s !! 1%nat = Some ho → counter ho = Some c →
     exec (S_assign 0 1) s = (exec (S_dtor 0);;; exec (S_copy 0 1)) s).
Proof.
  intros s. assert (0%nat ≠ 1%nat) as H by discriminate.
  split; [exact H|].
  exact (strong_assignment_is_destroy_then_construct s 0%nat 1%nat H).
Defined.

Lemma W_assign_seq s v o :
  v ≠ o → exec (W_assign v o) s = (exec (W_dtor v);;; exec (W_copy v o)) s.
Proof.
  intros Hne. simpl. unfold WeakPtr.assign. rewrite decide_False by done.
  unfold WeakPtr.dtor, declare_wp, WeakPtr.ctor_copy, bind, get_wp, put_wp, ret.
  destruct (wp s !! v) as [h|] eqn:Hv; [|done].
  destruct (WeakPtr.DecreaseAndDelete h s) as [[] sD|e sD|f] eqn:HD; [|done..].
  destruct (WDD_handles h s () sD HD) as (_ & Hwp & _). simpl.
  rewrite lookup_delete_eq, lookup_delete_ne, Hwp by done.
  destruct (wp s !! o) as [ho|] eqn:Ho; [|done]. simpl.
  destruct (counter ho) as [c|] eqn:Hc; simpl.
  - unfold incr_weak, bind, load, read, store. simpl.
    destruct (heap sD !! c) as [b|] eqn:Hb; [|done]. simpl. rewrite Hb. f_equal.
    apply State_eq; simpl; try done. by rewrite insert_delete_eq.
  - unfold ret. f_equal. apply State_eq; simpl; try done. by rewrite insert_delete_eq.
Qed.

Lemma W_move_assign_seq s v o :
  v ≠ o → exec (W_move_assign v o) s = (exec (W_dtor v);;; exec (W_move v o)) s.
Proof.
  intros Hne. simpl. unfold WeakPtr.move_assign. rewrite decide_False by done.
  unfold WeakPtr.dtor, declare_wp, WeakPtr.ctor_move, bind, get_wp, put_wp, ret.
  destruct (wp s !! v) as [h|] eqn:Hv; [|done].
  destruct (WeakPtr.DecreaseAndDelete h s) as [[] sD|e sD|f] eqn:HD; [|done..].
  destruct (WDD_handles h s () sD HD) as (_ & Hwp & _). simpl.
  rewrite lookup_delete_eq, lookup_delete_ne, Hwp by done.
  destruct (wp s !! o) as [ho|] eqn:Ho; [|done]. simpl. f_equal.
  apply State_eq; simpl; try done. by apply reinsert_after_move.
Qed.

(** X10: the same for [WeakPtr]: copy assignment is destroy then copy-construct
    (whatever the source holds, the weak copy constructor tests for null),
    move assignment is destroy then move-construct. *)
Theorem weak_assignment_is_destroy_then_construct s v o :
  v ≠ o →
  exec (W_assign v o) s = (exec (W_dtor v);;; exec (W_copy v o)) s ∧
  exec (W_move_assign v o) s = (exec (W_dtor v);;; exec (W_move v o)) s.
Proof.
  intros Hne. split; [by apply W_assign_seq|by apply W_move_assign_seq].
Qed.

Lemma weak_assignment_is_destroy_then_construct_witness :
  let s := state_after (owner_and_observer ++ [W_default 1]) in
  0%nat ≠ 1%nat ∧
  exec (W_assign 0 1) s = (exec (W_dtor 0);;; exec (W_copy 0 1)) s ∧
  exec (W_move_assign 0 1) s = (exec (W_dtor 0);;; exec (W_move 0 1)) s.
Proof.
  intros s. assert (0%nat ≠ 1%nat) as H by discriminate.
  split; [exact H|].
  exact (weak_assignment_is_destroy_then_construct s 0%nat 1%nat H).
Defined.

(** X11: a moved-from handle releases nothing: move construction followed by the
    end of the source's lifetime changes no control block and deletes
    nothing; the handle has only changed variable.  The same holds for both
    classes. *)
Theorem moved_from_handle_releases_nothing s v o h :
  (sp s !! v = None → sp s !! o = Some h →
     ∃ s1, exec (S_move v o) s = Ok () s1 ∧ sp s1 !! o = Some null_handle ∧
           exec (S_dtor o) s1 = Ok () (set_sp (λ m, <[v:=h]> (delete o m)) s)) ∧
  (wp s !! v = None → wp s !! o = Some h →
     ∃ s1, exec (W_move v o) s = Ok () s1 ∧ wp s1 !! o = Some null_handle ∧
           exec (W_dtor o) s1 = Ok () (set_wp (λ m, <[v:=h]> (delete o m)) s)).
Proof.
  split; intros Hv Ho.
  - assert (v ≠ o) as Hne by congruence.
    eexists. split; [simpl; unfold_ops; by rewrite Hv, Ho|].
    simpl. rewrite lookup_insert_ne, lookup_insert_eq by done. split; [done|].
    unfold SharedPtr.dtor, bind, get_sp. simpl.
    rewrite lookup_insert_ne, lookup_insert_eq by done. simpl.
    f_equal. apply State_eq; simpl; try done.
    rewrite handle_eta, delete_insert_ne, delete_insert_eq by done. done.
  - assert (v ≠ o) as Hne by congruence.
    eexists. split; [simpl; unfold_ops; by rewrite Hv, Ho|].
    simpl. rewrite lookup_insert_ne, lookup_insert_eq by done. split; [done|].
    unfold WeakPtr.dtor, bind, get_wp. simpl.
    rewrite lookup_insert_ne, lookup_insert_eq by done. simpl.
    f_equal. apply State_eq; simpl; try done.
    rewrite handle_eta, delete_insert_ne, delete_insert_eq by done. done.
Qed.

Lemma moved_from_handle_releases_nothing_witness :
  let s := state_after owner_and_observer in
  let h := mkHandle (Some 7%positive) (Some 1%positive) in
  (sp s !! 1%nat = None ∧ sp s !! 0%nat = Some h ∧
   ∃ s1, exec (S_move 1 0) s = Ok () s1 ∧ sp s1 !! 0%nat = Some null_handle ∧
         exec (S_dtor 0) s1 = Ok () (set_sp (λ m, <[1%nat:=h]> (delete 0%nat m)) s)) ∧
  (wp s !! 1%nat = None ∧ wp s !! 0%nat = Some h ∧
   ∃ s1, exec (W_move 1 0) s = Ok () s1 ∧ wp s1 !! 0%nat = Some null_handle ∧
         exec (W_dtor 0) s1 = Ok () (set_wp (λ m, <[1%nat:=h]> (delete 0%nat m)) s)).
Proof.
  intros s h.
  assert (sp s !! 1%nat = None) as H1 by (vm_compute; reflexivity).
  assert (sp s !! 0%nat = Some h) as H2 by (vm_compute; reflexivity).
  assert (wp s !! 1%nat = None) as H3 by (vm_compute; reflexivity).
  assert (wp s !! 0%nat = Some h) as H4 by (vm_compute; reflexivity).
  split.
  - split; [exact H1|]. split; [exact H2|].
    exact (proj1 (moved_from_handle_releases_nothing s 1%nat 0%nat h) H1 H2).
  - split; [exact H3|]. split; [exact H4|].
    exact (proj2 (moved_from_handle_releases_nothing s 1%nat 0%nat h) H3 H4).
Defined.

(** ** Moves *)









(** ** The accounts of a control block *)

Lemma ind1_eq c : ind1 c c = 1%nat.
Proof. unfold ind1. by rewrite decide_True. Qed.

Lemma ind1_ne c c' : c' ≠ c → ind1 c c' = 0%nat.
Proof. unfold ind1. intros. by rewrite decide_False. Qed.

Lemma Acct_touch strict s s' c :
  Acct strict s →
  (∀ c', c' ≠ c → heap s' !! c' = heap s !! c') →
  (∀ c', c' ≠ c → refs (sp s') c' = refs (sp s) c') →
  (∀ c', c' ≠ c → refs (wp s') c' = refs (wp s) c') →
  acct_at strict s' c → Acct strict s'.
Proof.
  intros HA Hh Hs Hw Hc c'. destruct (decide (c' = c)) as [->|Hne]; [done|].
  unfold acct_at. rewrite Hh, Hs, Hw by done. apply HA.
Qed.

Lemma Acct_same strict s s' :
  Acct strict s → heap s' = heap s →
  (∀ c, refs (sp s') c = refs (sp s) c) → (∀ c, refs (wp s') c = refs (wp s) c) →
  Acct strict s'.
Proof. intros HA Hh Hs Hw c. unfold acct_at. rewrite Hh, Hs, Hw. apply HA. Qed.

Lemma Acct_block strict s c b :
  Acct strict s → heap s !! c = Some b →
  weak_count_ b = Z.of_nat (refs (wp s) c) ∧
  0 ≤ shared_count_ b ≤ Z.of_nat (refs (sp s) c) ∧
  (strict = true → (0 < refs (sp s) c + refs (wp s) c)%nat).
Proof. intros HA Hb. pose proof (HA c) as H. unfold acct_at in H. by rewrite Hb in H. Qed.

Lemma Acct_add_strong strict s v h c b :
  Acct strict s → sp s !! v = None → counter h = Some c → heap s !! c = Some b →
  Z.of_nat (size (sp s)) + 1 < SIZE_MODULUS →
  Acct strict (set_sp (insert v h)
    (set_heap (insert c (mkCounter (size_incr (shared_count_ b)) (weak_count_ b))) s)).
Proof.
  intros HA Hv Hc Hb Hfit. apply (Acct_touch strict s _ c); simpl; [done| | |done|].
  - intros. by rewrite lookup_insert_ne.
  - intros c' Hne. rewrite refs_insert_None by done.
    rewrite (ind_counter h c c' Hc), ind1_ne by done. lia.
  - unfold acct_at. simpl. rewrite lookup_insert_eq. simpl.
    destruct (Acct_block strict s c b HA Hb) as (Hw & Hs & Hu).
    rewrite refs_insert_None by done. rewrite (ind_counter h c c Hc), ind1_eq.
    pose proof (refs_le_size (sp s) c).
    rewrite size_incr_small by lia. split; [done|]. split; [lia|]. intros; lia.
Qed.

Lemma Acct_add_weak strict s v h c b :
  Acct strict s → wp s !! v = None → counter h = Some c → heap s !! c = Some b →
  Z.of_nat (size (wp s)) + 1 < SIZE_MODULUS →
  Acct strict (set_wp (insert v h)
    (set_heap (insert c (mkCounter (shared_count_ b) (size_incr (weak_count_ b)))) s)).
Proof.
  intros HA Hv Hc Hb Hfit. apply (Acct_touch strict s _ c); simpl; [done| |done| |].
  - intros. by rewrite lookup_insert_ne.
  - intros c' Hne. rewrite refs_insert_None by done.
    rewrite (ind_counter h c c' Hc), ind1_ne by done. lia.
  - unfold acct_at. simpl. rewrite lookup_insert_eq. simpl.
    destruct (Acct_block strict s c b HA Hb) as (Hw & Hs & Hu).
    rewrite refs_insert_None by done. rewrite (ind_counter h c c Hc), ind1_eq.
    pose proof (refs_le_size (wp s) c).
    rewrite size_incr_small by lia. split; [lia|]. split; [lia|]. intros; lia.
Qed.

Lemma Acct_add_null_sp strict s v h :
  Acct strict s → sp s !! v = None → counter h = None →
  Acct strict (set_sp (insert v h) s).
Proof.
  intros HA Hv Hc. apply (Acct_same strict s); simpl; try done.
  intros c. rewrite refs_insert_None by done. rewrite ind_counter_None by done. lia.
Qed.

Lemma Acct_add_null_wp strict s v h :
  Acct strict s → wp s !! v = None → counter h = None →
  Acct strict (set_wp (insert v h) s).
Proof.
  intros HA Hv Hc. apply (Acct_same strict s); simpl; try done.
  intros c. rewrite refs_insert_None by done. rewrite ind_counter_None by done. lia.
Qed.

Lemma refs_fresh_wp s c : Inv s → ¬ (c < brk s)%positive → refs (wp s) c = 0%nat.
Proof.
  intros HI Hc. apply refs_none. intros v h Hv Hh.
  apply Hc. eapply inv_handle_brk; eauto using holds_wp.
Qed.

Lemma Acct_fresh strict s v p :
  Inv s → Acct strict s → sp s !! v = None →
  Acct strict (set_sp (insert v (mkHandle p (Some (brk s))))
    (mkState (<[brk s := mkCounter (one_if_nonnull p) 0]> (heap s)) (Pos.succ (brk s))
       (sp s) (wp s) (log s))).
Proof.
  intros HI HA Hv. apply (Acct_touch strict s _ (brk s)); simpl; [done| | |done|].
  - intros. by rewrite lookup_insert_ne.
  - intros c' Hne. rewrite refs_insert_None by done. rewrite ind_mk, ind1_ne by done. lia.
  - unfold acct_at. simpl. rewrite lookup_insert_eq. simpl.
    rewrite refs_insert_None by done. rewrite ind_mk, ind1_eq.
    rewrite (refs_fresh s (brk s)) by (done || apply Pos.lt_irrefl).
    rewrite (refs_fresh_wp s (brk s)) by (done || apply Pos.lt_irrefl).
    split; [done|]. split; [destruct p; simpl; lia|]. intros; lia.
Qed.

Lemma fits_sp s : fits s = true → Z.of_nat (size (sp s)) < SIZE_MODULUS.
Proof. intros H%fits_bound. lia. Qed.

Lemma fits_wp s : fits s = true → Z.of_nat (size (wp s)) < SIZE_MODULUS.
Proof. intros H%fits_bound. lia. Qed.

Lemma Acct_release_strong strict s v h sD :
  fits s = true → Acct strict s → sp s !! v = Some h →
  SharedPtr.DecreaseAndDelete h s = Ok () sD →
  Acct strict (set_sp (delete v) sD).
Proof.
  intros Hfit HA Hv HD. destruct (counter h) as [c|] eqn:Hc.
  2: { rewrite (SDD_null h s sD Hc HD). apply (Acct_same strict s); simpl; try done.
       intros c. rewrite (refs_delete_Some (sp s) v h c Hv).
       rewrite ind_counter_None by done. lia. }
  destruct (SDD_shape h c s sD Hc HD) as (b & Hb & Hsp & Hwp & Hbrk & Hcases).
  destruct (Acct_block strict s c b HA Hb) as (Hw & Hs & Hu).
  pose proof (refs_delete_Some (sp s) v h c Hv) as Hr.
  rewrite (ind_counter h c c Hc), ind1_eq in Hr.
  pose proof (refs_le_size (sp s) c). pose proof (fits_sp s Hfit).
  apply (Acct_touch strict s _ c); simpl.
  - done.
  - intros c' Hne.
    destruct Hcases as [(_ & _ & -> & _)|[(_ & _ & -> & _)|(_ & -> & _)]];
      by rewrite ?lookup_delete_ne, ?lookup_insert_ne.
  - intros c' Hne. rewrite Hsp, (refs_delete_Some (sp s) v h c' Hv).
    rewrite (ind_counter h c c' Hc), ind1_ne by done. lia.
  - intros c' _. by rewrite Hwp.
  - unfold acct_at. simpl. rewrite Hsp, Hwp.
    destruct Hcases as [(Hn & Hz & -> & _)|[(Hn & Hz & -> & _)|(Hn & -> & _)]].
    + rewrite lookup_delete_eq. lia.
    + rewrite lookup_insert_eq. simpl. split; [done|]. split; [lia|]. intros; lia.
    + rewrite lookup_insert_eq. simpl.
      assert (0 < shared_count_ b) as Hpos.
      { destruct (decide (shared_count_ b = 0)) as [E|]; [|lia].
        rewrite E in Hn. done. }
      rewrite guarded_decr_pos in * by lia.
      split; [done|]. split; [lia|]. intros; lia.
Qed.

Lemma Acct_release_weak strict s v h sD :
  fits s = true → Acct strict s → wp s !! v = Some h →
  WeakPtr.DecreaseAndDelete h s = Ok () sD →
  Acct strict (set_wp (delete v) sD).
Proof.
  intros Hfit HA Hv HD. destruct (counter h) as [c|] eqn:Hc.
  2: { rewrite (WDD_null h s sD Hc HD). apply (Acct_same strict s); simpl; try done.
       intros c. rewrite (refs_delete_Some (wp s) v h c Hv).
       rewrite ind_counter_None by done. lia. }
  destruct (WDD_shape h c s sD Hc HD) as (b & Hb & Hsp & Hwp & Hbrk & Hcases).
  destruct (Acct_block strict s c b HA Hb) as (Hw & Hs & Hu).
  pose proof (refs_delete_Some (wp s) v h c Hv) as Hr.
  rewrite (ind_counter h c c Hc), ind1_eq in Hr.
  pose proof (refs_le_size (wp s) c). pose proof (fits_wp s Hfit).
  rewrite guarded_decr_pos in Hcases by lia.
  apply (Acct_touch strict s _ c); simpl.
  - done.
  - intros c' Hne.
    destruct Hcases as [(_ & _ & -> & _)|(_ & -> & _)];
      by rewrite ?lookup_delete_ne, ?lookup_insert_ne.
  - intros c' _. by rewrite Hsp.
  - intros c' Hne. rewrite Hwp, (refs_delete_Some (wp s) v h c' Hv).
    rewrite (ind_counter h c c' Hc), ind1_ne by done. lia.
  - unfold acct_at. simpl. rewrite Hsp, Hwp.
    destruct Hcases as [(Hn & Hz & -> & _)|(Hn & -> & _)].
    + rewrite lookup_delete_eq. lia.
    + rewrite lookup_insert_eq. simpl.
      split; [lia|]. split; [lia|]. intros _.
      destruct (decide (shared_count_ b = 0)); lia.
Qed.

Lemma Acct_weak_reset s v h c b :
  fits s = true → Acct false s → wp s !! v = Some h → counter h = Some c →
  heap s !! c = Some b →
  Acct false (set_wp (insert v null_handle)
    (set_heap (insert c (mkCounter (shared_count_ b) (size_decr (weak_count_ b)))) s)).
Proof.
  intros Hfit HA Hv Hc Hb.
  destruct (Acct_block false s c b HA Hb) as (Hw & Hs & Hu).
  pose proof (refs_insert_Some (wp s) v h null_handle c Hv) as Hr.
  rewrite (ind_counter h c c Hc), ind1_eq, ind_null in Hr.
  pose proof (refs_le_size (wp s) c). pose proof (fits_wp s Hfit).
  apply (Acct_touch false s _ c); simpl; [done| |done| |].
  - intros. by rewrite lookup_insert_ne.
  - intros c' Hne. pose proof (refs_insert_Some (wp s) v h null_handle c' Hv) as Hr'.
    rewrite (ind_counter h c c' Hc), ind1_ne, ind_null in Hr' by done. lia.
  - unfold acct_at. simpl. rewrite lookup_insert_eq. simpl.
    rewrite size_decr_small by lia. split; [lia|]. split; [lia|]. done.
Qed.

Lemma S_dtor_Ok s v s' :
  exec (S_dtor v) s = Ok () s' →
  ∃ h sD, sp s !! v = Some h ∧ SharedPtr.DecreaseAndDelete h s = Ok () sD ∧
          s' = set_sp (delete v) sD.
Proof.
  simpl. unfold SharedPtr.dtor. intros H.
  apply bind_Ok in H as (h & s0 & Hg & H). apply get_sp_Ok in Hg as [Hv ->].
  apply bind_Ok in H as ([] & sD & HD & H). injection H as <-. eauto.
Qed.

Lemma W_dtor_Ok s v s' :
  exec (W_dtor v) s = Ok () s' →
  ∃ h sD, wp s !! v = Some h ∧ WeakPtr.DecreaseAndDelete h s = Ok () sD ∧
          s' = set_wp (delete v) sD.
Proof.
  simpl. unfold WeakPtr.dtor. intros H.
  apply bind_Ok in H as (h & s0 & Hg & H). apply get_wp_Ok in Hg as [Hv ->].
  apply bind_Ok in H as ([] & sD & HD & H). injection H as <-. eauto.
Qed.

Lemma fits_insert_sp s v h :
  fits (set_sp (insert v h) s) = true → sp s !! v = None →
  Z.of_nat (size (sp s)) + 1 < SIZE_MODULUS.
Proof.
  intros H%fits_sp Hv. simpl in H. rewrite map_size_insert_None in H by done. lia.
Qed.

Lemma fits_insert_wp s v h :
  fits (set_wp (insert v h) s) = true → wp s !! v = None →
  Z.of_nat (size (wp s)) + 1 < SIZE_MODULUS.
Proof.
  intros H%fits_wp Hv. simpl in H. rewrite map_size_insert_None in H by done. lia.
Qed.

Lemma incr_shared_Ok c u s t :
  incr_shared c s = Ok u t →
  ∃ b, heap s !! c = Some b ∧
       t = set_heap (insert c (mkCounter (size_incr (shared_count_ b)) (weak_count_ b))) s.
Proof. intros H. unfold incr_shared in H. minv. eauto. Qed.

Lemma incr_weak_Ok c u s t :
  incr_weak c s = Ok u t →
  ∃ b, heap s !! c = Some b ∧
       t = set_heap (insert c (mkCounter (shared_count_ b) (size_incr (weak_count_ b)))) s.
Proof. intros H. unfold incr_weak in H. minv. eauto. Qed.

Lemma Acct_S_copy strict s s' v o :
  Acct strict s → exec (S_copy v o) s = Ok () s' → fits s' = true → Acct strict s'.
Proof.
  intros HA H Hfit. apply declare_sp_Ok in H as (Hv & h & s1 & Hc & ->).
  apply bind_Ok in Hc as (ho & s0 & Hg & Hc). apply get_sp_Ok in Hg as [Ho ->].
  unfold SharedPtr.ctor_copy in Hc.
  apply bind_Ok in Hc as (c & s0 & Hd & Hc). apply deref_Ok in Hd as [Hco ->].
  apply bind_Ok in Hc as ([] & s2 & Hi & Hc). apply ret_Ok in Hc as [-> ->].
  apply incr_shared_Ok in Hi as (b & Hb & ->).
  apply Acct_add_strong; try done.
  eapply (fits_insert_sp _ v); [exact Hfit|done].
Qed.

Lemma Acct_promote strict s v ho h s1 :
  Acct strict s → sp s !! v = None →
  SharedPtr_ctor_from_weak ho s = Ok h s1 →
  fits (set_sp (insert v h) s1) = true → Acct strict (set_sp (insert v h) s1).
Proof.
  intros HA Hv Hc Hfit. unfold SharedPtr_ctor_from_weak in Hc.
  apply bind_Ok in Hc as (e & s0 & He & Hc).
  apply (read_Ok (WeakPtr.Expired ho)) in He as [He ->].
  destruct e; [done|].
  destruct (Expired_false s ho He) as (c & b & Hco & Hb & Hnz).
  apply bind_Ok in Hc as ([] & s2 & Hi & Hc). apply ret_Ok in Hc as [-> ->].
  rewrite Hco in Hi. simpl in Hi. apply incr_shared_Ok in Hi as (b' & Hb' & ->).
  rewrite handle_eta in *.
  apply Acct_add_strong; try done.
  eapply (fits_insert_sp _ v); [exact Hfit|done].
Qed.

Lemma Acct_weak_share strict s v ho h s1 :
  Acct strict s → wp s !! v = None →
  (do _ <- incr_weak_if (counter ho); ret (mkHandle (ptr_ ho) (counter ho))) s = Ok h s1 →
  fits (set_wp (insert v h) s1) = true → Acct strict (set_wp (insert v h) s1).
Proof.
  intros HA Hv Hc Hfit.
  apply bind_Ok in Hc as ([] & s2 & Hi & Hc). apply ret_Ok in Hc as [-> ->].
  rewrite handle_eta in *.
  destruct (counter ho) as [c|] eqn:Hco; simpl in Hi.
  - apply incr_weak_Ok in Hi as (b & Hb & ->).
    apply Acct_add_weak; try done.
    eapply (fits_insert_wp _ v); [exact Hfit|done].
  - apply ret_Ok in Hi as [_ ->]. by apply Acct_add_null_wp.
Qed.

Lemma Acct_simple strict op s s' :
  Inv s → Acct strict s → allowed strict op = true →
  (∀ v o, op ≠ S_assign v o) → (∀ v o, op ≠ S_move_assign v o) →
  (∀ v p, op ≠ S_reset v p) →
  (∀ v o, op ≠ W_assign v o) → (∀ v o, op ≠ W_move_assign v o) →
  exec op s = Ok () s' → fits s' = true → Acct strict s'.
Proof.
  intros HI HA Hal N1 N2 N3 N4 N5 H Hfit.
  pose proof (inv_fits s HI) as Hfs.
  destruct op; try (by destruct (N1 _ _ eq_refl)); try (by destruct (N2 _ _ eq_refl));
    try (by destruct (N3 _ _ eq_refl)); try (by destruct (N4 _ _ eq_refl));
    try (by destruct (N5 _ _ eq_refl)); try (by destruct strict).
  - (* S_default *)
    apply declare_sp_Ok in H as (Hv & h & s1 & Hc & ->).
    apply ret_Ok in Hc as [-> ->]. by apply Acct_add_null_sp.
  - (* S_raw *)
    apply declare_sp_Ok in H as (Hv & h & s1 & Hc & ->).
    unfold SharedPtr.ctor_raw in Hc.
    apply bind_Ok in Hc as (c & s0 & Hn & Hc). apply ret_Ok in Hc as [-> ->].
    apply new_Counter_Ok in Hn as [-> ->]. by apply Acct_fresh.
  - (* S_copy *)
    by apply (Acct_S_copy strict s s' v o).
  - (* S_move *)
    apply declare_sp_Ok in H as (Hv & h & s1 & Hc & ->).
    unfold SharedPtr.ctor_move in Hc.
    apply bind_Ok in Hc as (ho & s0 & Hg & Hc). apply get_sp_Ok in Hg as [Ho ->].
    apply bind_Ok in Hc as ([] & s2 & Hp & Hc). apply put_sp_Ok in Hp as ->.
    apply ret_Ok in Hc as [-> ->]. rewrite handle_eta.
    apply (Acct_same strict s); simpl; try done.
    intros c. by apply move_refs_fresh.
  - (* S_from_weak *)
    apply declare_sp_Ok in H as (Hv & h & s1 & Hc & ->).
    apply bind_Ok in Hc as (ho & s0 & Hg & Hc). apply get_wp_Ok in Hg as [Ho ->].
    by apply (Acct_promote strict s v ho).
  - (* S_dtor *)
    apply S_dtor_Ok in H as (h & sD & Hv & HD & ->).
    by apply (Acct_release_strong strict s v h).
  - (* S_swap *)
    simpl in H. unfold SharedPtr.Swap in H.
    apply bind_Ok in H as (h & s0 & Hg & H). apply get_sp_Ok in Hg as [Hv ->].
    apply bind_Ok in H as (ho & s0 & Hg & H). apply get_sp_Ok in Hg as [Ho ->].
    apply bind_Ok in H as ([] & s2 & Hp & H). apply put_sp_Ok in Hp as ->.
    apply put_sp_Ok in H as ->. rewrite !handle_eta.
    apply (Acct_same strict s); simpl; try done.
    intros c. by apply swap_refs.
  - (* W_default *)
    apply declare_wp_Ok in H as (Hv & h & s1 & Hc & ->).
    apply ret_Ok in Hc as [-> ->]. by apply Acct_add_null_wp.
  - (* W_copy *)
    apply declare_wp_Ok in H as (Hv & h & s1 & Hc & ->).
    apply bind_Ok in Hc as (ho & s0 & Hg & Hc). apply get_wp_Ok in Hg as [Ho ->].
    by apply (Acct_weak_share strict s v ho).
  - (* W_move *)
    apply declare_wp_Ok in H as (Hv & h & s1 & Hc & ->).
    unfold WeakPtr.ctor_move in Hc.
    apply bind_Ok in Hc as (ho & s0 & Hg & Hc). apply get_wp_Ok in Hg as [Ho ->].
    apply bind_Ok in Hc as ([] & s2 & Hp & Hc). apply put_wp_Ok in Hp as ->.
    apply ret_Ok in Hc as [-> ->]. rewrite handle_eta.
    apply (Acct_same strict s); simpl; try done.
    intros c. by apply move_refs_fresh.
  - (* W_from_shared *)
    apply declare_wp_Ok in H as (Hv & h & s1 & Hc & ->).
    apply bind_Ok in Hc as (ho & s0 & Hg & Hc). apply get_sp_Ok in Hg as [Ho ->].
    by apply (Acct_weak_share strict s v ho).
  - (* W_dtor *)
    apply W_dtor_Ok in H as (h & sD & Hv & HD & ->).
    by apply (Acct_release_weak strict s v h).
  - (* W_swap *)
    simpl in H. unfold WeakPtr.Swap in H.
    apply bind_Ok in H as (h & s0 & Hg & H). apply get_wp_Ok in Hg as [Hv ->].
    apply bind_Ok in H as (ho & s0 & Hg & H). apply get_wp_Ok in Hg as [Ho ->].
    apply bind_Ok in H as ([] & s2 & Hp & H). apply put_wp_Ok in Hp as ->.
    apply put_wp_Ok in H as ->. rewrite !handle_eta.
    apply (Acct_same strict s); simpl; try done.
    intros c. by apply swap_refs.
  - (* W_reset *)
    destruct strict; [done|].
    simpl in H. unfold WeakPtr.Reset in H.
    apply bind_Ok in H as (h & s0 & Hg & H). apply get_wp_Ok in Hg as [Hv ->].
    destruct (counter h) as [c|] eqn:Hc.
    + apply bind_Ok in H as ([] & s2 & Hd & H). apply put_wp_Ok in H as ->.
      unfold decr_weak in Hd.
      apply bind_Ok in Hd as (b & s0 & Hl & Hd). apply load_Ok in Hl as [Hb ->].
      apply store_Ok in Hd as [_ ->].
      by apply (Acct_weak_reset s v h c b).
    + by apply ret_Ok in H as [_ ->].
  - (* W_lock *)
    apply declare_sp_Ok in H as (Hv & h & s1 & Hc & ->).
    apply bind_Ok in Hc as (ho & s0 & Hg & Hc). apply get_wp_Ok in Hg as [Ho ->].
    unfold WeakPtr_Lock in Hc.
    apply bind_Ok in Hc as (e & s0 & He & Hc).
    apply (read_Ok (WeakPtr.Expired ho)) in He as [He ->].
    destruct e.
    + unfold SharedPtr.ctor_raw in Hc.
      apply bind_Ok in Hc as (c & s0 & Hn & Hc). apply ret_Ok in Hc as [-> ->].
      apply new_Counter_Ok in Hn as [-> ->]. by apply Acct_fresh.
    + by apply (Acct_promote strict s v ho).
Qed.

Lemma after_S_dtor strict s s1 v :
  Inv s → Acct strict s → exec (S_dtor v) s = Ok () s1 →
  Inv s1 ∧ Acct strict s1.
Proof.
  intros HI HA H.
  assert (fits s1 = true) as Hfit.
  { destruct (S_dtor_Ok s v s1 H) as (h & sD & Hv & HD & ->).
    destruct (SDD_handles h s () sD HD) as (Hsp & Hwp & _).
    eapply fits_delete_sp; eauto using inv_fits. }
  split.
  - apply (exec_spec (S_dtor v) s s1 HI); [by rewrite H|done].
  - destruct (S_dtor_Ok s v s1 H) as (h & sD & Hv & HD & ->).
    apply (Acct_release_strong strict s v h); eauto using inv_fits.
Qed.

Lemma after_W_dtor strict s s1 v :
  Inv s → Acct strict s → exec (W_dtor v) s = Ok () s1 →
  Inv s1 ∧ Acct strict s1.
Proof.
  intros HI HA H.
  assert (fits s1 = true) as Hfit.
  { destruct (W_dtor_Ok s v s1 H) as (h & sD & Hv & HD & ->).
    destruct (WDD_handles h s () sD HD) as (Hsp & Hwp & _).
    eapply fits_delete_wp; eauto using inv_fits. }
  split.
  - apply (exec_spec (W_dtor v) s s1 HI); [by rewrite H|done].
  - destruct (W_dtor_Ok s v s1 H) as (h & sD & Hv & HD & ->).
    apply (Acct_release_weak strict s v h); eauto using inv_fits.
Qed.

Lemma allowed_S strict op : is_weak_op op = false → allowed strict op = true.
Proof. by destruct strict, op. Qed.

Lemma Acct_S_seq strict s s' v op2 :
  Inv s → Acct strict s → is_weak_op op2 = false →
  (∀ v o, op2 ≠ S_assign v o) → (∀ v o, op2 ≠ S_move_assign v o) →
  (∀ v p, op2 ≠ S_reset v p) →
  (exec (S_dtor v);;; exec op2) s = Ok () s' → fits s' = true → Acct strict s'.
Proof.
  intros HI HA Hw N1 N2 N3 H Hfit.
  apply bind_Ok in H as ([] & s1 & H1 & H2).
  destruct (after_S_dtor strict s s1 v HI HA H1) as [HI1 HA1].
  apply (Acct_simple strict op2 s1 s'); try done.
  - by apply allowed_S.
  - intros ? ? ->. done.
  - intros ? ? ->. done.
Qed.

Lemma Acct_W_seq strict s s' v op2 :
  Inv s → Acct strict s → allowed strict op2 = true →
  (∀ v o, op2 ≠ W_assign v o) → (∀ v o, op2 ≠ W_move_assign v o) →
  is_weak_op op2 = true →
  (exec (W_dtor v);;; exec op2) s = Ok () s' → fits s' = true → Acct strict s'.
Proof.
  intros HI HA Hal N4 N5 Hw H Hfit.
  apply bind_Ok in H as ([] & s1 & H1 & H2).
  destruct (after_W_dtor strict s s1 v HI HA H1) as [HI1 HA1].
  apply (Acct_simple strict op2 s1 s'); try done.
  - intros ? ? ->. done.
  - intros ? ? ->. done.
  - intros ? ? ->. done.
Qed.

Lemma Acct_step_Ok strict op s s' :
  Inv s → Acct strict s → allowed strict op = true →
  exec op s = Ok () s' → fits s' = true → Acct strict s'.
Proof.
  intros HI HA Hal H Hfit.
  destruct op;
    try (match goal with
         | H : exec ?op s = _ |- _ => apply (Acct_simple strict op s s'); done
         end).
  - (* S_assign *)
    destruct (decide (v = o)) as [->|Hne].
    { simpl in H. unfold SharedPtr.assign in H. rewrite decide_True in H by done.
      by apply ret_Ok in H as [_ ->]. }
    pose proof H as H0. simpl in H. unfold SharedPtr.assign in H.
    rewrite decide_False in H by done.
    apply bind_Ok in H as (h & s0 & Hg & H). apply get_sp_Ok in Hg as [Hv ->].
    apply bind_Ok in H as ([] & sD & HD & H).
    apply bind_Ok in H as (ho & s0 & Hg & H). apply get_sp_Ok in Hg as [Ho ->].
    destruct (SDD_handles h s () sD HD) as (Hsp & Hwp & _).
    destruct (counter ho) as [c|] eqn:Hc.
    + rewrite (S_assign_seq s v o ho c) in H0 by (done || congruence).
      apply (Acct_S_seq strict s s' v (S_copy v o)); done.
    + apply bind_Ok in H as ([] & s2 & Hp & H). apply put_sp_Ok in Hp as ->.
      apply ret_Ok in H as [_ ->].
      assert (set_sp (insert v (mkHandle (ptr_ ho) None)) sD =
              set_sp (insert v (mkHandle (ptr_ ho) None)) (set_sp (delete v) sD)) as ->.
      { apply State_eq; simpl; try done. by rewrite insert_delete_eq. }
      apply Acct_add_null_sp; [|simpl; apply lookup_delete_eq|done].
      apply (Acct_release_strong strict s v h); eauto using inv_fits.
  - (* S_move_assign *)
    destruct (decide (v = o)) as [->|Hne].
    { simpl in H. unfold SharedPtr.move_assign in H. rewrite decide_True in H by done.
      by apply ret_Ok in H as [_ ->]. }
    rewrite S_move_assign_seq in H by done.
    apply (Acct_S_seq strict s s' v (S_move v o)); done.
  - (* S_reset *)
    rewrite S_reset_seq in H.
    apply (Acct_S_seq strict s s' v (S_raw v p)); done.
  - (* W_assign *)
    destruct (decide (v = o)) as [->|Hne].
    { simpl in H. unfold WeakPtr.assign in H. rewrite decide_True in H by done.
      by apply ret_Ok in H as [_ ->]. }
    rewrite W_assign_seq in H by done.
    apply (Acct_W_seq strict s s' v (W_copy v o)); done.
  - (* W_move_assign *)
    destruct (decide (v = o)) as [->|Hne].
    { simpl in H. unfold WeakPtr.move_assign in H. rewrite decide_True in H by done.
      by apply ret_Ok in H as [_ ->]. }
    rewrite W_move_assign_seq in H by done.
    apply (Acct_W_seq strict s s' v (W_move v o)); done.
Qed.

Lemma Acct_init strict : Acct strict init.
Proof. intros c. unfold acct_at. simpl. rewrite lookup_empty. apply refs_empty. Qed.

Lemma Acct_run strict ops s s' :
  Inv s → Acct strict s → forallb (allowed strict) ops = true →
  run ops s = Some s' → Acct strict s'.
Proof.
  revert s. induction ops as [|op ops IH]; intros s HI HA Hall H; simpl in H.
  - by injection H as <-.
  - simpl in Hall. apply andb_true_iff in Hall as [Hop Hall].
    destruct (after (exec op s)) as [s1|] eqn:E; [|done].
    destruct (fits s1) eqn:Hfit; [|done].
    apply (IH s1); [by apply (exec_spec op s s1)| |done|done].
    destruct (exec op s) as [[] s2|e s2|] eqn:E'; simpl in E; [| |done];
      injection E as ->.
    + by apply (Acct_step_Ok strict op s s1).
    + by apply exec_Throw in E' as ->.
Qed.

Lemma refs_pos_inv (m : gmap var Handle) c :
  (0 < refs m c)%nat → ∃ v h, m !! v = Some h ∧ counter h = Some c.
Proof.
  unfold refs. intros Hpos.
  destruct (map_choose (filter (λ kv, counter kv.2 = Some c) m)) as (v & h & Hvh).
  { intros E. rewrite E, map_size_empty in Hpos. lia. }
  apply map_lookup_filter_Some in Hvh as [Hv Hc]. eauto.
Qed.

Lemma WDD_defined h c b s :
  counter h = Some c → heap s !! c = Some b →
  ∃ s1, WeakPtr.DecreaseAndDelete h s = Ok () s1.
Proof.
  intros Hc Hb. unfold WeakPtr.DecreaseAndDelete. rewrite Hc.
  rewrite (bind_run _ _ s b s) by by apply load_run.
  assert (∃ s2 b2, (if 0 <? weak_count_ b then decr_weak c else ret ()) s = Ok () s2 ∧
                   heap s2 !! c = Some b2) as (s2 & b2 & Hdec & Hb2).
  { destruct (0 <? weak_count_ b).
    - unfold decr_weak. rewrite (bind_run _ _ s b s) by by apply load_run.
      rewrite (store_run c b) by done. eexists _, _. split; [done|].
      simpl. by rewrite lookup_insert_eq.
    - by exists s, b. }
  rewrite (bind_run _ _ s () s2) by done.
  rewrite (bind_run _ _ s2 b2 s2) by by apply load_run.
  destruct ((weak_count_ b2 =? 0) && (shared_count_ b2 =? 0)).
  - unfold delete_counter. rewrite Hb2. eauto.
  - unfold ret. eauto.
Qed.

(** X12: in a program that does not use the two constructors that read
    indeterminate memory, the weak count stored in a control block is the
    number of live [WeakPtr] objects on it and the strong count is at most
    the number of live [SharedPtr] objects; no [WeakPtr] dangles, so
    [Expired] and [UseCount] read allocated memory and the destructor of
    every [WeakPtr] is defined. *)
Theorem weak_count_counts_weak_handles ops s :
  run ops init = Some s → forallb determinate ops = true →
  (∀ c b, heap s !! c = Some b →
     weak_count_ b = Z.of_nat (refs (wp s) c) ∧
     0 ≤ shared_count_ b ≤ Z.of_nat (refs (sp s) c)) ∧
  (∀ w h, wp s !! w = Some h →
     (∀ c, counter h = Some c → is_Some (heap s !! c)) ∧
     is_Some (WeakPtr.Expired h s) ∧ is_Some (WeakPtr.UseCount h s) ∧
     ∃ s', exec (W_dtor w) s = Ok () s').
Proof.
  intros Hrun Hall.
  assert (Inv s) as HI by (eapply run_Inv; eauto using Inv_init).
  assert (Acct false s) as HA.
  { apply (Acct_run false ops init s); auto using Inv_init, Acct_init. }
  split.
  - intros c b Hb. destruct (Acct_block false s c b HA Hb) as (? & ? & _). done.
  - intros w h Hw.
    assert (∀ c, counter h = Some c → is_Some (heap s !! c)) as Halloc.
    { intros c Hc. pose proof (HA c) as Hat. unfold acct_at in Hat.
      destruct (heap s !! c) as [b|]; [eauto|].
      pose proof (refs_pos (wp s) w h c Hw Hc). lia. }
    split; [done|].
    unfold WeakPtr.Expired, WeakPtr.UseCount.
    destruct (counter h) as [c|] eqn:Hc.
    + destruct (Halloc c eq_refl) as [b Hb]. rewrite Hb. simpl.
      split; [eauto|]. split; [eauto|].
      destruct (WDD_defined h c b s Hc Hb) as [sD HD].
      eexists. by apply (W_dtor_run s w h sD).
    + split; [eauto|]. split; [eauto|].
      eexists. apply (W_dtor_run s w h s); [done|].
      unfold WeakPtr.DecreaseAndDelete. by rewrite Hc.
Qed.

Lemma weak_count_counts_weak_handles_witness :
  let ops := owner_and_observer ++ [W_copy 1 0; S_dtor 0; W_reset 0] in
  let s := state_after ops in
  (run ops init = Some s ∧ forallb determinate ops = true) ∧
  (∀ c b, heap s !! c = Some b →
     weak_count_ b = Z.of_nat (refs (wp s) c) ∧
     0 ≤ shared_count_ b ≤ Z.of_nat (refs (sp s) c)) ∧
  (∀ w h, wp s !! w = Some h →
     (∀ c, counter h = Some c → is_Some (heap s !! c)) ∧
     is_Some (WeakPtr.Expired h s) ∧ is_Some (WeakPtr.UseCount h s) ∧
     ∃ s', exec (W_dtor w) s = Ok () s').
Proof.
  intros ops s.
  assert (run ops init = Some s) as H1 by (vm_compute; reflexivity).
  assert (forallb determinate ops = true) as H2 by reflexivity.
  split; [by split|].
  exact (weak_count_counts_weak_handles ops s H1 H2).
Defined.

(** X13: in a program that moreover gives every share back through the release
    protocol (no [WeakPtr::Reset]), no control block leaks: every allocated
    block has a live handle on it, and once every handle is gone every
    control block has been freed. *)
Theorem no_control_block_leaks ops s :
  run ops init = Some s → forallb by_protocol ops = true →
  (∀ c b, heap s !! c = Some b → ∃ h, holds s h ∧ counter h = Some c) ∧
  (sp s = ∅ → wp s = ∅ → heap s = ∅).
Proof.
  intros Hrun Hall.
  assert (Inv s) as HI by (eapply run_Inv; eauto using Inv_init).
  assert (Acct true s) as HA.
  { apply (Acct_run true ops init s); auto using Inv_init, Acct_init. }
  assert (∀ c b, heap s !! c = Some b → ∃ h, holds s h ∧ counter h = Some c) as Hused.
  { intros c b Hb. destruct (Acct_block true s c b HA Hb) as (_ & _ & Hu).
    specialize (Hu eq_refl).
    destruct (decide (refs (sp s) c = 0%nat)) as [Hz|Hnz].
    - destruct (refs_pos_inv (wp s) c) as (v & h & Hv & Hc); [lia|].
      exists h. split; [by eapply holds_wp|done].
    - destruct (refs_pos_inv (sp s) c) as (v & h & Hv & Hc); [lia|].
      exists h. split; [by eapply holds_sp|done]. }
  split; [done|].
  intros Hsp Hwp. apply map_empty. intros c.
  destruct (heap s !! c) as [b|] eqn:Hb; [|done].
  destruct (Hused c b Hb) as (h & [[v Hv]|[v Hv]] & _).
  - by rewrite Hsp in Hv.
  - by rewrite Hwp in Hv.
Qed.

Lemma no_control_block_leaks_witness :
  let ops := owner_and_observer ++ [S_copy 1 0; S_dtor 0; W_dtor 0; S_dtor 1] in
  let s := state_after ops in
  (run ops init = Some s ∧ forallb by_protocol ops = true) ∧
  (∀ c b, heap s !! c = Some b → ∃ h, holds s h ∧ counter h = Some c) ∧
  (sp s = ∅ → wp s = ∅ → heap s = ∅).
Proof.
  intros ops s.
  assert (run ops init = Some s) as H1 by (vm_compute; reflexivity).
  assert (forallb by_protocol ops = true) as H2 by reflexivity.
  split; [by split|].
  exact (no_control_block_leaks ops s H1 H2).
Defined.

(** ** [WeakPtr::Reset] on a counted handle *)



(** ** Handles of one group, and of a raw pointer *)

Lemma refs_two (m : gmap var Handle) v1 v2 h1 h2 c :
  v1 ≠ v2 → m !! v1 = Some h1 → m !! v2 = Some h2 →
  counter h1 = Some c → counter h2 = Some c → (2 ≤ refs m c)%nat.
Proof.
  intros Hne Hv1 Hv2 Hc1 Hc2.
  pose proof (refs_pos m v1 h1 c Hv1 Hc1).
  destruct (decide (refs m c = 1%nat)) as [E|]; [|lia].
  by destruct Hne; apply (refs_one m v1 v2 h1 h2 c).
Qed.

(** X14: copy assignment between two [SharedPtr] objects that already share an
    object changes nothing: along every run the count goes down and up
    again, nothing is deleted, and the state after the assignment is the
    state before. *)
Theorem assignment_within_group_changes_nothing ops s v o h h' c :
  run ops init = Some s → v ≠ o →
  sp s !! v = Some h → sp s !! o = Some h' →
  counter h = Some c → counter h' = Some c → ptr_ h ≠ None →
  exec (S_assign v o) s = Ok () s.
Proof.
  intros Hrun Hne Hv Ho Hc Hc' Hp.
  assert (Inv s) as HI by (eapply run_Inv; eauto using Inv_init).
  assert (h' = h) as ->.
  { pose proof (inv_ptr s HI h h' c (holds_sp s v h Hv) (holds_sp s o h' Ho) Hc Hc').
    destruct h, h'; simpl in *; congruence. }
  destruct (inv_alloc s HI v h c Hv Hp Hc) as [b Hb].
  pose proof (Inv_block s h c b HI (holds_sp s v h Hv) Hc Hp Hb) as Hn.
  pose proof (refs_two (sp s) v o h h c Hne Hv Ho Hc Hc) as H2.
  pose proof (refs_bound s c (inv_fits s HI)) as Hbound.
  simpl. unfold SharedPtr.assign. rewrite decide_False by done.
  unfold bind, get_sp. rewrite Hv.
  rewrite (SDD_keep h c b s Hc Hb) by lia. simpl. rewrite Ho. simpl.
  rewrite Hc. simpl. unfold incr_shared, bind, load, read, store. simpl.
  rewrite lookup_insert_eq. simpl. rewrite lookup_insert_eq. f_equal.
  apply State_eq; simpl; try done.
  - apply (heap_restore _ _ b); [done|]. rewrite size_incr_small by lia.
    replace (shared_count_ b - 1 + 1) with (shared_count_ b) by lia. apply Counter_eta.
  - rewrite <- Hc, handle_eta. by apply insert_id.
Qed.

Lemma assignment_within_group_changes_nothing_witness :
  let ops := owner_and_observer ++ [S_copy 1 0] in
  let s := state_after ops in
  let h := mkHandle (Some 7%positive) (Some 1%positive) in
  (run ops init = Some s ∧ 0%nat ≠ 1%nat ∧
   sp s !! 0%nat = Some h ∧ sp s !! 1%nat = Some h ∧
   counter h = Some 1%positive ∧ ptr_ h ≠ None) ∧
  exec (S_assign 0 1) s = Ok () s.
Proof.
  intros ops s h.
  assert (run ops init = Some s) as H1 by (vm_compute; reflexivity).
  assert (0%nat ≠ 1%nat) as H2 by discriminate.
  assert (sp s !! 0%nat = Some h) as H3 by (vm_compute; reflexivity).
  assert (sp s !! 1%nat = Some h) as H4 by (vm_compute; reflexivity).
  assert (counter h = Some 1%positive) as H5 by reflexivity.
  assert (ptr_ h ≠ None) as H6 by (simpl; discriminate).
  split; [by repeat split|].
  exact (assignment_within_group_changes_nothing ops s 0%nat 1%nat h h 1%positive
           H1 H2 H3 H4 H5 H5 H6).
Defined.

Lemma S_raw_own_block s s' v p :
  Inv s → exec (S_raw v p) s = Ok () s' →
  sp s' !! v = Some (mkHandle p (Some (brk s))) ∧
  heap s !! brk s = None ∧
  heap s' !! brk s = Some (mkCounter (one_if_nonnull p) 0) ∧
  refs (sp s') (brk s) = 1%nat ∧ refs (wp s') (brk s) = 0%nat.
Proof.
  intros HI H. apply declare_sp_Ok in H as (Hv & h & s1 & Hc & ->).
  unfold SharedPtr.ctor_raw in Hc.
  apply bind_Ok in Hc as (c & s0 & Hn & Hc). apply ret_Ok in Hc as [-> ->].
  apply new_Counter_Ok in Hn as [-> ->]. simpl.
  rewrite !lookup_insert_eq. split; [done|]. split.
  { destruct (heap s !! brk s) as [b|] eqn:Hb; [|done].
    by destruct (Pos.lt_irrefl (brk s)); apply (inv_heap_brk s HI _ b). }
  split; [done|].
  rewrite refs_insert_None by done. rewrite ind_mk, ind1_eq.
  rewrite (refs_fresh s (brk s)) by (done || apply Pos.lt_irrefl).
  by rewrite (refs_fresh_wp s (brk s)) by (done || apply Pos.lt_irrefl).
Qed.

(** X15: a [SharedPtr] built from a raw pointer, by the constructor, by
    [MakeShared] or by [Reset(p)], always gets a control block of its own:
    along every run the block is newly allocated, this handle is the only
    one on it, the weak count is 0 and [UseCount] is 1 for a non-null
    pointer and 0 for a null one.  Handing the same raw pointer to two
    handles therefore makes two independent groups. *)
Theorem raw_pointer_gets_own_block ops s v p s' :
  run ops init = Some s →
  exec (S_raw v p) s = Ok () s' ∨ exec (S_reset v p) s = Ok () s' ∨
    (∃ obj, p = Some obj ∧ declare_sp v (MakeShared obj) s = Ok () s') →
  ∃ c, sp s' !! v = Some (mkHandle p (Some c)) ∧
       heap s !! c = None ∧
       heap s' !! c = Some (mkCounter (one_if_nonnull p) 0) ∧
       refs (sp s') c = 1%nat ∧ refs (wp s') c = 0%nat ∧
       SharedPtr.UseCount (mkHandle p (Some c)) s' = Some (one_if_nonnull p).
Proof.
  intros Hrun Hop.
  assert (Inv s) as HI by (eapply run_Inv; eauto using Inv_init).
  assert (∃ s1, Inv s1 ∧ brk s1 = brk s ∧ exec (S_raw v p) s1 = Ok () s' ∧
                (heap s !! brk s = None)) as (s1 & HI1 & Hbrk & H1 & Hfree).
  { assert (heap s !! brk s = None) as Hfree.
    { destruct (heap s !! brk s) as [b|] eqn:Hb; [|done].
      by destruct (Pos.lt_irrefl (brk s)); apply (inv_heap_brk s HI _ b). }
    destruct Hop as [H|[H|(obj & -> & H)]]; [by exists s| |by exists s].
    rewrite S_reset_seq in H. apply bind_Ok in H as ([] & s1 & HD & H1).
    exists s1. destruct (S_dtor_Ok s v s1 HD) as (h & sD & Hv & HDD & ->).
    destruct (SDD_handles h s () sD HDD) as (Hsp & Hwp & Hb).
    split; [|done].
    apply (exec_spec (S_dtor v) s _ HI); [by rewrite HD|].
    eapply fits_delete_sp; eauto using inv_fits. }
  destruct (S_raw_own_block s1 s' v p HI1 H1) as (Hv & _ & Hb & Hr & Hw).
  rewrite Hbrk in *. exists (brk s).
  split; [done|]. split; [done|]. split; [done|]. split; [done|]. split; [done|].
  unfold SharedPtr.UseCount. simpl. by rewrite Hb.
Qed.

Lemma raw_pointer_gets_own_block_witness :
  let ops := [S_raw 0 (Some 7%positive); S_copy 1 0] in
  let s := state_after ops in
  let s' := state_after (ops ++ [S_reset 0 (Some 7%positive)]) in
  (run ops init = Some s ∧
   (exec (S_raw 0 (Some 7%positive)) s = Ok () s' ∨
    exec (S_reset 0 (Some 7%positive)) s = Ok () s' ∨
    (∃ obj, Some 7%positive = Some obj ∧ declare_sp 0 (MakeShared obj) s = Ok () s'))) ∧
  ∃ c, sp s' !! 0%nat = Some (mkHandle (Some 7%positive) (Some c)) ∧
       heap s !! c = None ∧
       heap s' !! c = Some (mkCounter (one_if_nonnull (Some 7%positive)) 0) ∧
       refs (sp s') c = 1%nat ∧ refs (wp s') c = 0%nat ∧
       SharedPtr.UseCount (mkHandle (Some 7%positive) (Some c)) s' =
         Some (one_if_nonnull (Some 7%positive)).
Proof.
  intros ops s s'.
  assert (run ops init = Some s) as H1 by (vm_compute; reflexivity).
  assert (exec (S_raw 0 (Some 7%positive)) s = Ok () s' ∨
          exec (S_reset 0 (Some 7%positive)) s = Ok () s' ∨
          (∃ obj, Some 7%positive = Some obj ∧ declare_sp 0 (MakeShared obj) s = Ok () s'))
    as H2 by (right; left; vm_compute; reflexivity).
  split; [by split|].
  exact (raw_pointer_gets_own_block ops s 0%nat (Some 7%positive) s' H1 H2).
Defined.

Lemma SDD_free_null h c s :
  counter h = Some c → ptr_ h = None → heap s !! c = Some (mkCounter 1 0) →
  SharedPtr.DecreaseAndDelete h s =
    Ok () (emit (EvDeleteCounter c) (set_heap (delete c) s)).
Proof.
  intros Hc Hp Hb.
  destruct (SDD_defined h c _ s Hc Hb) as [s1 HD]. rewrite HD. f_equal.
  destruct (SDD_shape h c s s1 Hc HD) as (b & Hb' & Hsp & Hwp & Hbrk & Hcases).
  assert (b = mkCounter 1 0) as -> by congruence. simpl in Hcases.
  assert (guarded_decr 1 = 0) as Hg by (vm_compute; reflexivity).
  rewrite Hg, Hp in Hcases. simpl in Hcases.
  destruct Hcases as [(_ & _ & Hh & Hl)|[(_ & ? & _)|(? & _)]]; [|done..].
  by apply State_eq.
Qed.

(** X16: a control block made for a null raw pointer starts with a strong count
    of 0 although one handle is on it.  Copying that handle brings the
    count to 1 (both handles then test true while [Get()] is null), and
    destroying the copy brings it back to 0 and frees the block under the
    first handle, whose [UseCount] and destructor then touch freed
    memory. *)
Theorem copy_of_null_pointer_handle_frees_block s v o c :
  sp s !! v = None → sp s !! o = Some (mkHandle None (Some c)) →
  heap s !! c = Some (mkCounter 0 0) →
  ∃ s1 s2,
    exec (S_copy v o) s = Ok () s1 ∧
    SharedPtr.to_bool (mkHandle None (Some c)) s1 = Some true ∧
    exec (S_dtor v) s1 = Ok () s2 ∧
    heap s2 !! c = None ∧ log s2 = log s ++ [EvDeleteCounter c] ∧
    sp s2 !! o = Some (mkHandle None (Some c)) ∧
    SharedPtr.UseCount (mkHandle None (Some c)) s2 = None ∧
    exec (S_dtor o) s2 = UB UseAfterFree.
Proof.
  intros Hv Ho Hb. assert (v ≠ o) as Hne by congruence.
  assert (size_incr 0 = 1) as Hi by (vm_compute; reflexivity).
  eexists _, _. split; [by apply (S_copy_run s v o (mkHandle None (Some c)) c (mkCounter 0 0))|].
  simpl. rewrite Hi.
  split; [unfold SharedPtr.to_bool; simpl; by rewrite lookup_insert_eq|].
  split.
  { apply (S_dtor_run _ v (mkHandle None (Some c))); [simpl; by rewrite lookup_insert_eq|].
    apply SDD_free_null; [done|done|]. simpl. by rewrite lookup_insert_eq. }
  simpl. rewrite lookup_delete_eq. split; [done|]. split; [done|].
  rewrite lookup_delete_ne, lookup_insert_ne by done. split; [done|].
  unfold SharedPtr.UseCount. simpl. rewrite lookup_delete_eq. split; [done|].
  unfold SharedPtr.dtor, bind, get_sp. simpl.
  rewrite lookup_delete_ne, lookup_insert_ne, Ho by done.
  unfold SharedPtr.DecreaseAndDelete. simpl. unfold bind, load, read. simpl.
  by rewrite lookup_delete_eq.
Qed.

Lemma copy_of_null_pointer_handle_frees_block_witness :
  let s := state_after [S_raw 0 None] in
  sp s !! 1%nat = None ∧ sp s !! 0%nat = Some (mkHandle None (Some 1%positive)) ∧
  heap s !! 1%positive = Some (mkCounter 0 0) ∧
  ∃ s1 s2,
    exec (S_copy 1 0) s = Ok () s1 ∧
    SharedPtr.to_bool (mkHandle None (Some 1%positive)) s1 = Some true ∧
    exec (S_dtor 1) s1 = Ok () s2 ∧
    heap s2 !! 1%positive = None ∧ log s2 = log s ++ [EvDeleteCounter 1] ∧
    sp s2 !! 0%nat = Some (mkHandle None (Some 1%positive)) ∧
    SharedPtr.UseCount (mkHandle None (Some 1%positive)) s2 = None ∧
    exec (S_dtor 0) s2 = UB UseAfterFree.
Proof.
  intros s.
  assert (sp s !! 1%nat = None) as H1 by (vm_compute; reflexivity).
  assert (sp s !! 0%nat = Some (mkHandle None (Some 1%positive))) as H2
    by (vm_compute; reflexivity).
  assert (heap s !! 1%positive = Some (mkCounter 0 0)) as H3 by (vm_compute; reflexivity).
  split; [exact H1|]. split; [exact H2|]. split; [exact H3|].
  exact (copy_of_null_pointer_handle_frees_block s 1%nat 0%nat 1%positive H1 H2 H3).
Defined.

(** ** What frees a control block *)

Lemma quiet_blocks s s' c :
  quiet s s' → is_Some (heap s !! c) → is_Some (heap s' !! c).
Proof.
  intros [Hh _ _ _|strong b0 h0 Hh _ _ _ _ _|c0 b h0 _ _ _ _ Hh _ _ _|c0 b b' _ _ Hh _ _ _] Hc;
    rewrite Hh; [done|..]; apply lookup_insert_is_Some'; by right.
Qed.

Lemma SDD_frees h s sD c b :
  SharedPtr.DecreaseAndDelete h s = Ok () sD →
  heap s !! c = Some b → heap sD !! c = None →
  guarded_decr (shared_count_ b) = 0 ∧ weak_count_ b = 0.
Proof.
  intros HD Hb Hfree. destruct (counter h) as [c0|] eqn:Hc.
  2: { rewrite (SDD_null h s sD Hc HD) in Hfree. congruence. }
  destruct (SDD_shape h c0 s sD Hc HD) as (b0 & Hb0 & _ & _ & _ & Hcases).
  destruct (decide (c = c0)) as [->|Hne].
  - assert (b0 = b) as -> by congruence.
    destruct Hcases as [(? & ? & _)|[(_ & _ & Hh & _)|(_ & Hh & _)]]; [done|..];
      by rewrite Hh, lookup_insert_eq in Hfree.
  - destruct Hcases as [(_ & _ & Hh & _)|[(_ & _ & Hh & _)|(_ & Hh & _)]];
      rewrite Hh in Hfree;
      rewrite ?lookup_delete_ne, ?lookup_insert_ne in Hfree by done; congruence.
Qed.

Lemma WDD_frees h s sD c b :
  WeakPtr.DecreaseAndDelete h s = Ok () sD →
  heap s !! c = Some b → heap sD !! c = None →
  guarded_decr (weak_count_ b) = 0 ∧ shared_count_ b = 0.
Proof.
  intros HD Hb Hfree. destruct (counter h) as [c0|] eqn:Hc.
  2: { rewrite (WDD_null h s sD Hc HD) in Hfree. congruence. }
  destruct (WDD_shape h c0 s sD Hc HD) as (b0 & Hb0 & _ & _ & _ & Hcases).
  destruct (decide (c = c0)) as [->|Hne].
  - assert (b0 = b) as -> by congruence.
    destruct Hcases as [(? & ? & _)|(_ & Hh & _)]; [done|].
    by rewrite Hh, lookup_insert_eq in Hfree.
  - destruct Hcases as [(_ & _ & Hh & _)|(_ & Hh & _)];
      rewrite Hh in Hfree;
      rewrite ?lookup_delete_ne, ?lookup_insert_ne in Hfree by done; congruence.
Qed.

Lemma S_dtor_frees s s' v c b :
  exec (S_dtor v) s = Ok () s' → heap s !! c = Some b → heap s' !! c = None →
  freed_at false b.
Proof.
  intros H Hb Hfree. destruct (S_dtor_Ok s v s' H) as (h & sD & _ & HD & ->).
  by apply (SDD_frees h s sD c b).
Qed.

Lemma W_dtor_frees s s' v c b :
  exec (W_dtor v) s = Ok () s' → heap s !! c = Some b → heap s' !! c = None →
  freed_at true b.
Proof.
  intros H Hb Hfree. destruct (W_dtor_Ok s v s' H) as (h & sD & _ & HD & ->).
  by apply (WDD_frees h s sD c b).
Qed.

(** a release followed by a step that frees nothing *)
Lemma seq_frees (P : Prop) (op1 op2 : Op) s s' c b :
  (∀ s1, exec op1 s = Ok () s1 → heap s1 !! c = None → P) →
  (∀ s1, exec op2 s1 = Ok () s' → quiet s1 s') →
  (exec op1;;; exec op2) s = Ok () s' →
  heap s !! c = Some b → heap s' !! c = None → P.
Proof.
  intros H1 H2 H Hb Hfree. apply bind_Ok in H as ([] & s1 & E1 & E2).
  destruct (heap s1 !! c) as [b1|] eqn:Hb1; [|by apply (H1 s1)].
  destruct (quiet_blocks s1 s' c (H2 s1 E2)) as [b' Hb']; [eauto|congruence].
Qed.

Lemma quiet_frees (P : Prop) s s' c b :
  quiet s s' → heap s !! c = Some b → heap s' !! c = None → P.
Proof.
  intros Hq Hb Hfree. destruct (quiet_blocks s s' c Hq) as [b' Hb']; [eauto|congruence].
Qed.

Lemma last_unit n : 0 ≤ n < SIZE_MODULUS → guarded_decr n = 0 → n ≤ 1.
Proof.
  intros Hn. unfold guarded_decr. destruct (0 <? n) eqn:E; [|lia].
  apply Z.ltb_lt in E. rewrite size_decr_small by lia. lia.
Qed.

Lemma freed_only_at_zero op s s' c b :
  exec op s = Ok () s' → heap s !! c = Some b → heap s' !! c = None →
  freed_at (is_weak_op op) b.
Proof.
  intros H Hb Hfree. destruct op.
  - eapply quiet_frees; [eapply S_default_quiet| |]; eauto.
  - eapply quiet_frees; [eapply S_raw_quiet| |]; eauto.
  - eapply quiet_frees; [eapply S_copy_quiet| |]; eauto.
  - eapply quiet_frees; [eapply S_move_quiet| |]; eauto.
  - eapply quiet_frees; [eapply S_from_weak_quiet| |]; eauto.
  - by apply (S_dtor_frees s s' v c b).
  - (* S_assign *)
    destruct (decide (v = o)) as [->|Hne].
    { simpl in H. unfold SharedPtr.assign in H. rewrite decide_True in H by done.
      apply ret_Ok in H as [_ ->]. congruence. }
    pose proof H as H0. simpl in H. unfold SharedPtr.assign in H.
    rewrite decide_False in H by done.
    apply bind_Ok in H as (h & s0 & Hg & H). apply get_sp_Ok in Hg as [Hv ->].
    apply bind_Ok in H as ([] & sD & HD & H).
    apply bind_Ok in H as (ho & s0 & Hg & H). apply get_sp_Ok in Hg as [Ho ->].
    destruct (SDD_handles h s () sD HD) as (Hsp & Hwp & _).
    destruct (counter ho) as [c0|] eqn:Hc.
    + rewrite (S_assign_seq s v o ho c0) in H0 by (done || congruence).
      apply (seq_frees _ (S_dtor v) (S_copy v o) s s' c b); try done.
      * intros s1 E1 F1. by apply (S_dtor_frees s s1 v c b).
      * intros s1 E2. by apply (S_copy_quiet s1 s' v o).
    + apply bind_Ok in H as ([] & s2 & Hp & H). apply put_sp_Ok in Hp as ->.
      apply ret_Ok in H as [_ ->]. simpl in Hfree.
      by apply (SDD_frees h s sD c b).
  - (* S_move_assign *)
    destruct (decide (v = o)) as [->|Hne].
    { simpl in H. unfold SharedPtr.move_assign in H. rewrite decide_True in H by done.
      apply ret_Ok in H as [_ ->]. congruence. }
    rewrite S_move_assign_seq in H by done.
    apply (seq_frees _ (S_dtor v) (S_move v o) s s' c b); try done.
    + intros s1 E1 F1. by apply (S_dtor_frees s s1 v c b).
    + intros s1 E2. by apply (S_move_quiet s1 s' v o).
  - (* S_reset *)
    rewrite S_reset_seq in H.
    apply (seq_frees _ (S_dtor v) (S_raw v p) s s' c b); try done.
    + intros s1 E1 F1. by apply (S_dtor_frees s s1 v c b).
    + intros s1 E2. by apply (S_raw_quiet s1 s' v p).
  - eapply quiet_frees; [eapply S_swap_quiet| |]; eauto.
  - eapply quiet_frees; [eapply W_default_quiet| |]; eauto.
  - eapply quiet_frees; [eapply W_copy_quiet| |]; eauto.
  - eapply quiet_frees; [eapply W_move_quiet| |]; eauto.
  - eapply quiet_frees; [eapply W_from_shared_quiet| |]; eauto.
  - eapply quiet_frees; [eapply W_raw_quiet| |]; eauto.
  - (* W_conv_move *)
    simpl in H. unfold declare_wp_from in H.
    destruct (wp s !! v) eqn:Hv; [done|]. destruct (wp s !! o) as [ho|] eqn:Ho; [|done].
    assert (v ≠ o) as Hne by congruence.
    unfold WeakPtr.ctor_conv_move in H.
    apply bind_Ok in H as ([] & s0 & Hp & H). apply put_wp_Ok in Hp as ->.
    apply bind_Ok in H as ([] & s2 & Ha & H).
    change (exec (W_assign v o) (set_wp (insert v junk) s) = Ok () s2) in Ha.
    apply bind_Ok in H as (h2 & s3 & Hg & H). apply get_wp_Ok in Hg as [_ ->].
    apply bind_Ok in H as (c2 & s3 & Hd & H). apply deref_Ok in Hd as [_ ->].
    apply incr_weak_Ok in H as (b2 & Hb2 & ->). simpl in Hfree.
    destruct (decide (c = c2)) as [->|Hc2]; [by rewrite lookup_insert_eq in Hfree|].
    rewrite lookup_insert_ne in Hfree by done.
    rewrite W_assign_seq in Ha by done.
    apply (seq_frees _ (W_dtor v) (W_copy v o) (set_wp (insert v junk) s) s2 c b); try done.
    + intros s1 E1 F1. by apply (W_dtor_frees (set_wp (insert v junk) s) s1 v c b).
    + intros s1 E2. by apply (W_copy_quiet s1 s2 v o).
  - by apply (W_dtor_frees s s' v c b).
  - (* W_assign *)
    destruct (decide (v = o)) as [->|Hne].
    { simpl in H. unfold WeakPtr.assign in H. rewrite decide_True in H by done.
      apply ret_Ok in H as [_ ->]. congruence. }
    rewrite W_assign_seq in H by done.
    apply (seq_frees _ (W_dtor v) (W_copy v o) s s' c b); try done.
    + intros s1 E1 F1. by apply (W_dtor_frees s s1 v c b).
    + intros s1 E2. by apply (W_copy_quiet s1 s' v o).
  - (* W_move_assign *)
    destruct (decide (v = o)) as [->|Hne].
    { simpl in H. unfold WeakPtr.move_assign in H. rewrite decide_True in H by done.
      apply ret_Ok in H as [_ ->]. congruence. }
    rewrite W_move_assign_seq in H by done.
    apply (seq_frees _ (W_dtor v) (W_move v o) s s' c b); try done.
    + intros s1 E1 F1. by apply (W_dtor_frees s s1 v c b).
    + intros s1 E2. by apply (W_move_quiet s1 s' v o).
  - eapply quiet_frees; [eapply W_swap_quiet| |]; eauto.
  - eapply quiet_frees; [eapply W_reset_quiet| |]; eauto.
  - eapply quiet_frees; [eapply W_lock_quiet| |]; eauto.
Qed.

(** X17: a control block is freed only at zero, and by the count that is being
    given back: whatever the state, a [SharedPtr] step that frees an
    allocated block found its weak count at 0 and its strong count at the
    last unit (or at 0 already); a [WeakPtr] step that frees a block found
    its strong count at 0 and its weak count at the last unit (or at 0
    already).  So no release of a [SharedPtr] frees a block on which a
    [WeakPtr] is still counted, and no release of a [WeakPtr] frees a block
    on which a [SharedPtr] is still counted. *)
Theorem block_freed_only_at_zero op s s' c b :
  exec op s = Ok () s' → heap s !! c = Some b → heap s' !! c = None →
  (is_weak_op op = false →
     guarded_decr (shared_count_ b) = 0 ∧ weak_count_ b = 0 ∧
     (0 ≤ shared_count_ b < SIZE_MODULUS → shared_count_ b ≤ 1)) ∧
  (is_weak_op op = true →
     guarded_decr (weak_count_ b) = 0 ∧ shared_count_ b = 0 ∧
     (0 ≤ weak_count_ b < SIZE_MODULUS → weak_count_ b ≤ 1)).
Proof.
  intros H Hb Hfree.
  pose proof (freed_only_at_zero op s s' c b H Hb Hfree) as Hz.
  split; intros Hw; rewrite Hw in Hz; destruct Hz as [Hg Ho];
    (split; [done|]; split; [done|]); intros Hr; by apply last_unit.
Qed.

Lemma block_freed_only_at_zero_witness :
  let s := state_after (owner_and_observer ++ [S_dtor 0]) in
  let s' := state_after (owner_and_observer ++ [S_dtor 0; W_dtor 0]) in
  let b := mkCounter 0 1 in
  (exec (W_dtor 0) s = Ok () s' ∧ heap s !! 1%positive = Some b ∧
   heap s' !! 1%positive = None) ∧
  (is_weak_op (W_dtor 0) = false →
     guarded_decr (shared_count_ b) = 0 ∧ weak_count_ b = 0 ∧
     (0 ≤ shared_count_ b < SIZE_MODULUS → shared_count_ b ≤ 1)) ∧
  (is_weak_op (W_dtor 0) = true →
     guarded_decr (weak_count_ b) = 0 ∧ shared_count_ b = 0 ∧
     (0 ≤ weak_count_ b < SIZE_MODULUS → weak_count_ b ≤ 1)).
Proof.
  intros s s' b.
  assert (exec (W_dtor 0) s = Ok () s') as H1 by (vm_compute; reflexivity).
  assert (heap s !! 1%positive = Some b) as H2 by (vm_compute; reflexivity).
  assert (heap s' !! 1%positive = None) as H3 by (vm_compute; reflexivity).
  split; [by repeat split|].
  exact (block_freed_only_at_zero (W_dtor 0) s s' 1%positive b H1 H2 H3).
Defined.

(** ** [WeakPtr] steps and the [SharedPtr] objects *)

Lemma keeps_sp_bind {A B} (m : M A) (k : A → M B) :
  keeps_sp m → (∀ a, keeps_sp (k a)) → keeps_sp (bind m k).
Proof.
  intros Hm Hk s b t H. apply bind_Ok in H as (a & s1 & H1 & H2).
  rewrite (Hk a s1 b t H2). by apply (Hm s a s1).
Qed.

Lemma keeps_sp_ret {A} (a : A) : keeps_sp (ret a).
Proof. intros s a' t H. by apply ret_Ok in H as [_ ->]. Qed.

Lemma keeps_sp_undefined {A} f : keeps_sp (@undefined A f).
Proof. intros s a t H. done. Qed.

Lemma keeps_sp_throw {A} e : keeps_sp (@throw A e).
Proof. intros s a t H. done. Qed.

Lemma keeps_sp_read {A} (f : State → option A) : keeps_sp (read f).
Proof. intros s a t H. by apply read_Ok in H as [_ ->]. Qed.

Lemma keeps_sp_store c b : keeps_sp (store c b).
Proof. intros s a t H. by apply store_Ok in H as [_ ->]. Qed.

Lemma keeps_sp_new_Counter b : keeps_sp (new_Counter b).
Proof. intros s a t H. by apply new_Counter_Ok in H as [_ ->]. Qed.

Lemma keeps_sp_get_sp v : keeps_sp (get_sp v).
Proof. intros s a t H. by apply get_sp_Ok in H as [_ ->]. Qed.

Lemma keeps_sp_get_wp v : keeps_sp (get_wp v).
Proof. intros s a t H. by apply get_wp_Ok in H as [_ ->]. Qed.

Lemma keeps_sp_put_wp v h : keeps_sp (put_wp v h).
Proof. intros s a t H. by apply put_wp_Ok in H as ->. Qed.

Lemma keeps_sp_set_wp {A} (a : A) f : keeps_sp (λ s, Ok a (set_wp f s)).
Proof. intros s a' t H. by injection H as _ <-. Qed.

Lemma keeps_sp_declare_wp v ctor : keeps_sp ctor → keeps_sp (declare_wp v ctor).
Proof.
  intros Hc s a t H. destruct a. apply declare_wp_Ok in H as (_ & h & s1 & H1 & ->).
  simpl. by apply (Hc s h s1).
Qed.

Lemma keeps_sp_declare_wp_from v o ctor :
  keeps_sp ctor → keeps_sp (declare_wp_from v o ctor).
Proof.
  intros Hc s a t H. unfold declare_wp_from in H.
  destruct (wp s !! v); [done|]. destruct (wp s !! o); [|done]. by apply (Hc s a t).
Qed.

Lemma keeps_sp_W_DnD h : keeps_sp (WeakPtr.DecreaseAndDelete h).
Proof. intros s a t H. by destruct (WDD_handles h s a t H) as (? & _). Qed.

Ltac keeps_sp_tac :=
  repeat first
    [ apply keeps_sp_bind | apply keeps_sp_ret | apply keeps_sp_undefined
    | apply keeps_sp_throw | apply keeps_sp_read | apply keeps_sp_store | apply keeps_sp_new_Counter
    | apply keeps_sp_get_sp | apply keeps_sp_get_wp | apply keeps_sp_put_wp
    | apply keeps_sp_set_wp | apply keeps_sp_declare_wp
    | apply keeps_sp_declare_wp_from | apply keeps_sp_W_DnD
    | match goal with
      | |- ∀ _, keeps_sp _ => intros ?
      | |- keeps_sp (match ?x with _ => _ end) => destruct x
      | |- keeps_sp (if ?b then _ else _) => destruct b
      end ].

Lemma weak_op_keeps_sp op :
  is_weak_op op = true → (∀ v w, op ≠ W_lock v w) → keeps_sp (exec op).
Proof.
  intros Hw Hl.
  destruct op; try done; try (by destruct (Hl _ _ eq_refl)); simpl;
    unfold WeakPtr.ctor_default, WeakPtr.ctor_copy, WeakPtr.ctor_move,
      WeakPtr.ctor_from_shared, WeakPtr.ctor_raw, WeakPtr.ctor_conv_move,
      WeakPtr.dtor, WeakPtr.assign, WeakPtr.move_assign,
      WeakPtr.Swap, WeakPtr.Reset,
      incr_weak_if, incr_weak, decr_weak, load, deref;
    keeps_sp_tac.
Qed.

(** X18: [WeakPtr] operations other than [Lock] leave the owners alone: no
    [SharedPtr] object changes, and along every run each [SharedPtr] that
    manages an object reports the same [UseCount] after the step as before
    and still tests true. *)
Theorem weak_steps_leave_owners_alone ops s op s' :
  run ops init = Some s → is_weak_op op = true → (∀ v w, op ≠ W_lock v w) →
  exec op s = Ok () s' → fits s' = true →
  sp s' = sp s ∧
  ∀ v h, sp s !! v = Some h → ptr_ h ≠ None →
    SharedPtr.UseCount h s' = SharedPtr.UseCount h s ∧
    SharedPtr.to_bool h s' = Some true.
Proof.
  intros Hrun Hw Hl H Hfit.
  assert (Inv s) as HI by (eapply run_Inv; eauto using Inv_init).
  assert (Inv s') as HI' by (apply (exec_spec op s s' HI); [by rewrite H|done]).
  pose proof (weak_op_keeps_sp op Hw Hl s () s' H) as Hsp.
  split; [done|]. intros v h Hv Hp.
  assert (sp s' !! v = Some h) as Hv' by by rewrite Hsp.
  destruct (inv_counts s HI h) as (c & Hc & Hcnt); eauto using holds_sp.
  destruct (inv_alloc s HI v h c Hv Hp Hc) as [b Hb].
  destruct (inv_alloc s' HI' v h c Hv' Hp Hc) as [b' Hb'].
  pose proof (Inv_block s h c b HI (holds_sp s v h Hv) Hc Hp Hb) as Hn.
  pose proof (Inv_block s' h c b' HI' (holds_sp s' v h Hv') Hc Hp Hb') as Hn'.
  pose proof (refs_pos (sp s) v h c Hv Hc) as Hpos.
  rewrite Hsp in Hn'.
  unfold SharedPtr.UseCount, SharedPtr.to_bool. rewrite Hc, Hb, Hb'. simpl.
  split; [congruence|].
  destruct (shared_count_ b' =? 0) eqn:E; [apply Z.eqb_eq in E; lia|done].
Qed.

Lemma weak_steps_leave_owners_alone_witness :
  let ops := owner_and_observer ++ [S_copy 1 0] in
  let s := state_after ops in
  let s' := state_after (ops ++ [W_reset 0]) in
  (run ops init = Some s ∧ is_weak_op (W_reset 0) = true ∧
   (∀ v w, W_reset 0 ≠ W_lock v w) ∧
   exec (W_reset 0) s = Ok () s' ∧ fits s' = true) ∧
  sp s' = sp s ∧
  ∀ v h, sp s !! v = Some h → ptr_ h ≠ None →
    SharedPtr.UseCount h s' = SharedPtr.UseCount h s ∧
    SharedPtr.to_bool h s' = Some true.
Proof.
  intros ops s s'.
  assert (run ops init = Some s) as H1 by (vm_compute; reflexivity).
  assert (is_weak_op (W_reset 0) = true) as H2 by reflexivity.
  assert (∀ v w, W_reset 0 ≠ W_lock v w) as H3 by discriminate.
  assert (exec (W_reset 0) s = Ok () s') as H4 by (vm_compute; reflexivity).
  assert (fits s' = true) as H5 by (vm_compute; reflexivity).
  split; [by repeat split|].
  exact (weak_steps_leave_owners_alone ops s (W_reset 0) s' H1 H2 H3 H4 H5).
Defined.

(** ** No object is lost *)

(** the [SharedPtr] objects after a step that declares one *)
Lemma declared_sp_stays v ctor s s' x h :
  declare_sp v ctor s = Ok () s' → keeps_sp ctor →
  sp s !! x = Some h → sp s' !! x = Some h.
Proof.
  intros H Hk Hx. apply declare_sp_Ok in H as (Hv & h0 & s1 & Hc & ->).
  simpl. rewrite lookup_insert_ne by congruence. by rewrite (Hk s h0 s1 Hc).
Qed.

Lemma manages_stays s s' c p :
  manages s c p → (∀ x h, sp s !! x = Some h → sp s' !! x = Some h) → manages s' c p.
Proof. intros [x Hx] H. exists x. by apply H. Qed.

Lemma construction_keeps_managed op s s' c p :
  exec op s = Ok () s' →
  (∀ v, op ≠ S_dtor v) → (∀ v o, op ≠ S_assign v o) → (∀ v o, op ≠ S_move_assign v o) →
  (∀ v q, op ≠ S_reset v q) →
  manages s c p → manages s' c p.
Proof.
  intros H N1 N2 N3 N4 Hm.
  destruct op; try (by destruct (N1 _ eq_refl)); try (by destruct (N2 _ _ eq_refl));
    try (by destruct (N3 _ _ eq_refl)); try (by destruct (N4 _ _ eq_refl));
    try (destruct Hm as [x Hx]; exists x;
         match goal with
         | H : exec ?op s = _ |- _ =>
             by rewrite (weak_op_keeps_sp op eq_refl ltac:(done) s () s' H)
         end);
    try (apply (manages_stays s); [done|]; intros x h;
         apply (declared_sp_stays _ _ s s' x h H);
         unfold SharedPtr.ctor_default, SharedPtr.ctor_raw, SharedPtr.ctor_copy,
           WeakPtr_Lock, SharedPtr_ctor_from_weak, SharedPtr.ctor_raw,
           incr_shared_if, incr_shared, load, deref;
         by keeps_sp_tac).
  - (* S_move *)
    apply declare_sp_Ok in H as (Hv & h & s1 & Hc & ->).
    unfold SharedPtr.ctor_move in Hc.
    apply bind_Ok in Hc as (ho & s0 & Hg & Hc). apply get_sp_Ok in Hg as [Ho ->].
    apply bind_Ok in Hc as ([] & s2 & Hp & Hc). apply put_sp_Ok in Hp as ->.
    apply ret_Ok in Hc as [-> ->]. rewrite handle_eta.
    destruct Hm as [x Hx]. destruct (decide (x = o)) as [->|Hne].
    + exists v. simpl. rewrite lookup_insert_eq. congruence.
    + exists x. simpl. rewrite !lookup_insert_ne by congruence. done.
  - (* S_swap *)
    simpl in H. unfold SharedPtr.Swap in H.
    apply bind_Ok in H as (h & s0 & Hg & H). apply get_sp_Ok in Hg as [Hv ->].
    apply bind_Ok in H as (ho & s0 & Hg & H). apply get_sp_Ok in Hg as [Ho ->].
    apply bind_Ok in H as ([] & s2 & Hp & H). apply put_sp_Ok in Hp as ->.
    apply put_sp_Ok in H as ->. rewrite !handle_eta.
    destruct Hm as [x Hx]. destruct (decide (x = v)) as [->|Hxv].
    + exists o. simpl. rewrite lookup_insert_eq. congruence.
    + destruct (decide (x = o)) as [->|Hxo].
      * exists v. simpl. rewrite lookup_insert_ne, lookup_insert_eq by done. congruence.
      * exists x. simpl. by rewrite !lookup_insert_ne by done.
Qed.

(** the release of one [SharedPtr]: the other handles of the group still
    manage the object, or this was the last one and the object is deleted *)
Lemma release_keeps_or_destroys s v h sD c p :
  Inv s → sp s !! v = Some h → SharedPtr.DecreaseAndDelete h s = Ok () sD →
  manages s c p →
  manages (set_sp (delete v) sD) c p ∨ EvDeletePtr c p ∈ log sD.
Proof.
  intros HI Hv HD [x Hx].
  destruct (SDD_handles h s () sD HD) as (Hsp & Hwp & _).
  destruct (decide (x = v)) as [->|Hne].
  2: { left. exists x. simpl. by rewrite lookup_delete_ne, Hsp by done. }
  assert (h = mkHandle (Some p) (Some c)) as Hh by congruence.
  assert (counter h = Some c) as Hc by by rewrite Hh.
  assert (ptr_ h = Some p) as Hp by by rewrite Hh.
  assert (ptr_ h ≠ None) as Hnn by congruence.
  destruct (SDD_shape h c s sD Hc HD) as (b & Hb & _ & _ & _ & Hcases).
  pose proof (Inv_block s h c b HI (holds_sp s v h Hv) Hc Hnn Hb) as Hn.
  pose proof (refs_delete_Some (sp s) v h c Hv) as Hr.
  rewrite (ind_counter h c c Hc), ind1_eq in Hr.
  pose proof (refs_bound s c (inv_fits s HI)) as Hbound.
  rewrite guarded_decr_pos in Hcases by lia. rewrite Hp in Hcases. simpl in Hcases.
  destruct (decide (refs (delete v (sp s)) c = 0%nat)) as [Hz|Hnz].
  - right.
    destruct Hcases as [(_ & _ & _ & Hl)|[(_ & _ & _ & Hl)|(? & _)]]; [..|lia];
      rewrite Hl; apply elem_of_app; right; [right|]; apply list_elem_of_singleton; done.
  - left. destruct (refs_pos_inv (delete v (sp s)) c) as (x' & h' & Hx' & Hc'); [lia|].
    apply lookup_delete_Some in Hx' as [Hne Hx'].
    pose proof (inv_ptr s HI h' h c (holds_sp s x' h' Hx') (holds_sp s v h Hv) Hc' Hc)
      as Hp'.
    exists x'. simpl. rewrite lookup_delete_ne, Hsp by done.
    rewrite Hx'. destruct h'; simpl in *; congruence.
Qed.

Lemma S_dtor_keeps_or_destroys s s' v c p :
  Inv s → exec (S_dtor v) s = Ok () s' → manages s c p →
  manages s' c p ∨ EvDeletePtr c p ∈ log s'.
Proof.
  intros HI H Hm. destruct (S_dtor_Ok s v s' H) as (h & sD & Hv & HD & ->).
  by apply (release_keeps_or_destroys s v h sD c p).
Qed.

Lemma seq_keeps_or_destroys s s' v op2 c p :
  Inv s → (exec (S_dtor v);;; exec op2) s = Ok () s' →
  (∀ v, op2 ≠ S_dtor v) → (∀ v o, op2 ≠ S_assign v o) →
  (∀ v o, op2 ≠ S_move_assign v o) → (∀ v q, op2 ≠ S_reset v q) →
  (∀ s1, exec op2 s1 = Ok () s' → log s' = log s1) →
  manages s c p →
  manages s' c p ∨ EvDeletePtr c p ∈ log s'.
Proof.
  intros HI H N1 N2 N3 N4 Hlog Hm. apply bind_Ok in H as ([] & s1 & H1 & H2).
  destruct (S_dtor_keeps_or_destroys s s1 v c p HI H1 Hm) as [Hm1|Hev].
  - left. by apply (construction_keeps_managed op2 s1 s' c p).
  - right. by rewrite (Hlog s1 H2).
Qed.

Lemma step_keeps_or_destroys op s s' c p :
  Inv s → exec op s = Ok () s' → manages s c p →
  manages s' c p ∨ EvDeletePtr c p ∈ log s'.
Proof.
  intros HI H Hm.
  destruct op;
    try (left; match goal with
               | H : exec ?op s = _ |- _ =>
                   by apply (construction_keeps_managed op s s' c p)
               end).
  - by apply (S_dtor_keeps_or_destroys s s' v c p).
  - (* S_assign *)
    destruct (decide (v = o)) as [->|Hne].
    { simpl in H. unfold SharedPtr.assign in H. rewrite decide_True in H by done.
      apply ret_Ok in H as [_ ->]. by left. }
    pose proof H as H0. simpl in H. unfold SharedPtr.assign in H.
    rewrite decide_False in H by done.
    apply bind_Ok in H as (h & s0 & Hg & H). apply get_sp_Ok in Hg as [Hv ->].
    apply bind_Ok in H as ([] & sD & HD & H).
    apply bind_Ok in H as (ho & s0 & Hg & H). apply get_sp_Ok in Hg as [Ho ->].
    destruct (SDD_handles h s () sD HD) as (Hsp & Hwp & _).
    destruct (counter ho) as [c0|] eqn:Hc.
    + rewrite (S_assign_seq s v o ho c0) in H0 by (done || congruence).
      apply (seq_keeps_or_destroys s s' v (S_copy v o) c p); try done.
      intros s1 E. by eapply S_copy_quiet.
    + apply bind_Ok in H as ([] & s2 & Hp & H). apply put_sp_Ok in Hp as ->.
      apply ret_Ok in H as [_ ->].
      destruct (release_keeps_or_destroys s v h sD c p HI Hv HD Hm) as [[x Hx]|Hev];
        [left|by right].
      simpl in Hx. apply lookup_delete_Some in Hx as [Hxv Hx].
      exists x. simpl. by rewrite lookup_insert_ne by done.
  - (* S_move_assign *)
    destruct (decide (v = o)) as [->|Hne].
    { simpl in H. unfold SharedPtr.move_assign in H. rewrite decide_True in H by done.
      apply ret_Ok in H as [_ ->]. by left. }
    rewrite S_move_assign_seq in H by done.
    apply (seq_keeps_or_destroys s s' v (S_move v o) c p); try done.
    intros s1 E. by eapply S_move_quiet.
  - (* S_reset *)
    rewrite S_reset_seq in H.
    apply (seq_keeps_or_destroys s s' v (S_raw v p0) c p); try done.
    intros s1 E. by eapply S_raw_quiet.
Qed.

Lemma run_keeps_or_destroys ops s s' c p :
  Inv s → run ops s = Some s' →
  manages s c p ∨ EvDeletePtr c p ∈ log s →
  manages s' c p ∨ EvDeletePtr c p ∈ log s'.
Proof.
  revert s. induction ops as [|op ops IH]; intros s HI H Hg; simpl in H.
  - by injection H as <-.
  - destruct (after (exec op s)) as [s1|] eqn:E; [|done].
    destruct (fits s1) eqn:Hfit; [|done].
    pose proof (exec_spec op s s1 HI E Hfit) as (HI1 & evs & Hlog & _).
    apply (IH s1 HI1 H).
    destruct Hg as [Hm|Hev].
    + destruct (exec op s) as [[] s2|e s2|] eqn:E'; simpl in E; [| |done];
        injection E as ->.
      * by apply (step_keeps_or_destroys op s s1 c p).
      * apply exec_Throw in E' as ->. by left.
    + right. rewrite Hlog. apply elem_of_app. by left.
Qed.

(** X19: no object is lost: once a [SharedPtr] manages an object through a
    control block, at every later point of the run either some live
    [SharedPtr] of that block still manages it and no [delete ptr_] has run
    through the block, or no [SharedPtr] is left on the block and the
    object has been deleted, exactly once. *)
Theorem object_is_managed_or_destroyed ops more s s' c p :
  run ops init = Some s → manages s c p → run more s = Some s' →
  (manages s' c p ∧ destroyed c (log s') = 0%nat) ∨
  (refs (sp s') c = 0%nat ∧ EvDeletePtr c p ∈ log s' ∧ destroyed c (log s') = 1%nat).
Proof.
  intros Hrun Hm Hmore.
  assert (Inv s) as HI by (eapply run_Inv; eauto using Inv_init).
  assert (Inv s') as HI' by (eapply run_Inv; eauto).
  destruct (run_keeps_or_destroys more s s' c p HI Hmore (or_introl Hm)) as [[x Hx]|Hev].
  - left. split; [by exists x|].
    destruct (destroyed c (log s')) as [|n] eqn:E; [done|].
    destruct (destroyed_pos c (log s')) as [q Hq]; [lia|].
    destruct (inv_log s' HI' c q Hq) as (_ & Hz & _).
    pose proof (refs_pos (sp s') x (mkHandle (Some p) (Some c)) c Hx eq_refl). lia.
  - right. destruct (inv_log s' HI' c p Hev) as (_ & Hz & _ & Hd). done.
Qed.

Lemma object_is_managed_or_destroyed_witness :
  let ops := owner_and_observer ++ [S_copy 1 0] in
  let more := [S_dtor 0; S_reset 1 None] in
  let s := state_after ops in
  let s' := state_after (ops ++ more) in
  (run ops init = Some s ∧ manages s 1 7 ∧ run more s = Some s') ∧
  ((manages s' 1 7 ∧ destroyed 1 (log s') = 0%nat) ∨
   (refs (sp s') 1 = 0%nat ∧ EvDeletePtr 1 7 ∈ log s' ∧ destroyed 1 (log s') = 1%nat)).
Proof.
  intros ops more s s'.
  assert (run ops init = Some s) as H1 by (vm_compute; reflexivity).
  assert (manages s 1 7) as H2 by (exists 0%nat; vm_compute; reflexivity).
  assert (run more s = Some s') as H3 by (vm_compute; reflexivity).
  split; [by repeat split|].
  exact (object_is_managed_or_destroyed ops more s s' 1%positive 7%positive H1 H2 H3).
Defined.

(** X20: a [WeakPtr] on a managed object expires exactly when the object is
    deleted: at every later point of the run where the control block is
    still allocated, [Expired] is true if and only if [delete ptr_] has run
    through the block. *)
Theorem weak_handle_expires_exactly_at_destruction ops more s s' c p w h :
  run ops init = Some s → manages s c p → run more s = Some s' →
  wp s' !! w = Some h → counter h = Some c → is_Some (heap s' !! c) →
  ∃ e, WeakPtr.Expired h s' = Some e ∧ (e = true ↔ EvDeletePtr c p ∈ log s').
Proof.
  intros Hrun Hm Hmore Hw Hc [b Hb].
  assert (Inv s) as HI by (eapply run_Inv; eauto using Inv_init).
  assert (Inv s') as HI' by (eapply run_Inv; eauto).
  unfold WeakPtr.Expired. rewrite Hc, Hb. simpl. eexists. split; [done|].
  destruct (run_keeps_or_destroys more s s' c p HI Hmore (or_introl Hm)) as [[x Hx]|Hev].
  - pose proof (Inv_block s' (mkHandle (Some p) (Some c)) c b HI'
                  (holds_sp s' x _ Hx) eq_refl ltac:(done) Hb) as Hn.
    pose proof (refs_pos (sp s') x (mkHandle (Some p) (Some c)) c Hx eq_refl) as Hpos.
    split.
    + intros E%Z.eqb_eq. lia.
    + intros Hev. destruct (inv_log s' HI' c p Hev) as (_ & Hz & _). lia.
  - destruct (inv_log s' HI' c p Hev) as (_ & _ & Hzero & _).
    split; [done|]. intros _. apply Z.eqb_eq. by apply Hzero.
Qed.

Lemma weak_handle_expires_exactly_at_destruction_witness :
  let ops := owner_and_observer in
  let more := [S_copy 1 0; S_dtor 0; S_dtor 1] in
  let s := state_after ops in
  let s' := state_after (ops ++ more) in
  let h := mkHandle (Some 7%positive) (Some 1%positive) in
  (run ops init = Some s ∧ manages s 1 7 ∧ run more s = Some s' ∧
   wp s' !! 0%nat = Some h ∧ counter h = Some 1%positive ∧
   is_Some (heap s' !! 1%positive)) ∧
  ∃ e, WeakPtr.Expired h s' = Some e ∧ (e = true ↔ EvDeletePtr 1 7 ∈ log s').
Proof.
  intros ops more s s' h.
  assert (run ops init = Some s) as H1 by (vm_compute; reflexivity).
  assert (manages s 1 7) as H2 by (exists 0%nat; vm_compute; reflexivity).
  assert (run more s = Some s') as H3 by (vm_compute; reflexivity).
  assert (wp s' !! 0%nat = Some h) as H4 by (vm_compute; reflexivity).
  assert (counter h = Some 1%positive) as H5 by reflexivity.
  assert (is_Some (heap s' !! 1%positive)) as H6 by (vm_compute; eexists; reflexivity).
  split; [by repeat split|].
  exact (weak_handle_expires_exactly_at_destruction ops more s s' 1%positive 7%positive
           0%nat h H1 H2 H3 H4 H5 H6).
Defined.

(** ** One control block per object *)

Lemma promoted_is_managed s w ho h s1 c p :
  Inv s → wp s !! w = Some ho → SharedPtr_ctor_from_weak ho s = Ok h s1 →
  h = mkHandle (Some p) (Some c) → manages s c p.
Proof.
  intros HI Hw Hc Hh. unfold SharedPtr_ctor_from_weak in Hc.
  apply bind_Ok in Hc as (e & s0 & He & Hc).
  apply (read_Ok (WeakPtr.Expired ho)) in He as [He ->].
  destruct e; [done|].
  destruct (Expired_false s ho He) as (c0 & b & Hco & Hb & Hnz).
  apply bind_Ok in Hc as ([] & s2 & Hi & Hc). apply ret_Ok in Hc as [-> _].
  injection Hh as Hp Hc0. rewrite Hco in Hc0. injection Hc0 as ->.
  assert (ptr_ ho ≠ None) as Hnn by congruence.
  pose proof (Inv_block s ho c b HI (holds_wp s w ho Hw) Hco Hnn Hb) as Hn.
  destruct (refs_pos_inv (sp s) c) as (x & h' & Hx & Hc'); [lia|].
  pose proof (inv_ptr s HI h' ho c (holds_sp s x h' Hx) (holds_wp s w ho Hw) Hc' Hco) as Hp'.
  exists x. rewrite Hx. destruct h'; simpl in *; congruence.
Qed.

Lemma declared_origin v ctor s s' c p :
  declare_sp v ctor s = Ok () s' → keeps_sp ctor → manages s' c p →
  manages s c p ∨ ∃ s1, ctor s = Ok (mkHandle (Some p) (Some c)) s1.
Proof.
  intros H Hk [x Hx]. apply declare_sp_Ok in H as (Hv & h & s1 & Hc & ->).
  simpl in Hx. rewrite (Hk s h s1 Hc) in Hx.
  apply lookup_insert_Some in Hx as [[_ ->]|[_ Hx]]; [right; eauto|left; by exists x].
Qed.

Lemma managed_origin_simple op s s' c p :
  Inv s → exec op s = Ok () s' →
  (∀ v, op ≠ S_dtor v) → (∀ v o, op ≠ S_assign v o) → (∀ v o, op ≠ S_move_assign v o) →
  (∀ v q, op ≠ S_reset v q) →
  manages s' c p → manages s c p ∨ fresh_for op s c p.
Proof.
  intros HI H N1 N2 N3 N4 Hm.
  destruct op; try (by destruct (N1 _ eq_refl)); try (by destruct (N2 _ _ eq_refl));
    try (by destruct (N3 _ _ eq_refl)); try (by destruct (N4 _ _ eq_refl));
    try (left; destruct Hm as [x Hx]; exists x;
         match goal with
         | H : exec ?op s = _ |- _ =>
             by rewrite <- (weak_op_keeps_sp op eq_refl ltac:(done) s () s' H)
         end).
  - (* S_default *)
    destruct (declared_origin v _ s s' c p H) as [?|[s1 E]]; [|done|by left|].
    { unfold SharedPtr.ctor_default. keeps_sp_tac. }
    by apply ret_Ok in E as [E _].
  - (* S_raw *)
    destruct (declared_origin v _ s s' c p H) as [?|[s1 E]]; [|done|by left|].
    { unfold SharedPtr.ctor_raw. keeps_sp_tac. }
    unfold SharedPtr.ctor_raw in E.
    apply bind_Ok in E as (c0 & s0 & Hn & E). apply ret_Ok in E as [E _].
    apply new_Counter_Ok in Hn as [-> _]. injection E as E1 E2. subst.
    right. split; [done|]. exists v. by left.
  - (* S_copy *)
    destruct (declared_origin v _ s s' c p H) as [?|[s1 E]]; [|done|by left|].
    { unfold SharedPtr.ctor_copy, incr_shared, load, deref. keeps_sp_tac. }
    apply bind_Ok in E as (ho & s0 & Hg & E). apply get_sp_Ok in Hg as [Ho ->].
    unfold SharedPtr.ctor_copy in E.
    apply bind_Ok in E as (c0 & s0 & Hd & E). apply deref_Ok in Hd as [Hco ->].
    apply bind_Ok in E as ([] & s2 & Hi & E). apply ret_Ok in E as [E _].
    rewrite handle_eta in E. left. exists o. congruence.
  - (* S_move *)
    left. apply declare_sp_Ok in H as (Hv & h & s1 & Hc & ->).
    unfold SharedPtr.ctor_move in Hc.
    apply bind_Ok in Hc as (ho & s0 & Hg & Hc). apply get_sp_Ok in Hg as [Ho ->].
    apply bind_Ok in Hc as ([] & s2 & Hp & Hc). apply put_sp_Ok in Hp as ->.
    apply ret_Ok in Hc as [-> ->]. rewrite handle_eta in Hm.
    destruct Hm as [x Hx]. simpl in Hx.
    apply lookup_insert_Some in Hx as [[_ Hx]|[_ Hx]]; [exists o; congruence|].
    apply lookup_insert_Some in Hx as [[_ Hx]|[_ Hx]]; [done|by exists x].
  - (* S_from_weak *)
    destruct (declared_origin v _ s s' c p H) as [?|[s1 E]]; [|done|by left|].
    { unfold SharedPtr_ctor_from_weak, incr_shared_if, incr_shared, load. keeps_sp_tac. }
    apply bind_Ok in E as (ho & s0 & Hg & E). apply get_wp_Ok in Hg as [Ho ->].
    left. by apply (promoted_is_managed s w ho (mkHandle (Some p) (Some c)) s1 c p).
  - (* S_swap *)
    left. simpl in H. unfold SharedPtr.Swap in H.
    apply bind_Ok in H as (h & s0 & Hg & H). apply get_sp_Ok in Hg as [Hv ->].
    apply bind_Ok in H as (ho & s0 & Hg & H). apply get_sp_Ok in Hg as [Ho ->].
    apply bind_Ok in H as ([] & s2 & Hp & H). apply put_sp_Ok in Hp as ->.
    apply put_sp_Ok in H as ->. rewrite !handle_eta in Hm.
    destruct Hm as [x Hx]. simpl in Hx.
    apply lookup_insert_Some in Hx as [[_ Hx]|[_ Hx]]; [exists v; congruence|].
    apply lookup_insert_Some in Hx as [[_ Hx]|[_ Hx]]; [exists o; congruence|by exists x].
  - (* W_lock *)
    destruct (declared_origin v _ s s' c p H) as [?|[s1 E]]; [|done|by left|].
    { unfold WeakPtr_Lock, SharedPtr.ctor_raw, SharedPtr_ctor_from_weak,
        incr_shared_if, incr_shared, load. keeps_sp_tac. }
    apply bind_Ok in E as (ho & s0 & Hg & E). apply get_wp_Ok in Hg as [Ho ->].
    unfold WeakPtr_Lock in E.
    apply bind_Ok in E as (e & s0 & He & E).
    apply (read_Ok (WeakPtr.Expired ho)) in He as [He ->].
    destruct e.
    + unfold SharedPtr.ctor_raw in E.
      apply bind_Ok in E as (c0 & s0 & Hn & E). by apply ret_Ok in E as [E _].
    + left. by apply (promoted_is_managed s w ho (mkHandle (Some p) (Some c)) s1 c p).
Qed.

Lemma released_origin s v h sD c p :
  sp s !! v = Some h → SharedPtr.DecreaseAndDelete h s = Ok () sD →
  manages (set_sp (delete v) sD) c p → manages s c p.
Proof.
  intros Hv HD [x Hx]. destruct (SDD_handles h s () sD HD) as (Hsp & _).
  simpl in Hx. apply lookup_delete_Some in Hx as [_ Hx]. exists x. by rewrite <- Hsp.
Qed.

Lemma S_dtor_origin s s' v c p :
  exec (S_dtor v) s = Ok () s' → manages s' c p → manages s c p.
Proof.
  intros H Hm. destruct (S_dtor_Ok s v s' H) as (h & sD & Hv & HD & ->).
  by apply (released_origin s v h sD c p).
Qed.

Lemma S_dtor_brk s s' v : exec (S_dtor v) s = Ok () s' → brk s' = brk s.
Proof.
  intros H. destruct (S_dtor_Ok s v s' H) as (h & sD & Hv & HD & ->).
  by destruct (SDD_handles h s () sD HD) as (_ & _ & ?).
Qed.

Lemma S_dtor_Inv s s' v : Inv s → exec (S_dtor v) s = Ok () s' → Inv s'.
Proof.
  intros HI H. apply (exec_spec (S_dtor v) s s' HI); [by rewrite H|].
  destruct (S_dtor_Ok s v s' H) as (h & sD & Hv & HD & ->).
  destruct (SDD_handles h s () sD HD) as (Hsp & Hwp & _).
  eapply fits_delete_sp; eauto using inv_fits.
Qed.

Lemma managed_origin op s s' c p :
  Inv s → exec op s = Ok () s' → manages s' c p →
  manages s c p ∨ fresh_for op s c p.
Proof.
  intros HI H Hm.
  destruct op;
    try (match goal with
         | H : exec ?op s = _ |- _ => by apply (managed_origin_simple op s s' c p)
         end).
  - left. by apply (S_dtor_origin s s' v c p).
  - (* S_assign *)
    left. destruct (decide (v = o)) as [->|Hne].
    { simpl in H. unfold SharedPtr.assign in H. rewrite decide_True in H by done.
      by apply ret_Ok in H as [_ ->]. }
    simpl in H. unfold SharedPtr.assign in H. rewrite decide_False in H by done.
    apply bind_Ok in H as (h & s0 & Hg & H). apply get_sp_Ok in Hg as [Hv ->].
    apply bind_Ok in H as ([] & sD & HD & H).
    apply bind_Ok in H as (ho & s0 & Hg & H). apply get_sp_Ok in Hg as [Ho ->].
    apply bind_Ok in H as ([] & s2 & Hp & H). apply put_sp_Ok in Hp as ->.
    destruct (SDD_handles h s () sD HD) as (Hsp & _).
    assert (sp s' = <[v:=mkHandle (ptr_ ho) (counter ho)]> (sp sD)) as Hsp'.
    { destruct (counter ho) as [c0|]; simpl in H.
      - apply incr_shared_Ok in H as (b & _ & ->). done.
      - by apply ret_Ok in H as [_ ->]. }
    destruct Hm as [x Hx]. rewrite Hsp', handle_eta in Hx.
    apply lookup_insert_Some in Hx as [[_ Hx]|[_ Hx]].
    + exists o. rewrite <- Hsp. congruence.
    + exists x. by rewrite <- Hsp.
  - (* S_move_assign *)
    left. destruct (decide (v = o)) as [->|Hne].
    { simpl in H. unfold SharedPtr.move_assign in H. rewrite decide_True in H by done.
      by apply ret_Ok in H as [_ ->]. }
    rewrite S_move_assign_seq in H by done.
    apply bind_Ok in H as ([] & s1 & H1 & H2).
    apply (S_dtor_origin s s1 v c p H1).
    destruct (managed_origin_simple (S_move v o) s1 s' c p) as [?|(_ & x & [E|E])];
      eauto using S_dtor_Inv; done.
  - (* S_reset *)
    rewrite S_reset_seq in H.
    apply bind_Ok in H as ([] & s1 & H1 & H2).
    destruct (managed_origin_simple (S_raw v p0) s1 s' c p) as [?|(Hc & x & [E|E])];
      eauto using S_dtor_Inv; try done.
    + left. by apply (S_dtor_origin s s1 v c p H1).
    + right. injection E as _ ->. split; [by rewrite Hc, (S_dtor_brk s s1 v H1)|].
      exists v. by right.
Qed.

Lemma owns_origin op s s' c p :
  Inv s → exec op s = Ok () s' → fits s' = true → owns s' c p →
  owns s c p ∨ fresh_for op s c p.
Proof.
  intros HI H Hfit [Hm|Hev].
  - destruct (managed_origin op s s' c p HI H Hm) as [?|?]; [left; by left|by right].
  - left. assert (after (exec op s) = Some s') as E by by rewrite H.
    destruct (exec_spec op s s' HI E Hfit) as (_ & evs & Hlog & HB & _).
    rewrite Hlog in Hev. apply elem_of_app in Hev as [Hev|Hev]; [by right|].
    left. by apply HB in Hev as [? _].
Qed.

Lemma unowned_spec s p :
  unowned s p = true →
  (∀ v h, sp s !! v = Some h → ptr_ h ≠ Some p) ∧ (∀ c, EvDeletePtr c p ∉ log s).
Proof.
  unfold unowned. intros [Hh Hl]%andb_true_iff. split.
  - apply bool_decide_eq_true in Hh. intros v h Hv. by apply (Hh v h).
  - intros c Hin. rewrite forallb_forall in Hl.
    apply list_elem_of_In, Hl in Hin. simpl in Hin.
    by rewrite bool_decide_eq_true_2 in Hin.
Qed.

Lemma fresh_unowned op s c p :
  takes_unowned op s = true → fresh_for op s c p → unowned s p = true.
Proof. intros Ht (_ & v & [->| ->]); exact Ht. Qed.

Lemma unowned_not_owned s c p : unowned s p = true → owns s c p → False.
Proof.
  intros [Hh Hl]%unowned_spec [[x Hx]|Hev]; [by apply (Hh x _ Hx)|by apply (Hl c)].
Qed.

Lemma one_block_step op s s' :
  Inv s → one_block s → takes_unowned op s = true →
  exec op s = Ok () s' → fits s' = true → one_block s'.
Proof.
  intros HI HK Ht H Hfit c c' p Ho Ho'.
  destruct (owns_origin op s s' c p HI H Hfit Ho) as [H1|H1];
    destruct (owns_origin op s s' c' p HI H Hfit Ho') as [H2|H2].
  - by apply (HK c c' p).
  - destruct (unowned_not_owned s c p); eauto using fresh_unowned.
  - destruct (unowned_not_owned s c' p); eauto using fresh_unowned.
  - destruct H1 as [-> _], H2 as [-> _]. done.
Qed.

Lemma one_block_init : one_block init.
Proof.
  intros c c' p [[x Hx]|Hev] _; [done|]. by apply elem_of_nil in Hev.
Qed.

Lemma one_block_run ops s s' :
  Inv s → one_block s → single_owner ops s = true → run ops s = Some s' → one_block s'.
Proof.
  revert s. induction ops as [|op ops IH]; intros s HI HK Hso H; simpl in H.
  - by injection H as <-.
  - simpl in Hso. apply andb_true_iff in Hso as [Ht Hso].
    destruct (after (exec op s)) as [s1|] eqn:E; [|done].
    destruct (fits s1) eqn:Hfit; [|done].
    apply (IH s1); [by apply (exec_spec op s s1)| |done|done].
    destruct (exec op s) as [[] s2|e s2|] eqn:E'; simpl in E; [| |done];
      injection E as ->.
    + by apply (one_block_step op s s1).
    + by apply exec_Throw in E' as ->.
Qed.

Lemma managed_not_deleted s c p :
  Inv s → one_block s → manages s c p → ∀ c', EvDeletePtr c' p ∉ log s.
Proof.
  intros HI HK Hm c' Hev.
  assert (c = c') as <- by (apply (HK c c' p); [by left|by right]).
  destruct (inv_log s HI c p Hev) as (_ & Hz & _). destruct Hm as [x Hx].
  pose proof (refs_pos (sp s) x _ c Hx eq_refl). lia.
Qed.

Lemma deleted_le_destroyed c p l :
  (∀ c', EvDeletePtr c' p ∈ l → c' = c) → (deleted p l ≤ destroyed c l)%nat.
Proof.
  unfold deleted, destroyed. induction l as [|e l IH]; intros Hc; simpl; [lia|].
  assert (∀ c', EvDeletePtr c' p ∈ l → c' = c) as Hl.
  { intros c' Hin. apply Hc. by right. }
  specialize (IH Hl).
  destruct (is_delete_of p e) eqn:Ep.
  - destruct e as [c0|c0 p0]; simpl in Ep; [done|].
    apply bool_decide_eq_true in Ep as ->.
    assert (c0 = c) as -> by (apply Hc; left).
    rewrite (filter_cons_True (λ e, is_delete_of p e = true))
      by (simpl; by apply bool_decide_eq_true).
    rewrite (filter_cons_True (λ e, is_delete_ptr_of c e = true))
      by (simpl; by apply bool_decide_eq_true).
    simpl. lia.
  - rewrite (filter_cons_False (λ e, is_delete_of p e = true)) by by rewrite Ep.
    destruct (is_delete_ptr_of c e) eqn:Ec.
    + rewrite filter_cons_True by done. simpl. lia.
    + rewrite filter_cons_False by by rewrite Ec. done.
Qed.

Lemma deleted_zero p l : (∀ c, EvDeletePtr c p ∉ l) → deleted p l = 0%nat.
Proof.
  unfold deleted. induction l as [|e l IH]; intros Hc; simpl; [done|].
  assert (∀ c, EvDeletePtr c p ∉ l) as Hl.
  { intros c Hin. apply (Hc c). by right. }
  destruct (is_delete_of p e) eqn:Ep.
  - destruct e as [c0|c0 p0]; simpl in Ep; [done|].
    apply bool_decide_eq_true in Ep as ->. destruct (Hc c0). left.
  - rewrite filter_cons_False by by rewrite Ep. by apply IH.
Qed.

Lemma deleted_pos p l : (0 < deleted p l)%nat → ∃ c, EvDeletePtr c p ∈ l.
Proof.
  unfold deleted. induction l as [|e l IH]; simpl; [lia|].
  destruct (is_delete_of p e) eqn:Ep.
  - destruct e as [c0|c0 p0]; simpl in Ep; [done|].
    apply bool_decide_eq_true in Ep as ->. intros _. exists c0. left.
  - rewrite filter_cons_False by by rewrite Ep.
    intros H. destruct (IH H) as [c Hc]. exists c. by right.
Qed.

Lemma deleted_le_1 s p : Inv s → one_block s → (deleted p (log s) ≤ 1)%nat.
Proof.
  intros HI HK. destruct (deleted p (log s)) as [|n] eqn:E; [lia|]. rewrite <- E.
  destruct (deleted_pos p (log s)) as [c Hc]; [lia|].
  etrans; [apply (deleted_le_destroyed c)|by apply destroyed_le_1].
  intros c' Hc'. apply (HK c' c p); by right.
Qed.

(** ** Operations on handles that manage an object are defined *)

Lemma managing_block s v h :
  Inv s → sp s !! v = Some h → ptr_ h ≠ None →
  ∃ c b, counter h = Some c ∧ heap s !! c = Some b.
Proof.
  intros HI Hv Hp.
  destruct (inv_counts s HI h) as (c & Hc & _); eauto using holds_sp.
  destruct (inv_alloc s HI v h c Hv Hp Hc) as [b Hb]. eauto.
Qed.



Lemma single_owner_run ops s :
  run ops init = Some s → single_owner ops init = true → Inv s ∧ one_block s.
Proof.
  intros Hrun Hso. split; [eapply run_Inv; eauto using Inv_init|].
  eapply one_block_run; eauto using Inv_init, one_block_init.
Qed.

(** A program that hands one object to two [SharedPtr]s deletes it twice:
    [delete_ptr] records every [delete ptr_], also the second one. *)
Lemma double_owner_deletes_twice :
  let ops := [S_raw 0 (Some 7%positive); S_raw 1 (Some 7%positive); S_dtor 0; S_dtor 1] in
  single_owner ops init = false ∧
  ∃ s, run ops init = Some s ∧ deleted 7%positive (log s) = 2%nat.
Proof. split; [by vm_compute|]. eexists. split; by vm_compute. Qed.



(** ** No object is deleted twice *)

(** X22: along every run of a program that hands each object to one [SharedPtr]
    only, no object is deleted twice, and an object that has been deleted
    is held by no [SharedPtr]: its last [SharedPtr] deleted it. *)
Theorem no_object_is_deleted_twice ops s p :
  run ops init = Some s → single_owner ops init = true →
  (deleted p (log s) ≤ 1)%nat ∧
  (∀ c c', EvDeletePtr c p ∈ log s → EvDeletePtr c' p ∈ log s → c = c') ∧
  (∀ c v h, EvDeletePtr c p ∈ log s → sp s !! v = Some h → ptr_ h ≠ Some p).
Proof.
  intros Hrun Hso. destruct (single_owner_run ops s Hrun Hso) as [HI HK].
  split; [by apply deleted_le_1|]. split.
  - intros c c' Hc Hc'. apply (HK c c' p); by right.
  - intros c v h Hev Hv Hp.
    destruct (managing_block s v h HI Hv) as (c' & b & Hc & _); [congruence|].
    apply (managed_not_deleted s c' p HI HK) with (c' := c); [|done].
    exists v. rewrite Hv. destruct h; simpl in *; congruence.
Qed.

Lemma no_object_is_deleted_twice_witness :
  let ops := owner_and_observer ++ [S_copy 1 0; S_dtor 0; S_dtor 1] in
  let s := state_after ops in
  (run ops init = Some s ∧ single_owner ops init = true) ∧
  deleted 7%positive (log s) = 1%nat ∧
  (deleted 7%positive (log s) ≤ 1)%nat ∧
  (∀ c c', EvDeletePtr c 7%positive ∈ log s → EvDeletePtr c' 7%positive ∈ log s → c = c') ∧
  (∀ c v h, EvDeletePtr c 7%positive ∈ log s → sp s !! v = Some h →
     ptr_ h ≠ Some 7%positive).
Proof.
  intros ops s.
  assert (run ops init = Some s) as H1 by (vm_compute; reflexivity).
  assert (single_owner ops init = true) as H2 by (vm_compute; reflexivity).
  split; [done|]. split; [by vm_compute|].
  exact (no_object_is_deleted_twice ops s 7%positive H1 H2).
Defined.

